(** * A blog-post web service: posts.json persistence and the two handlers

    Shallow embedding of [main.go]: the [Post] struct and its pointer
    receivers, [loadPost], [savePosts], and the [index] and [create]
    handlers registered in [main].

    The handlers thread three pieces of state: the file system entry
    [posts.json], the wall clock read by [time.Now], and the
    [http.ResponseWriter].  A handler may also panic (a nil pointer
    dereference), which [net/http] recovers per connection.

    The Go standard library is not part of the repository; the parts the
    handlers call ([encoding/json], [unicode/utf8], [strconv], [net/http],
    [os]) are modelled in their own modules below, from their documented
    behaviour on the types used here ([[]Post] and [Post]). *)

From Stdlib Require Import List String Ascii ZArith NArith Bool Lia.
Import ListNotations.

Local Open Scope list_scope.

(** ** Byte strings

    Go's [string] and [[]byte] are byte sequences. *)

Definition bytes := list ascii.

Definition B (s : string) : bytes := list_ascii_of_string s.

Definition byte_of (n : N) : ascii := ascii_of_N n.
Definition code (c : ascii) : N := N_of_ascii c.

Definition dquote : ascii := "034"%char.
Definition backslash : ascii := "092"%char.
Definition newline : ascii := "010"%char.

Definition bytes_eqb (a b : bytes) : bool :=
  if list_eq_dec ascii_dec a b then true else false.

(** ** unicode/utf8

    The masks and shifts of the library are written as the arithmetic
    they compute on byte values. *)

Module Utf8.

Definition RuneError : N := 65533.    (* U+FFFD *)
Definition MaxRune : N := 1114111.    (* U+10FFFF *)

Definition in_range (lo hi : N) (c : ascii) : bool :=
  ((lo <=? code c) && (code c <=? hi))%N.

Definition cont (c : ascii) : bool := in_range 128 191 c.

(** [utf8.DecodeRune]: the rune at the head of [s] and its width in
    bytes.  An empty input gives [(RuneError, 0)]; an ill-formed or
    truncated sequence gives [(RuneError, 1)]. *)
Definition DecodeRune (s : bytes) : N * nat :=
  match s with
  | [] => (RuneError, 0)
  | b0 :: t =>
    let n0 := code b0 in
    if (n0 <? 128)%N then (n0, 1)
    else if in_range 194 223 b0 then
      match t with
      | b1 :: _ =>
        if cont b1 then (((n0 - 192) * 64 + (code b1 - 128))%N, 2)
        else (RuneError, 1)
      | _ => (RuneError, 1)
      end
    else if in_range 224 239 b0 then
      match t with
      | b1 :: b2 :: _ =>
        let lo := if (n0 =? 224)%N then 160%N else 128%N in
        let hi := if (n0 =? 237)%N then 159%N else 191%N in
        if in_range lo hi b1 && cont b2 then
          (((n0 - 224) * 4096 + (code b1 - 128) * 64 + (code b2 - 128))%N, 3)
        else (RuneError, 1)
      | _ => (RuneError, 1)
      end
    else if in_range 240 244 b0 then
      match t with
      | b1 :: b2 :: b3 :: _ =>
        let lo := if (n0 =? 240)%N then 144%N else 128%N in
        let hi := if (n0 =? 244)%N then 143%N else 191%N in
        if in_range lo hi b1 && cont b2 && cont b3 then
          (((n0 - 240) * 262144 + (code b1 - 128) * 4096
            + (code b2 - 128) * 64 + (code b3 - 128))%N, 4)
        else (RuneError, 1)
      | _ => (RuneError, 1)
      end
    else (RuneError, 1)
  end.

Definition surrogate (r : N) : bool := ((55296 <=? r) && (r <=? 57343))%N.

(** [utf8.AppendRune]/[utf8.EncodeRune]: surrogates and values above
    [MaxRune] are written as U+FFFD. *)
Definition EncodeRune (r : N) : bytes :=
  if (r <? 128)%N then [byte_of r]
  else if (r <? 2048)%N then
    [byte_of (192 + r / 64); byte_of (128 + r mod 64)]%N
  else if surrogate r || (MaxRune <? r)%N then
    [byte_of 239; byte_of 191; byte_of 189]
  else if (r <? 65536)%N then
    [byte_of (224 + r / 4096); byte_of (128 + (r / 64) mod 64);
     byte_of (128 + r mod 64)]%N
  else
    [byte_of (240 + r / 262144); byte_of (128 + (r / 4096) mod 64);
     byte_of (128 + (r / 64) mod 64); byte_of (128 + r mod 64)]%N.

End Utf8.

(** ** strconv *)

Module Strconv.

Definition min_int64 : Z := - 2 ^ 63.
Definition max_int64 : Z := 2 ^ 63 - 1.

Definition is_digit (c : ascii) : bool := Utf8.in_range 48 57 c.

Definition digit_char (d : N) : ascii := byte_of (48 + d).

(** Decimal digits of [n], most significant first, pushed in front of
    [acc].  [fuel] bounds the number of digits produced. *)
Fixpoint to_digits (fuel : nat) (n : N) (acc : bytes) : bytes :=
  match fuel with
  | O => acc
  | S fuel' =>
    let acc' := digit_char (n mod 10) :: acc in
    if (n <? 10)%N then acc' else to_digits fuel' (n / 10) acc'
  end.

(** [strconv.FormatInt(z, 10)] for a 64-bit [z] (at most 19 digits). *)
Definition FormatInt (z : Z) : bytes :=
  if (z <? 0)%Z then "-"%char :: to_digits 20 (Z.to_N (- z)) []
  else to_digits 20 (Z.to_N z) [].

Fixpoint parse_digits (s : bytes) (acc : N) : option N :=
  match s with
  | [] => Some acc
  | c :: t =>
    if is_digit c then parse_digits t (acc * 10 + (code c - 48))%N
    else None
  end.

(** [strconv.ParseInt(s, 10, 64)]: an optional sign, then one or more
    decimal digits; [None] on a syntax or range error. *)
Definition ParseInt (s : bytes) : option Z :=
  let '(neg, ds) :=
    match s with
    | c :: t =>
      if Ascii.eqb c "-" then (true, t)
      else if Ascii.eqb c "+" then (false, t)
      else (false, s)
    | [] => (false, s)
    end in
  match ds with
  | [] => None
  | _ =>
    match parse_digits ds 0 with
    | None => None
    | Some n =>
      let v := if neg : bool then (- Z.of_N n)%Z else Z.of_N n in
      if ((min_int64 <=? v) && (v <=? max_int64))%Z then Some v else None
    end
  end.

End Strconv.

(** ** The Post struct

    [ViewCount] is a Go [int], 64 bits wide on the platforms the service
    targets; its arithmetic wraps. *)

Record Post := mkPost {
  Title : bytes;
  Content : bytes;
  CreatedAt : bytes;
  Author : bytes;
  ViewCount : Z;
  LastViewed : bytes
}.

(** The zero value of [Post] ([var newPost Post]). *)
Definition zeroPost : Post := mkPost [] [] [] [] 0 [].

(** A Go slice is either nil or a (possibly empty) sequence; the two are
    told apart by [encoding/json]. *)
Definition slice (A : Type) := option (list A).

Definition elems {A} (s : slice A) : list A :=
  match s with Some l => l | None => [] end.

(** [append(s, x)] *)
Definition append {A} (s : slice A) (x : A) : slice A := Some (elems s ++ [x]).

(** The [int] an operation gives when its exact result is [z]. *)
Definition wrap64 (z : Z) : Z := ((z + 2 ^ 63) mod 2 ^ 64 - 2 ^ 63)%Z.

(** ** encoding/json, scanning

    [json.Unmarshal] first scans the whole input ([checkValid]), so a
    syntax error is reported before anything is stored, then decodes the
    document into the target.  The scanner is a state machine over the
    bytes with a stack of open arrays and objects; here the same machine
    is split in two: [lex] cuts the input into tokens, and [prun] runs
    the stack over the tokens and builds the document.  Decoding into
    [Post] and [[]Post] then goes by the document.

    Strings are encoded as Go 1.22 and later do (the short escapes for
    backspace and form feed). *)

Module Json.

#[warnings="-register-all"]
Inductive value :=
| JNull
| JBool (b : bool)
| JNum (lit : bytes)
| JStr (raw : bytes)
| JArr (l : list value)
| JObj (m : list (bytes * value)).

Inductive token :=
| TLBrack | TRBrack | TLBrace | TRBrace | TComma | TColon
| TStr (raw : bytes)
| TNum (lit : bytes)
| TTrue | TFalse | TNull.

(** States of the scanner inside a number literal. *)
Inductive nstate := NNeg | N0 | N1 | NDot | NDot0 | NE | NESign | NE0.

Definition num_accepting (ns : nstate) : bool :=
  match ns with N0 | N1 | NDot0 | NE0 => true | _ => false end.

Definition is_e (c : ascii) : bool := Ascii.eqb c "e" || Ascii.eqb c "E".
Definition is_sign (c : ascii) : bool := Ascii.eqb c "+" || Ascii.eqb c "-".

(** One more byte of a number literal, when the literal goes on. *)
Definition num_step (ns : nstate) (c : ascii) : option nstate :=
  let digit := Strconv.is_digit c in
  match ns with
  | NNeg => if Ascii.eqb c "0" then Some N0 else if digit then Some N1 else None
  | N0 => if Ascii.eqb c "." then Some NDot else if is_e c then Some NE else None
  | N1 => if digit then Some N1
          else if Ascii.eqb c "." then Some NDot
          else if is_e c then Some NE else None
  | NDot => if digit then Some NDot0 else None
  | NDot0 => if digit then Some NDot0 else if is_e c then Some NE else None
  | NE => if is_sign c then Some NESign else if digit then Some NE0 else None
  | NESign => if digit then Some NE0 else None
  | NE0 => if digit then Some NE0 else None
  end.

Inductive lstate :=
| LIdle
| LStr (acc : bytes)
| LStrEsc (acc : bytes)
| LStrU (acc : bytes) (k : nat)
| LNum (acc : bytes) (ns : nstate)
| LWord (tok : token) (rest : bytes).

Definition is_space (c : ascii) : bool :=
  Ascii.eqb c " " || Ascii.eqb c "009" || Ascii.eqb c "013" || Ascii.eqb c "010".

Definition is_hex (c : ascii) : bool :=
  Strconv.is_digit c || Utf8.in_range 97 102 c || Utf8.in_range 65 70 c.

(** A byte met between tokens: the tokens it completes and the state
    it leaves the scanner in. *)
Definition start (c : ascii) : option (list token * lstate) :=
  if is_space c then Some ([], LIdle)
  else if Ascii.eqb c "[" then Some ([TLBrack], LIdle)
  else if Ascii.eqb c "]" then Some ([TRBrack], LIdle)
  else if Ascii.eqb c "{" then Some ([TLBrace], LIdle)
  else if Ascii.eqb c "}" then Some ([TRBrace], LIdle)
  else if Ascii.eqb c "," then Some ([TComma], LIdle)
  else if Ascii.eqb c ":" then Some ([TColon], LIdle)
  else if Ascii.eqb c dquote then Some ([], LStr [])
  else if Ascii.eqb c "-" then Some ([], LNum [c] NNeg)
  else if Ascii.eqb c "0" then Some ([], LNum [c] N0)
  else if Strconv.is_digit c then Some ([], LNum [c] N1)
  else if Ascii.eqb c "t" then Some ([], LWord TTrue (B "rue"))
  else if Ascii.eqb c "f" then Some ([], LWord TFalse (B "alse"))
  else if Ascii.eqb c "n" then Some ([], LWord TNull (B "ull"))
  else None.

Definition is_simple_escape (c : ascii) : bool :=
  Ascii.eqb c "b" || Ascii.eqb c "f" || Ascii.eqb c "n" || Ascii.eqb c "r"
  || Ascii.eqb c "t" || Ascii.eqb c backslash || Ascii.eqb c "/"
  || Ascii.eqb c dquote.

Definition emit (toks : list token) (r : option (list token)) :=
  option_map (app toks) r.

(** The scanner, one byte at a time.  String tokens keep the raw text
    between the quotes; literals accumulate in reverse. *)
Fixpoint lex (st : lstate) (s : bytes) : option (list token) :=
  match s with
  | [] =>
    match st with
    | LIdle => Some []
    | LNum acc ns => if num_accepting ns then Some [TNum (rev acc)] else None
    | _ => None
    end
  | c :: t =>
    match st with
    | LIdle =>
      match start c with
      | Some (toks, st') => emit toks (lex st' t)
      | None => None
      end
    | LStr acc =>
      if Ascii.eqb c dquote then emit [TStr (rev acc)] (lex LIdle t)
      else if Ascii.eqb c backslash then lex (LStrEsc (c :: acc)) t
      else if (code c <? 32)%N then None
      else lex (LStr (c :: acc)) t
    | LStrEsc acc =>
      if is_simple_escape c then lex (LStr (c :: acc)) t
      else if Ascii.eqb c "u" then lex (LStrU (c :: acc) 4) t
      else None
    | LStrU acc k =>
      if is_hex c then
        match k with
        | S (S k') => lex (LStrU (c :: acc) (S k')) t
        | _ => lex (LStr (c :: acc)) t
        end
      else None
    | LNum acc ns =>
      match num_step ns c with
      | Some ns' => lex (LNum (c :: acc) ns') t
      | None =>
        if num_accepting ns then
          match start c with
          | Some (toks, st') => emit (TNum (rev acc) :: toks) (lex st' t)
          | None => None
          end
        else None
      end
    | LWord tok rest =>
      match rest with
      | r :: rest' =>
        if Ascii.eqb c r then
          match rest' with
          | [] => emit [tok] (lex LIdle t)
          | _ => lex (LWord tok rest') t
          end
        else None
      | [] => None
      end
    end
  end.

(** ** Unquoting a string literal *)

Definition hex_val (c : ascii) : N :=
  if Strconv.is_digit c then code c - 48
  else if Utf8.in_range 97 102 c then code c - 87
  else code c - 55.

(** [getu4]: the code unit of a [\uXXXX] escape at the head of [s]. *)
Definition getu4 (s : bytes) : option N :=
  match s with
  | b :: u :: h1 :: h2 :: h3 :: h4 :: _ =>
    if Ascii.eqb b backslash && Ascii.eqb u "u"
       && is_hex h1 && is_hex h2 && is_hex h3 && is_hex h4
    then Some (hex_val h1 * 4096 + hex_val h2 * 256
               + hex_val h3 * 16 + hex_val h4)%N
    else None
  | _ => None
  end.

(** [utf16.DecodeRune] on a high and a low surrogate. *)
Definition utf16_pair (r1 r2 : N) : option N :=
  if ((55296 <=? r1) && (r1 <? 56320) && (56320 <=? r2) && (r2 <? 57344))%N
  then Some ((r1 - 55296) * 1024 + (r2 - 56320) + 65536)%N
  else None.

Definition unescape (c : ascii) : ascii :=
  if Ascii.eqb c "b" then "008"%char
  else if Ascii.eqb c "f" then "012"%char
  else if Ascii.eqb c "n" then "010"%char
  else if Ascii.eqb c "r" then "013"%char
  else if Ascii.eqb c "t" then "009"%char
  else c.

(** What the text at the head of a literal decodes to, and how many
    bytes of the literal it takes.  Escapes the scanner rejects never
    reach [unquote]; they are given no text here. *)
Definition unquote_step (s : bytes) : bytes * nat :=
  match s with
  | [] => ([], 1)
  | c :: t =>
    if Ascii.eqb c backslash then
      match t with
      | e :: t' =>
        if Ascii.eqb e "u" then
          match getu4 s with
          | Some rr =>
            if Utf8.surrogate rr then
              match getu4 (skipn 6 s) with
              | Some rr1 =>
                match utf16_pair rr rr1 with
                | Some dec => (Utf8.EncodeRune dec, 12)
                | None => (Utf8.EncodeRune Utf8.RuneError, 6)
                end
              | None => (Utf8.EncodeRune Utf8.RuneError, 6)
              end
            else (Utf8.EncodeRune rr, 6)
          | None => ([], 1)
          end
        else if is_simple_escape e then ([unescape e], 2)
        else ([], 2)
      | [] => ([], 1)
      end
    else if (code c <? 128)%N then ([c], 1)
    else let '(rr, size) := Utf8.DecodeRune s in (Utf8.EncodeRune rr, size)
  end.

(** [unquote]: [skip] counts bytes already consumed by the step taken
    at an earlier position. *)
Fixpoint unquote_from (skip : nat) (s : bytes) : bytes :=
  match s with
  | [] => []
  | _ :: t =>
    match skip with
    | S k => unquote_from k t
    | O => let '(out, n) := unquote_step s in out ++ unquote_from (n - 1) t
    end
  end.

Definition unquote (raw : bytes) : bytes := unquote_from 0 raw.

(** ** Parsing

    The scanner's parse-state stack, with the values under
    construction.  Array elements and object members accumulate in
    reverse; strings and keys keep their raw text. *)

Inductive frame :=
| FArr (acc : list value)
| FObj (acc : list (bytes * value)) (key : option bytes).

Inductive pstate :=
| PValue          (* a value must follow *)
| PValueOrEnd     (* just after an opening bracket *)
| PKeyOrEnd       (* just after an opening brace *)
| PKey            (* after a comma inside an object *)
| PColon          (* after an object key *)
| PEnd            (* after a complete value *)
| PDone (v : value).

Definition maxNestingDepth : N := 10000.

(** A complete value goes to the innermost open container, or ends the
    document. *)
Definition push_value (v : value) (stack : list frame)
  : option (pstate * list frame) :=
  match stack with
  | [] => Some (PDone v, [])
  | FArr acc :: st => Some (PEnd, FArr (v :: acc) :: st)
  | FObj acc (Some k) :: st => Some (PEnd, FObj ((k, v) :: acc) None :: st)
  | FObj _ None :: _ => None
  end.

Definition open_frame (f : frame) (ps : pstate) (stack : list frame)
  : option (pstate * list frame) :=
  if (N.of_nat (List.length stack) <? maxNestingDepth)%N
  then Some (ps, f :: stack)
  else None.

Definition begin_value (t : token) (stack : list frame)
  : option (pstate * list frame) :=
  match t with
  | TStr raw => push_value (JStr raw) stack
  | TNum lit => push_value (JNum lit) stack
  | TTrue => push_value (JBool true) stack
  | TFalse => push_value (JBool false) stack
  | TNull => push_value JNull stack
  | TLBrack => open_frame (FArr []) PValueOrEnd stack
  | TLBrace => open_frame (FObj [] None) PKeyOrEnd stack
  | _ => None
  end.

Definition set_key (raw : bytes) (stack : list frame)
  : option (pstate * list frame) :=
  match stack with
  | FObj acc None :: st => Some (PColon, FObj acc (Some raw) :: st)
  | _ => None
  end.

Definition pstep (ps : pstate) (stack : list frame) (t : token)
  : option (pstate * list frame) :=
  match ps with
  | PValue => begin_value t stack
  | PValueOrEnd =>
    match t, stack with
    | TRBrack, FArr acc :: st => push_value (JArr (rev acc)) st
    | TRBrack, _ => None
    | _, _ => begin_value t stack
    end
  | PKeyOrEnd =>
    match t, stack with
    | TRBrace, FObj acc None :: st => push_value (JObj (rev acc)) st
    | TStr raw, _ => set_key raw stack
    | _, _ => None
    end
  | PKey =>
    match t with
    | TStr raw => set_key raw stack
    | _ => None
    end
  | PColon =>
    match t with
    | TColon => Some (PValue, stack)
    | _ => None
    end
  | PEnd =>
    match t, stack with
    | TComma, FArr _ :: _ => Some (PValue, stack)
    | TRBrack, FArr acc :: st => push_value (JArr (rev acc)) st
    | TComma, FObj _ None :: _ => Some (PKey, stack)
    | TRBrace, FObj acc None :: st => push_value (JObj (rev acc)) st
    | _, _ => None
    end
  | PDone _ => None
  end.

Fixpoint prun (ps : pstate) (stack : list frame) (ts : list token)
  : option value :=
  match ts with
  | [] => match ps with PDone v => Some v | _ => None end
  | t :: ts' =>
    match pstep ps stack t with
    | Some (ps', stack') => prun ps' stack' ts'
    | None => None
    end
  end.

(** The document held by [data]; [None] is a [SyntaxError], which is
    what [checkValid] reports before anything is decoded. *)
Definition parse (data : bytes) : option value :=
  match lex LIdle data with
  | Some ts => prun PValue [] ts
  | None => None
  end.

(** ** Decoding into [Post] and [[]Post] *)

Inductive error := SyntaxError | UnmarshalTypeError.

Inductive field :=
| FTitle | FContent | FCreatedAt | FAuthor | FViewCount | FLastViewed.

(** The names given by the struct tags. *)
Definition field_name (f : field) : bytes :=
  match f with
  | FTitle => B "Title"
  | FContent => B "Content"
  | FCreatedAt => B "CreatedAt"
  | FAuthor => B "Author"
  | FViewCount => B "ViewCount"
  | FLastViewed => B "LastViewed"
  end.

Definition fields : list field :=
  [FTitle; FContent; FCreatedAt; FAuthor; FViewCount; FLastViewed].

Definition fold_byte (c : ascii) : ascii :=
  if Utf8.in_range 97 122 c then byte_of (code c - 32) else c.

(** [foldName]: ASCII letters go to upper case; U+017F and U+212A, the
    two runes outside ASCII whose case orbit holds an ASCII letter, go
    to S and K.  Every other rune folds to a rune outside ASCII, which
    no field name holds; its bytes are kept. *)
Fixpoint foldName (s : bytes) : bytes :=
  match s with
  | [] => []
  | c :: t =>
    match t with
    | c1 :: t1 =>
      if ((code c =? 197) && (code c1 =? 191))%N then "S"%char :: foldName t1
      else
        match t1 with
        | c2 :: t2 =>
          if ((code c =? 226) && (code c1 =? 132) && (code c2 =? 170))%N
          then "K"%char :: foldName t2
          else fold_byte c :: foldName t
        | [] => fold_byte c :: foldName t
        end
    | [] => [fold_byte c]
    end
  end.

(** An object key names the field it matches exactly or, failing that,
    the field it matches under case folding. *)
Definition lookup_field (key : bytes) : option field :=
  match find (fun f => bytes_eqb (field_name f) key) fields with
  | Some f => Some f
  | None =>
    find (fun f => bytes_eqb (foldName (field_name f)) (foldName key)) fields
  end.

(** Storing a JSON value in a [string]: [null] leaves it alone, anything
    but a string is a type error that leaves it alone too. *)
Definition store_string (v : value) (old : bytes) : bytes * bool :=
  match v with
  | JStr raw => (unquote raw, false)
  | JNull => (old, false)
  | _ => (old, true)
  end.

Definition store_int (v : value) (old : Z) : Z * bool :=
  match v with
  | JNum lit =>
    match Strconv.ParseInt lit with
    | Some n => (n, false)
    | None => (old, true)
    end
  | JNull => (old, false)
  | _ => (old, true)
  end.

Definition store_field (f : field) (v : value) (p : Post) : Post * bool :=
  match f with
  | FTitle =>
    let '(s, e) := store_string v (Title p) in
    (mkPost s (Content p) (CreatedAt p) (Author p) (ViewCount p) (LastViewed p), e)
  | FContent =>
    let '(s, e) := store_string v (Content p) in
    (mkPost (Title p) s (CreatedAt p) (Author p) (ViewCount p) (LastViewed p), e)
  | FCreatedAt =>
    let '(s, e) := store_string v (CreatedAt p) in
    (mkPost (Title p) (Content p) s (Author p) (ViewCount p) (LastViewed p), e)
  | FAuthor =>
    let '(s, e) := store_string v (Author p) in
    (mkPost (Title p) (Content p) (CreatedAt p) s (ViewCount p) (LastViewed p), e)
  | FViewCount =>
    let '(n, e) := store_int v (ViewCount p) in
    (mkPost (Title p) (Content p) (CreatedAt p) (Author p) n (LastViewed p), e)
  | FLastViewed =>
    let '(s, e) := store_string v (LastViewed p) in
    (mkPost (Title p) (Content p) (CreatedAt p) (Author p) (ViewCount p) s, e)
  end.

Definition store_member (acc : Post * bool) (kv : bytes * value) : Post * bool :=
  let '(p, e) := acc in
  match lookup_field (unquote (fst kv)) with
  | Some f => let '(p', e') := store_field f (snd kv) p in (p', e || e')
  | None => (p, e)
  end.

(** Decoding a value into a [Post]: members are stored in document
    order, unknown keys are skipped, a type error is recorded and
    decoding goes on.  Keys and strings are unquoted as they are
    stored. *)
Definition decode_post (v : value) (p : Post) : Post * bool :=
  match v with
  | JObj m => fold_left store_member m (p, false)
  | JNull => (p, false)
  | _ => (p, true)
  end.

Definition type_error (e : bool) : option error :=
  if e then Some UnmarshalTypeError else None.

(** [json.Unmarshal(data, &p)] with [p] a [Post]. *)
Definition UnmarshalPost (data : bytes) (p : Post) : Post * option error :=
  match parse data with
  | None => (p, Some SyntaxError)
  | Some v => let '(p', e) := decode_post v p in (p', type_error e)
  end.

(** A pointer: nil, or a reference to a value. *)
Inductive ptr (A : Type) :=
| NilPtr
| Ref (a : A).
Arguments NilPtr {A}.
Arguments Ref {A} a.

(** [json.Unmarshal(data, &posts)] with [posts] a [*[]Post] that refers
    to a nil slice.  The argument is a pointer to the pointer, so the
    first settable pointer the decoder meets is [posts] itself: on the
    document [null] it is [posts] that is set to nil.  An array fills
    the slice, one element per item, each decoded into a zero [Post].
    The result is the new value of [posts] and the error returned. *)
Definition UnmarshalPosts (data : bytes) : ptr (slice Post) * option error :=
  match parse data with
  | None => (Ref None, Some SyntaxError)
  | Some JNull => (NilPtr, None)
  | Some (JArr l) =>
    let ds := map (fun v => decode_post v zeroPost) l in
    (Ref (Some (map fst ds)), type_error (existsb snd ds))
  | Some _ => (Ref None, Some UnmarshalTypeError)
  end.

(** ** Encoding *)

Definition hex_digit (n : N) : ascii :=
  nth (N.to_nat n) (B "0123456789abcdef") "0"%char.

(** [htmlSafeSet]: printable ASCII but for the quote, the backslash and
    the three characters escaped for HTML. *)
Definition htmlSafe (c : ascii) : bool :=
  Utf8.in_range 32 127 c
  && negb (Ascii.eqb c dquote || Ascii.eqb c backslash
           || Ascii.eqb c "<" || Ascii.eqb c ">" || Ascii.eqb c "&").

Definition escape_ascii (c : ascii) : bytes :=
  if htmlSafe c then [c]
  else if Ascii.eqb c backslash || Ascii.eqb c dquote then [backslash; c]
  else if Ascii.eqb c "008" then [backslash; "b"%char]
  else if Ascii.eqb c "012" then [backslash; "f"%char]
  else if Ascii.eqb c "010" then [backslash; "n"%char]
  else if Ascii.eqb c "013" then [backslash; "r"%char]
  else if Ascii.eqb c "009" then [backslash; "t"%char]
  else [backslash; "u"%char; "0"%char; "0"%char;
        hex_digit (code c / 16); hex_digit (code c mod 16)].

(** What [appendString] writes for the text at the head of [s], and how
    many bytes of [s] that accounts for. *)
Definition quote_step (s : bytes) : bytes * nat :=
  match s with
  | [] => ([], 1)
  | c :: _ =>
    if (code c <? 128)%N then (escape_ascii c, 1)
    else
      let '(r, size) := Utf8.DecodeRune s in
      if (r =? Utf8.RuneError)%N && Nat.eqb size 1 then
        (backslash :: B "ufffd", 1)
      else if ((r =? 8232) || (r =? 8233))%N then
        (backslash :: B "u202" ++ [hex_digit (r mod 16)], size)
      else (firstn size s, size)
  end.

Fixpoint quote_from (skip : nat) (s : bytes) : bytes :=
  match s with
  | [] => []
  | _ :: t =>
    match skip with
    | S k => quote_from k t
    | O => let '(out, n) := quote_step s in out ++ quote_from (n - 1) t
    end
  end.

(** A Go string as a JSON string literal, HTML escaping on. *)
Definition quote (s : bytes) : bytes :=
  dquote :: quote_from 0 s ++ [dquote].

(** The members of a [Post], in field order. *)
Definition members (p : Post) : list (bytes * bytes) :=
  [ (B "Title", quote (Title p));
    (B "Content", quote (Content p));
    (B "CreatedAt", quote (CreatedAt p));
    (B "Author", quote (Author p));
    (B "ViewCount", Strconv.FormatInt (ViewCount p));
    (B "LastViewed", quote (LastViewed p)) ].

(** [sep]-separated concatenation. *)
Fixpoint join (sep : bytes) (l : list bytes) : bytes :=
  match l with
  | [] => []
  | [x] => x
  | x :: t => x ++ sep ++ join sep t
  end.

Definition compact_member (kv : bytes * bytes) : bytes :=
  quote (fst kv) ++ B ":" ++ snd kv.

Definition compact_post (p : Post) : bytes :=
  B "{" ++ join (B ",") (map compact_member (members p)) ++ B "}".

(** [json.Marshal(posts)] *)
Definition Marshal (posts : slice Post) : bytes :=
  match posts with
  | None => B "null"
  | Some l => B "[" ++ join (B ",") (map compact_post l) ++ B "]"
  end.

(** [json.NewEncoder(w).Encode(posts)] writes the compact encoding and
    a newline. *)
Definition Encode (posts : slice Post) : bytes := Marshal posts ++ [newline].

Definition indent_member (kv : bytes * bytes) : bytes :=
  B "    " ++ quote (fst kv) ++ B ": " ++ snd kv.

Definition indent_post (p : Post) : bytes :=
  B "  {" ++ [newline]
  ++ join (B "," ++ [newline]) (map indent_member (members p))
  ++ [newline] ++ B "  }".

(** [json.MarshalIndent(posts, "", "  ")]: the compact encoding laid
    out with one member per line, two spaces per level; an array
    without elements stays [[]]. *)
Definition MarshalIndent (posts : slice Post) : bytes :=
  match posts with
  | None => B "null"
  | Some [] => B "[]"
  | Some l =>
    B "[" ++ [newline]
    ++ join (B "," ++ [newline]) (map indent_post l)
    ++ [newline] ++ B "]"
  end.

End Json.

Arguments Json.MarshalIndent : simpl never.
Arguments Json.Marshal : simpl never.
Arguments Json.Encode : simpl never.
Arguments Json.parse : simpl never.

(** ** The environment of a handler *)

(** The file named by [filePath], the clock and the standard output of
    the process.  [clock n] is what [time.Now().Format("2006-01-02")]
    gives at the [n]-th reading; [ticks] counts the readings made.
    [writable] tells whether writing the file succeeds; when it does
    not, [failsAfter] tells where the write fails: [None], on opening
    the file; [Some n], once the file is open, after [n] bytes were
    written. *)
Record World := mkWorld {
  file : option bytes;
  readable : bool;
  writable : bool;
  failsAfter : option nat;
  clock : nat -> bytes;
  ticks : nat;
  stdout : bytes
}.

Definition headers := list (bytes * bytes).

(** An [http.ResponseWriter]: the header map, the status and headers
    sent (fixed by the first [WriteHeader]) and the body written. *)
Record ResponseWriter := mkResponse {
  header : headers;
  status : option Z;
  sent : headers;
  body : bytes
}.

(** The parts of an [*http.Request] the handlers look at.  [BodyErr]
    tells whether reading the body ends in an error. *)
Record Request := mkRequest {
  Method : bytes;
  Path : bytes;
  Body : bytes;
  BodyErr : bool
}.

Record State := mkState {
  world : World;
  resp : ResponseWriter
}.

Definition newResponse : ResponseWriter := mkResponse [] None [] [].

(** A call returns or panics. *)
Inductive outcome (A : Type) :=
| Returned (a : A)
| Panicked.
Arguments Returned {A} a.
Arguments Panicked {A}.

Definition M (A : Type) := State -> outcome A * State.

Definition ret {A} (a : A) : M A := fun s => (Returned a, s).

Definition bind {A B} (c : M A) (k : A -> M B) : M B :=
  fun s =>
    match c s with
    | (Returned a, s') => k a s'
    | (Panicked, s') => (Panicked, s')
    end.

Definition panic {A} : M A := fun s => (Panicked, s).

Declare Scope go_scope.
Delimit Scope go_scope with go.
Notation "x <- c ;; k" := (bind c (fun x => k))
  (at level 61, c at next level, right associativity) : go_scope.
Notation "c ;; k" := (bind c (fun _ => k))
  (at level 61, right associativity) : go_scope.
Local Open Scope go_scope.

(** The name of the one file the service reads and writes; [file] of
    [World] is the file of that name. *)
Definition filePath : bytes := B "posts.json".

Definition set_file (wd : World) (data : bytes) : World :=
  mkWorld (Some data) (readable wd) (writable wd) (failsAfter wd) (clock wd)
          (ticks wd) (stdout wd).

(** [os.ReadFile(filePath)]: the contents and whether an error came
    back.  A file that is missing or cannot be read gives no data. *)
Definition read (wd : World) : bytes * bool :=
  match file wd with
  | Some data => if readable wd then (data, false) else ([], true)
  | None => ([], true)
  end.

Definition ReadFile : M (bytes * bool) :=
  fun s => (Returned (read (world s)), s).

(** [os.WriteFile(filePath, data, 0644)] opens the file with
    [O_WRONLY|O_CREATE|O_TRUNC], writes [data] and closes it.  When the
    file cannot be opened, nothing has happened to it.  Once it is
    open it is empty, and a write or a close that fails leaves in it
    what was written until then. *)
Definition WriteFile (data : bytes) : M bool :=
  fun s =>
    if writable (world s)
    then (Returned false, mkState (set_file (world s) data) (resp s))
    else
      match failsAfter (world s) with
      | None => (Returned true, s)
      | Some n =>
        (Returned true, mkState (set_file (world s) (firstn n data)) (resp s))
      end.

(** [time.Now().Format("2006-01-02")] *)
Definition today : M bytes :=
  fun s =>
    let wd := world s in
    (Returned (clock wd (ticks wd)),
     mkState (mkWorld (file wd) (readable wd) (writable wd) (failsAfter wd)
                      (clock wd) (S (ticks wd)) (stdout wd))
             (resp s)).

(** [fmt.Printf] and [fmt.Println] *)
Definition print (text : bytes) : M unit :=
  fun s =>
    let wd := world s in
    (Returned tt,
     mkState (mkWorld (file wd) (readable wd) (writable wd) (failsAfter wd)
                      (clock wd) (ticks wd) (stdout wd ++ text))
             (resp s)).

Definition on_resp (f : ResponseWriter -> ResponseWriter) : M unit :=
  fun s => (Returned tt, mkState (world s) (f (resp s))).

Fixpoint del_header (k : bytes) (h : headers) : headers :=
  match h with
  | [] => []
  | (k', v) :: t =>
    if bytes_eqb k k' then del_header k t else (k', v) :: del_header k t
  end.

(** [w.Header().Set(k, v)] *)
Definition header_set (k v : bytes) : M unit :=
  on_resp (fun r =>
    mkResponse (del_header k (header r) ++ [(k, v)]) (status r) (sent r) (body r)).

Definition header_del (k : bytes) : M unit :=
  on_resp (fun r =>
    mkResponse (del_header k (header r)) (status r) (sent r) (body r)).

(** [w.WriteHeader(code)]: only the first call counts. *)
Definition WriteHeader (code : Z) : M unit :=
  on_resp (fun r =>
    match status r with
    | Some _ => r
    | None => mkResponse (header r) (Some code) (header r) (body r)
    end).

(** [w.Write(data)]: sends status 200 first when no status was sent. *)
Definition Write (data : bytes) : M unit :=
  WriteHeader 200 ;;
  on_resp (fun r => mkResponse (header r) (status r) (sent r) (body r ++ data)).

Definition StatusBadRequest : Z := 400.
Definition StatusNotFound : Z := 404.
Definition StatusMethodNotAllowed : Z := 405.
Definition StatusInternalServerError : Z := 500.
Definition MethodPost : bytes := B "POST".

(** [http.Error(w, msg, code)] *)
Definition httpError (msg : bytes) (code : Z) : M unit :=
  header_del (B "Content-Length") ;;
  header_set (B "Content-Type") (B "text/plain; charset=utf-8") ;;
  header_set (B "X-Content-Type-Options") (B "nosniff") ;;
  WriteHeader code ;;
  Write (msg ++ [newline]).

(** [io.ReadAll(r.Body)] *)
Definition ReadAll (r : Request) : bytes * bool := (Body r, BodyErr r).

(** ** Struct behaviour

    The pointer receivers of [Post], as functions from the record
    pointed to to the record left there. *)

(** [post.ViewCount += 1] *)
Definition increaseViewCount (post : Post) : Post :=
  mkPost (Title post) (Content post) (CreatedAt post) (Author post)
         (wrap64 (ViewCount post + 1)) (LastViewed post).

(** [post.LastViewed = time.Now().Format("2006-01-02")] *)
Definition setLastViewed (post : Post) : M Post :=
  d <- today ;;
  ret (mkPost (Title post) (Content post) (CreatedAt post) (Author post)
              (ViewCount post) d).

(** [post.CreatedAt = time.Now().Format("2006-01-02")] *)
Definition setCreatedAt (post : Post) : M Post :=
  d <- today ;;
  ret (mkPost (Title post) (Content post) d (Author post)
              (ViewCount post) (LastViewed post)).

(** [post.ViewCount = n] *)
Definition setViewCount (post : Post) (n : Z) : Post :=
  mkPost (Title post) (Content post) (CreatedAt post) (Author post)
         n (LastViewed post).

(** ** The store *)

(** [savePosts]: the whole Collection, indented, replaces the file.
    Marshalling a [[]Post] cannot fail, so the error returned (here:
    whether there is one) is that of [os.WriteFile]. *)
Definition savePosts (posts : slice Post) : M bool :=
  WriteFile (Json.MarshalIndent posts).

(** The loop at the end of [loadPost]. *)
Fixpoint announce (l : list Post) : M unit :=
  match l with
  | [] => ret tt
  | post :: t =>
    print (B "Loading Post '" ++ Title post ++ B "' in memory" ++ [newline]) ;;
    announce t
  end.

(** [var posts []Post; loadPost(&posts, w)]: the value the caller's
    slice holds afterwards.  Inside, [posts] is the pointer to that
    slice; ranging over [*posts] dereferences it.  A failed read is
    answered with [http.Error] and the function goes on; the error of
    [json.Unmarshal] is dropped. *)
Definition loadPost : M (slice Post) :=
  r <- ReadFile ;;
  (if snd r : bool
   then httpError (B "Error reading request body") StatusInternalServerError
   else ret tt) ;;
  match fst (Json.UnmarshalPosts (fst r)) with
  | Json.NilPtr => panic
  | Json.Ref posts => announce (elems posts) ;; ret posts
  end.

(** ** The handlers *)

(** The loop of [index] over [posts[0 .. len(posts)-1]]. *)
Fixpoint viewAll (l : list Post) : M (list Post) :=
  match l with
  | [] => ret []
  | post :: t =>
    post' <- setLastViewed (increaseViewCount post) ;;
    t' <- viewAll t ;;
    ret (post' :: t')
  end.

(** The loop does not run on a nil slice, which stays nil. *)
Definition viewSlice (posts : slice Post) : M (slice Post) :=
  match posts with
  | None => ret None
  | Some l => l' <- viewAll l ;; ret (Some l')
  end.

(** [index]: load, view every record, save, answer with the records.
    The errors of [savePosts] and of [Encode] are dropped. *)
Definition index (r : Request) : M unit :=
  posts <- loadPost ;;
  posts <- viewSlice posts ;;
  savePosts posts ;;
  header_set (B "Content-Type") (B "application/json") ;;
  Write (Json.Encode posts).

(** [create]: the method check, the body, the candidate decoded from
    it (the error of [json.Unmarshal] dropped) and stamped, then load,
    append, save and the confirmation. *)
Definition create (r : Request) : M unit :=
  if negb (bytes_eqb (Method r) MethodPost) then
    httpError (B "Please submit a post request") StatusMethodNotAllowed
  else
    let '(body, err) := ReadAll r in
    if err : bool then
      httpError (B "Error reading request body") StatusBadRequest
    else
      let newPost := fst (Json.UnmarshalPost body zeroPost) in
      newPost <- setCreatedAt newPost ;;
      newPost <- setLastViewed newPost ;;
      let newPost := setViewCount newPost 0 in
      posts <- loadPost ;;
      let posts := append posts newPost in
      savePosts posts ;;
      Write (B "Post successfully created").

(** The patterns registered in [main], and the dispatch of the default
    mux on them: neither pattern ends in a slash or names a method, so
    each matches its own path only, whatever the method. *)
Definition routes : list (bytes * (Request -> M unit)) :=
  [ (B "/index", index); (B "/create", create) ].

Definition NotFound : M unit :=
  httpError (B "404 page not found") StatusNotFound.

Definition serve (r : Request) : M unit :=
  match find (fun pr => bytes_eqb (fst pr) (Path r)) routes with
  | Some pr => snd pr r
  | None => NotFound
  end.

(** A handler run on a fresh [ResponseWriter]. *)
Definition handle (h : Request -> M unit) (r : Request) (wd : World)
  : outcome unit * State :=
  h r (mkState wd newResponse).

(** [http.ListenAndServe(":3000", nil)] on the requests [rs], taken
    one after the other through the default mux, each on a fresh
    [ResponseWriter].  A handler that panics ends its own request only:
    the server recovers and goes on, with the world as the handler left
    it.  The result is the outcome of every request and the world after
    the last. *)
Fixpoint ListenAndServe (rs : list Request) (wd : World)
  : list (outcome unit) * World :=
  match rs with
  | [] => ([], wd)
  | r :: t =>
    let '(o, s) := handle serve r wd in
    let '(os, wd') := ListenAndServe t (world s) in
    (o :: os, wd')
  end.

(** [main]: the start-up line, then the server. *)
Definition main (rs : list Request) (wd : World)
  : list (outcome unit) * World :=
  let '(_, s) :=
    print (B "Server running on http://localhost:3000" ++ [newline])
          (mkState wd newResponse) in
  ListenAndServe rs (world s).

(** * Vocabulary of the statements *)

(** ** The states a handler ends in *)

(** The world after [n] more readings of the clock. *)
Definition tick (n : nat) (wd : World) : World :=
  mkWorld (file wd) (readable wd) (writable wd) (failsAfter wd) (clock wd)
          (n + ticks wd) (stdout wd).

(** The world after [text] was printed. *)
Definition log (text : bytes) (wd : World) : World :=
  mkWorld (file wd) (readable wd) (writable wd) (failsAfter wd) (clock wd)
          (ticks wd) (stdout wd ++ text).

(** The world after [os.WriteFile] was called with [data]. *)
Definition write_file (data : bytes) (wd : World) : World :=
  if writable wd then set_file wd data
  else
    match failsAfter wd with
    | None => wd
    | Some n => set_file wd (firstn n data)
    end.

(** What [loadPost] prints for the records [l]. *)
Definition loading (l : list Post) : bytes :=
  List.concat (map (fun post =>
                 B "Loading Post '" ++ Title post ++ B "' in memory" ++ [newline]) l).

(** The record [index] leaves in place of [post] when the clock reads
    [d]. *)
Definition viewed (d : bytes) (post : Post) : Post :=
  mkPost (Title post) (Content post) (CreatedAt post) (Author post)
         (wrap64 (ViewCount post + 1)) d.

(** The loop of [index] when the clock has been read [n] times. *)
Fixpoint viewedFrom (ck : nat -> bytes) (n : nat) (l : list Post) : list Post :=
  match l with
  | [] => []
  | post :: t => viewed (ck n) post :: viewedFrom ck (S n) t
  end.

(** The same on a slice: a nil slice stays nil. *)
Definition viewedSlice (ck : nat -> bytes) (n : nat) (posts : slice Post)
  : slice Post :=
  option_map (viewedFrom ck n) posts.

(** The response [http.Error] leaves on a fresh writer. *)
Definition errorResponse (msg : bytes) (code : Z) : ResponseWriter :=
  let h := [ (B "Content-Type", B "text/plain; charset=utf-8");
             (B "X-Content-Type-Options", B "nosniff") ] in
  mkResponse h (Some code) h (msg ++ [newline]).

(** The writer as [loadPost] leaves it: untouched, or holding the error
    sent when the file could not be read. *)
Definition afterRead (wd : World) : ResponseWriter :=
  if snd (read wd)
  then errorResponse (B "Error reading request body") StatusInternalServerError
  else newResponse.

(** What [loadPost] decodes: the new value of its pointer [posts]. *)
Definition decoded (wd : World) : Json.ptr (slice Post) :=
  fst (Json.UnmarshalPosts (fst (read wd))).

(** A body written to [rw], under status 200 unless a status was sent. *)
Definition written (data : bytes) (rw : ResponseWriter) : ResponseWriter :=
  match status rw with
  | Some c => mkResponse (header rw) (Some c) (sent rw) (body rw ++ data)
  | None => mkResponse (header rw) (Some 200%Z) (header rw) (body rw ++ data)
  end.

(** [rw] after [Header().Set(k, v)]. *)
Definition withHeader (k v : bytes) (rw : ResponseWriter) : ResponseWriter :=
  mkResponse (del_header k (header rw) ++ [(k, v)]) (status rw) (sent rw) (body rw).

(** The state [index] ends in when [loadPost] gave [posts]. *)
Definition indexed (wd : World) (posts : slice Post) : State :=
  let posts' := viewedSlice (clock wd) (ticks wd) posts in
  mkState
    (write_file (Json.MarshalIndent posts')
       (tick (List.length (elems posts)) (log (loading (elems posts)) wd)))
    (written (Json.Encode posts')
       (withHeader (B "Content-Type") (B "application/json") (afterRead wd))).

(** The candidate record of [create]: the decoded body, stamped. *)
Definition candidate (wd : World) (payload : bytes) : Post :=
  let p := fst (Json.UnmarshalPost payload zeroPost) in
  mkPost (Title p) (Content p) (clock wd (ticks wd)) (Author p)
         0 (clock wd (S (ticks wd))).

(** The zero record, stamped as [create] does. *)
Definition stampedZero (wd : World) : Post :=
  mkPost [] [] (clock wd (ticks wd)) [] 0 (clock wd (S (ticks wd))).

(** The state [create] ends in when [loadPost] gave [posts]. *)
Definition created (wd : World) (payload : bytes) (posts : slice Post) : State :=
  mkState
    (write_file (Json.MarshalIndent (append posts (candidate wd payload)))
       (log (loading (elems posts)) (tick 2 wd)))
    (written (B "Post successfully created") (afterRead wd)).

(** ** Conditions on the environment and on records *)

(** [z] fits a 64-bit [int]. *)
Definition int64 (z : Z) : Prop :=
  (Strconv.min_int64 <= z <= Strconv.max_int64)%Z.

(** The next [n] readings of the clock all give the date [d]. *)
Definition stableClock (wd : World) (n : nat) (d : bytes) : Prop :=
  forall i, i < n -> clock wd (i + ticks wd) = d.

(** The fields Enumerate leaves alone. *)
Definition sameContent (post post' : Post) : Prop :=
  Title post' = Title post /\ Content post' = Content post
  /\ CreatedAt post' = CreatedAt post /\ Author post' = Author post.

(** What may be found in the file after an operation that started from
    [wd]: what was there, or a whole Collection as [savePosts] lays it
    out. *)
Definition wholeOrUntouched (wd : World) (s' : State) : Prop :=
  file (world s') = file wd
  \/ exists posts : slice Post,
       file (world s') = Some (Json.MarshalIndent posts).

(** A request the mux hands to [index], and one that [create] goes
    through with: to its path, by POST, with a body that can be read. *)
Definition viewing (r : Request) : bool := bytes_eqb (Path r) (B "/index").

Definition creating (r : Request) : bool :=
  bytes_eqb (Path r) (B "/create") && bytes_eqb (Method r) MethodPost
  && negb (BodyErr r).

(** How many requests of [rs] are of each kind. *)
Definition views (rs : list Request) : nat := List.length (filter viewing rs).
Definition creations (rs : list Request) : nat := List.length (filter creating rs).

(** White space between the tokens of a JSON text. *)
Definition blank (s : bytes) : Prop := Forall (fun c => Json.is_space c = true) s.

(** ** Well-formed text and records *)

(** A well-formed sequence at the head of [s]: [DecodeRune] does not
    report an error of width 1. *)
Definition wellFormedAt (s : bytes) : bool :=
  let '(r, n) := Utf8.DecodeRune s in
  negb ((r =? Utf8.RuneError)%N && Nat.eqb n 1).

(** [utf8.Valid]: every sequence in [s] is well formed. *)
Fixpoint validFrom (skip : nat) (s : bytes) : bool :=
  match s with
  | [] => true
  | _ :: t =>
    match skip with
    | S k => validFrom k t
    | O => wellFormedAt s && validFrom (snd (Utf8.DecodeRune s) - 1) t
    end
  end.

Definition validUTF8 (s : bytes) : Prop := validFrom 0 s = true.

(** A record as the handlers build them: text in UTF-8 and a count that
    fits an [int]. *)
Definition validPost (post : Post) : Prop :=
  validUTF8 (Title post) /\ validUTF8 (Content post)
  /\ validUTF8 (CreatedAt post) /\ validUTF8 (Author post)
  /\ int64 (ViewCount post) /\ validUTF8 (LastViewed post).

(** One well-formed sequence, whatever follows it. *)
Definition runeChunk (bs : bytes) : Prop :=
  bs <> []
  /\ forall X, wellFormedAt (bs ++ X) = true
               /\ snd (Utf8.DecodeRune (bs ++ X)) = List.length bs.

(** [out] is text inside a string literal that the scanner passes over
    and that unquotes to [orig]. *)
Definition chunk (orig out : bytes) : Prop :=
  (forall acc rest,
      Json.lex (Json.LStr acc) (out ++ rest)
      = Json.lex (Json.LStr (rev out ++ acc)) rest)
  /\ (forall X, Json.unquote_from 0 (out ++ X) = orig ++ Json.unquote_from 0 X).

(** The file holds the non-nil Collection [l] as [savePosts] lays it
    out, and can be read and written. *)
Definition holds (wd : World) (l : list Post) : Prop :=
  file wd = Some (Json.MarshalIndent (Some l))
  /\ Forall validPost l
  /\ readable wd = true /\ writable wd = true.

(** The clock gives dates in UTF-8 (those of the layout [2006-01-02]
    are ASCII). *)
Definition clockValid (wd : World) : Prop := forall i, validUTF8 (clock wd i).

(** ** The tokens and the document of a saved Collection *)

(** The tokens of one member whose value is the string [s]. *)
Definition string_member (key s : bytes) : list Json.token :=
  [Json.TStr (Json.quote_from 0 key); Json.TColon; Json.TStr (Json.quote_from 0 s)].

(** The tokens of [post] as [savePosts] writes it. *)
Definition post_tokens (post : Post) : list Json.token :=
  [Json.TLBrace]
  ++ string_member (B "Title") (Title post) ++ [Json.TComma]
  ++ string_member (B "Content") (Content post) ++ [Json.TComma]
  ++ string_member (B "CreatedAt") (CreatedAt post) ++ [Json.TComma]
  ++ string_member (B "Author") (Author post) ++ [Json.TComma]
  ++ [Json.TStr (Json.quote_from 0 (B "ViewCount")); Json.TColon;
      Json.TNum (Strconv.FormatInt (ViewCount post)); Json.TComma]
  ++ string_member (B "LastViewed") (LastViewed post)
  ++ [Json.TRBrace].

(** The tokens of the records after the first, each behind its comma. *)
Definition more_tokens (l : list Post) : list Json.token :=
  List.concat (map (fun post => Json.TComma :: post_tokens post) l).

(** The document of the string [s]: its literal, still quoted. *)
Definition string_value (s : bytes) : Json.value :=
  Json.JStr (Json.quote_from 0 s).

(** The document of [post] as [savePosts] writes it. *)
Definition post_value (post : Post) : Json.value :=
  Json.JObj
    [ (Json.quote_from 0 (B "Title"), string_value (Title post));
      (Json.quote_from 0 (B "Content"), string_value (Content post));
      (Json.quote_from 0 (B "CreatedAt"), string_value (CreatedAt post));
      (Json.quote_from 0 (B "Author"), string_value (Author post));
      (Json.quote_from 0 (B "ViewCount"),
       Json.JNum (Strconv.FormatInt (ViewCount post)));
      (Json.quote_from 0 (B "LastViewed"), string_value (LastViewed post)) ].

(** ** Sample data *)

(** A clock that stays on one day. *)
Definition sampleClock : nat -> bytes := fun _ => B "2025-05-01".

Definition samplePost : Post :=
  mkPost (B "A") (B "B") (B "2025-04-30") (B "C") 0 (B "2025-04-30").

(** A record viewed as often as an [int] can count. *)
Definition wornPost : Post :=
  mkPost (B "A") (B "B") (B "2025-04-30") (B "C") Strconv.max_int64 (B "2025-04-30").

(** A world whose file holds [data], and one without the file. *)
Definition sampleWorld (data : bytes) : World :=
  mkWorld (Some data) true true None sampleClock 0 [].

Definition emptyWorld : World := mkWorld None true true None sampleClock 0 [].

Definition getIndex : Request := mkRequest (B "GET") (B "/index") [] false.

Definition postCreate (payload : bytes) : Request :=
  mkRequest (B "POST") (B "/create") payload false.

(** A payload that supplies every field, the server-owned ones too. *)
Definition samplePayload : bytes :=
  Json.compact_post
    (mkPost (B "A") (B "B") (B "1999-01-01") (B "C") 7 (B "1999-01-02")).

(** The body of the README's request to create a post, laid out as it
    is there, with a title, a content, a date and an author of the
    caller's: the keys are in lower case, and the date goes by the name
    [created_at]. *)
Definition readmePayload (title content created_at author : bytes) : bytes :=
  B "{" ++ [newline]
  ++ B "    " ++ Json.quote (B "title") ++ B ": " ++ Json.quote title
  ++ B "," ++ [newline]
  ++ B "    " ++ Json.quote (B "content") ++ B ": " ++ Json.quote content
  ++ B "," ++ [newline]
  ++ B "    " ++ Json.quote (B "created_at") ++ B ": " ++ Json.quote created_at
  ++ B "," ++ [newline]
  ++ B "    " ++ Json.quote (B "author") ++ B ": " ++ Json.quote author
  ++ [newline]
  ++ B "  }".

(** An object whose [ViewCount] is a string. *)
Definition illTypedPayload : bytes :=
  B "{" ++ Json.quote (B "Title") ++ B ":" ++ Json.quote (B "A") ++ B ","
  ++ Json.quote (B "ViewCount") ++ B ":" ++ Json.quote (B "x") ++ B "}".

(** * Properties of the standard library model *)

(** ** Byte strings *)

Lemma bytes_eqb_eq (a b : bytes) : bytes_eqb a b = true <-> a = b.
Proof.
  unfold bytes_eqb. destruct (list_eq_dec ascii_dec a b); split; congruence.
Qed.

Lemma bytes_eqb_refl (a : bytes) : bytes_eqb a a = true.
Proof. apply bytes_eqb_eq. reflexivity. Qed.

(** ** Integers within the range of [int] *)

Lemma wrap64_succ (z : Z) :
  int64 z -> z <> Strconv.max_int64 -> wrap64 (z + 1) = (z + 1)%Z.
Proof.
  unfold int64, wrap64, Strconv.min_int64, Strconv.max_int64. intros H Hne.
  rewrite Z.mod_small; lia.
Qed.

Lemma wrap64_max : wrap64 (Strconv.max_int64 + 1) = Strconv.min_int64.
Proof. reflexivity. Qed.

Lemma ParseInt_int64 (s : bytes) (v : Z) : Strconv.ParseInt s = Some v -> int64 v.
Proof.
  unfold Strconv.ParseInt, int64.
  destruct (match s with
            | [] => (false, s)
            | c :: t =>
              if Ascii.eqb c "-" then (true, t)
              else if Ascii.eqb c "+" then (false, t) else (false, s)
            end) as [neg ds].
  destruct ds as [|c ds]; [discriminate|].
  destruct (Strconv.parse_digits (c :: ds) 0) as [n|]; [|discriminate].
  destruct (_ && _)%bool eqn:E; [|discriminate].
  intros [= <-]. apply andb_prop in E. destruct E as [E1 E2].
  apply Z.leb_le in E1, E2. split; assumption.
Qed.

Lemma store_field_int64 (f : Json.field) (v : Json.value) (p : Post) :
  int64 (ViewCount p) -> int64 (ViewCount (fst (Json.store_field f v p))).
Proof.
  intros H. destruct f; simpl;
    try (destruct (Json.store_string v _); exact H).
  unfold Json.store_int. destruct v; simpl; try exact H.
  destruct (Strconv.ParseInt lit) eqn:E; simpl; [|exact H].
  eapply ParseInt_int64; eassumption.
Qed.

Lemma store_member_int64 (acc : Post * bool) (kv : bytes * Json.value) :
  int64 (ViewCount (fst acc)) ->
  int64 (ViewCount (fst (Json.store_member acc kv))).
Proof.
  destruct acc as [p e]. unfold Json.store_member. simpl. intros H.
  destruct (Json.lookup_field (Json.unquote (fst kv))) as [f|]; [|exact H].
  pose proof (store_field_int64 f (snd kv) p H) as H'.
  destruct (Json.store_field f (snd kv) p). exact H'.
Qed.

Lemma decode_post_int64 (v : Json.value) (p : Post) :
  int64 (ViewCount p) -> int64 (ViewCount (fst (Json.decode_post v p))).
Proof.
  intros H. destruct v; simpl; try exact H.
  change p with (fst (p, false)) in H.
  revert H. generalize (p, false). induction m as [|kv m IH]; intros acc H.
  - exact H.
  - simpl. apply IH. apply store_member_int64. exact H.
Qed.

Lemma zeroPost_int64 : int64 (ViewCount zeroPost).
Proof. unfold int64, Strconv.min_int64, Strconv.max_int64. simpl. lia. Qed.

(** Every record [loadPost] decodes carries a [ViewCount] that fits an
    [int]. *)
Lemma UnmarshalPosts_int64 (data : bytes) (posts : slice Post) :
  fst (Json.UnmarshalPosts data) = Json.Ref posts ->
  Forall (fun post => int64 (ViewCount post)) (elems posts).
Proof.
  unfold Json.UnmarshalPosts.
  destruct (Json.parse data) as [v|]; simpl.
  - destruct v; simpl; intros [= <-]; simpl; try constructor.
    rewrite map_map. apply Forall_forall. intros post Hin.
    apply in_map_iff in Hin. destruct Hin as [v [<- _]].
    apply decode_post_int64, zeroPost_int64.
  - intros [= <-]. constructor.
Qed.

(** ** UTF-8: encoding what was decoded *)

Lemma byte_of_code (c : ascii) : byte_of (code c) = c.
Proof. apply ascii_N_embedding. Qed.

Lemma code_lt_256 (c : ascii) : (code c < 256)%N.
Proof. apply N_ascii_bounded. Qed.

Lemma in_range_spec (lo hi : N) (c : ascii) :
  Utf8.in_range lo hi c = true <-> (lo <= code c <= hi)%N.
Proof.
  unfold Utf8.in_range. rewrite andb_true_iff, !N.leb_le. reflexivity.
Qed.

Lemma EncodeRune_DecodeRune (s : bytes) (r : N) (n : nat) :
  s <> [] ->
  Utf8.DecodeRune s = (r, n) ->
  wellFormedAt s = true ->
  Utf8.EncodeRune r = firstn n s /\ List.length (firstn n s) = n /\ 1 <= n
  /\ (forall X, Utf8.DecodeRune (firstn n s ++ X) = (r, n))
  /\ ((128 <= code (hd "000"%char s))%N ->
      Forall (fun b => (128 <= code b)%N) (firstn n s)).
Proof.
  intros Hs Hd Hw. unfold wellFormedAt in Hw. rewrite Hd in Hw.
  destruct s as [|b0 t]; [contradiction|]. clear Hs.
  unfold Utf8.DecodeRune in Hd.
  pose proof (code_lt_256 b0) as B0.
  destruct (code b0 <? 128)%N eqn:E0.
  { injection Hd as <- <-.
    unfold Utf8.EncodeRune. rewrite E0.
    rewrite byte_of_code. simpl. rewrite E0. apply N.ltb_lt in E0.
    repeat split; try lia. }
  pose proof E0 as E0b. apply N.ltb_ge in E0.
  assert (Hbad : forall P : Prop, (r, n) = (Utf8.RuneError, 1) -> P).
  { intros P [= -> ->]. discriminate Hw. }
  destruct (Utf8.in_range 194 223 b0) eqn:E1.
  { destruct t as [|b1 t]; [symmetry in Hd; exact (Hbad _ Hd)|].
    destruct (Utf8.cont b1) eqn:C1; [|symmetry in Hd; exact (Hbad _ Hd)].
    injection Hd as <- <-.
    assert (HX : forall X, Utf8.DecodeRune (b0 :: b1 :: X)
                           = (((code b0 - 192) * 64 + (code b1 - 128))%N, 2)).
    { intros X. unfold Utf8.DecodeRune. rewrite E0b, E1, C1. reflexivity. }
    apply in_range_spec in E1, C1.
    set (r := ((code b0 - 192) * 64 + (code b1 - 128))%N) in *.
    assert (Hq : (r / 64 = code b0 - 192)%N).
    { symmetry. apply N.div_unique with (r := (code b1 - 128)%N); subst r; lia. }
    assert (Hm : (r mod 64 = code b1 - 128)%N).
    { symmetry. apply N.mod_unique with (q := (code b0 - 192)%N); subst r; lia. }
    unfold Utf8.EncodeRune.
    replace (r <? 128)%N with false by (symmetry; apply N.ltb_ge; subst r; lia).
    replace (r <? 2048)%N with true by (symmetry; apply N.ltb_lt; subst r; lia).
    rewrite Hq, Hm.
    replace (192 + (code b0 - 192))%N with (code b0) by lia.
    replace (128 + (code b1 - 128))%N with (code b1) by lia.
    rewrite !byte_of_code. simpl.
    split; [reflexivity|]. split; [reflexivity|]. split; [lia|].
    split; [exact HX|]. intros _. repeat constructor; lia. }
  destruct (Utf8.in_range 224 239 b0) eqn:E2.
  { destruct t as [|b1 [|b2 t]]; try (symmetry in Hd; exact (Hbad _ Hd)).
    destruct (Utf8.in_range _ _ b1 && Utf8.cont b2) eqn:C;
      [|symmetry in Hd; exact (Hbad _ Hd)].
    injection Hd as <- <-.
    assert (HX : forall X, Utf8.DecodeRune (b0 :: b1 :: b2 :: X)
                           = (((code b0 - 224) * 4096 + (code b1 - 128) * 64
                               + (code b2 - 128))%N, 3)).
    { intros X. unfold Utf8.DecodeRune. rewrite E0b, E1, E2, C. reflexivity. }
    apply andb_prop in C. destruct C as [C1 C2].
    apply in_range_spec in E2, C1, C2.
    set (r := ((code b0 - 224) * 4096 + (code b1 - 128) * 64 + (code b2 - 128))%N) in *.
    assert (R1 : (128 <= code b1 <= 191)%N).
    { destruct (code b0 =? 224)%N, (code b0 =? 237)%N; lia. }
    assert (Hlo : (2048 <= r)%N).
    { destruct (code b0 =? 224)%N eqn:Z; [apply N.eqb_eq in Z|apply N.eqb_neq in Z];
        subst r; destruct (code b0 =? 237)%N; lia. }
    assert (Hsur : Utf8.surrogate r = false).
    { unfold Utf8.surrogate. apply andb_false_iff.
      destruct (code b0 =? 237)%N eqn:Z;
        [apply N.eqb_eq in Z|apply N.eqb_neq in Z].
      - left. apply N.leb_gt. subst r.
        destruct (code b0 =? 224)%N; lia.
      - destruct (N.lt_ge_cases (code b0) 237).
        + left. apply N.leb_gt. subst r. lia.
        + right. apply N.leb_gt. subst r. lia. }
    assert (Hq : (r / 4096 = code b0 - 224)%N).
    { symmetry.
      apply N.div_unique with (r := ((code b1 - 128) * 64 + (code b2 - 128))%N);
        subst r; lia. }
    assert (Hq2 : (r / 64 = (code b0 - 224) * 64 + (code b1 - 128))%N).
    { symmetry. apply N.div_unique with (r := (code b2 - 128)%N); subst r; lia. }
    assert (Hm2 : ((r / 64) mod 64 = code b1 - 128)%N).
    { rewrite Hq2. symmetry.
      apply N.mod_unique with (q := (code b0 - 224)%N); lia. }
    assert (Hm : (r mod 64 = code b2 - 128)%N).
    { symmetry.
      apply N.mod_unique with (q := ((code b0 - 224) * 64 + (code b1 - 128))%N);
        subst r; lia. }
    unfold Utf8.EncodeRune.
    replace (r <? 128)%N with false by (symmetry; apply N.ltb_ge; lia).
    replace (r <? 2048)%N with false by (symmetry; apply N.ltb_ge; lia).
    rewrite Hsur.
    replace (Utf8.MaxRune <? r)%N with false
      by (symmetry; apply N.ltb_ge; unfold Utf8.MaxRune; subst r; lia).
    replace (r <? 65536)%N with true by (symmetry; apply N.ltb_lt; subst r; lia).
    simpl orb. cbv iota.
    rewrite Hq, Hm2, Hm.
    replace (224 + (code b0 - 224))%N with (code b0) by lia.
    replace (128 + (code b1 - 128))%N with (code b1) by lia.
    replace (128 + (code b2 - 128))%N with (code b2) by lia.
    rewrite !byte_of_code. simpl.
    split; [reflexivity|]. split; [reflexivity|]. split; [lia|].
    split; [exact HX|]. intros _. repeat constructor; lia. }
  destruct (Utf8.in_range 240 244 b0) eqn:E3.
  { destruct t as [|b1 [|b2 [|b3 t]]]; try (symmetry in Hd; exact (Hbad _ Hd)).
    destruct (Utf8.in_range _ _ b1 && Utf8.cont b2 && Utf8.cont b3) eqn:C;
      [|symmetry in Hd; exact (Hbad _ Hd)].
    injection Hd as <- <-.
    assert (HX : forall X, Utf8.DecodeRune (b0 :: b1 :: b2 :: b3 :: X)
                           = (((code b0 - 240) * 262144 + (code b1 - 128) * 4096
                               + (code b2 - 128) * 64 + (code b3 - 128))%N, 4)).
    { intros X. unfold Utf8.DecodeRune. rewrite E0b, E1, E2, E3, C. reflexivity. }
    apply andb_prop in C. destruct C as [C C3].
    apply andb_prop in C. destruct C as [C1 C2].
    apply in_range_spec in E3, C1, C2, C3.
    set (r := ((code b0 - 240) * 262144 + (code b1 - 128) * 4096
               + (code b2 - 128) * 64 + (code b3 - 128))%N) in *.
    assert (R1 : (128 <= code b1 <= 191)%N).
    { destruct (code b0 =? 240)%N, (code b0 =? 244)%N; lia. }
    assert (Hlo : (65536 <= r)%N).
    { destruct (code b0 =? 240)%N eqn:Z; [apply N.eqb_eq in Z|apply N.eqb_neq in Z];
        subst r; destruct (code b0 =? 244)%N; lia. }
    assert (Hhi : (r <= Utf8.MaxRune)%N).
    { unfold Utf8.MaxRune.
      destruct (code b0 =? 244)%N eqn:Z; [apply N.eqb_eq in Z|apply N.eqb_neq in Z];
        subst r; destruct (code b0 =? 240)%N; lia. }
    assert (Hsur : Utf8.surrogate r = false).
    { unfold Utf8.surrogate. apply andb_false_iff. right. apply N.leb_gt. lia. }
    assert (Hq : (r / 262144 = code b0 - 240)%N).
    { symmetry.
      apply N.div_unique
        with (r := ((code b1 - 128) * 4096 + (code b2 - 128) * 64
                    + (code b3 - 128))%N); subst r; lia. }
    assert (Hq1 : (r / 4096 = (code b0 - 240) * 64 + (code b1 - 128))%N).
    { symmetry.
      apply N.div_unique with (r := ((code b2 - 128) * 64 + (code b3 - 128))%N);
        subst r; lia. }
    assert (Hq2 : (r / 64 = (code b0 - 240) * 4096 + (code b1 - 128) * 64
                            + (code b2 - 128))%N).
    { symmetry. apply N.div_unique with (r := (code b3 - 128)%N); subst r; lia. }
    assert (Hm1 : ((r / 4096) mod 64 = code b1 - 128)%N).
    { rewrite Hq1. symmetry.
      apply N.mod_unique with (q := (code b0 - 240)%N); lia. }
    assert (Hm2 : ((r / 64) mod 64 = code b2 - 128)%N).
    { rewrite Hq2. symmetry.
      apply N.mod_unique with (q := ((code b0 - 240) * 64 + (code b1 - 128))%N); lia. }
    assert (Hm : (r mod 64 = code b3 - 128)%N).
    { symmetry.
      apply N.mod_unique
        with (q := ((code b0 - 240) * 4096 + (code b1 - 128) * 64
                    + (code b2 - 128))%N); subst r; lia. }
    unfold Utf8.EncodeRune.
    replace (r <? 128)%N with false by (symmetry; apply N.ltb_ge; lia).
    replace (r <? 2048)%N with false by (symmetry; apply N.ltb_ge; lia).
    rewrite Hsur.
    replace (Utf8.MaxRune <? r)%N with false by (symmetry; apply N.ltb_ge; lia).
    replace (r <? 65536)%N with false by (symmetry; apply N.ltb_ge; lia).
    simpl orb. cbv iota.
    rewrite Hq, Hm1, Hm2, Hm.
    replace (240 + (code b0 - 240))%N with (code b0) by lia.
    replace (128 + (code b1 - 128))%N with (code b1) by lia.
    replace (128 + (code b2 - 128))%N with (code b2) by lia.
    replace (128 + (code b3 - 128))%N with (code b3) by lia.
    rewrite !byte_of_code. simpl.
    split; [reflexivity|]. split; [reflexivity|]. split; [lia|].
    split; [exact HX|]. intros _. repeat constructor; lia. }
  symmetry in Hd. exact (Hbad _ Hd).
Qed.

(** ** String literals: scanning and unquoting what [quote] wrote *)

Lemma quote_from_skip (s : bytes) (k : nat) :
  Json.quote_from k s = Json.quote_from 0 (skipn k s).
Proof.
  revert k. induction s as [|c t IH]; intros [|k]; try reflexivity.
  simpl. apply IH.
Qed.

Lemma unquote_from_skip (s : bytes) (k : nat) :
  Json.unquote_from k s = Json.unquote_from 0 (skipn k s).
Proof.
  revert k. induction s as [|c t IH]; intros [|k]; try reflexivity.
  simpl. apply IH.
Qed.

Lemma validFrom_skip (s : bytes) (k : nat) :
  validFrom k s = validFrom 0 (skipn k s).
Proof.
  revert k. induction s as [|c t IH]; intros [|k]; try reflexivity.
  simpl. apply IH.
Qed.

Lemma chunk_nil : chunk [] [].
Proof. split; reflexivity. Qed.

Lemma chunk_app (o1 e1 o2 e2 : bytes) :
  chunk o1 e1 -> chunk o2 e2 -> chunk (o1 ++ o2) (e1 ++ e2).
Proof.
  intros [L1 U1] [L2 U2]. split.
  - intros acc rest. rewrite <- app_assoc, L1, L2, rev_app_distr, <- app_assoc.
    reflexivity.
  - intros X. rewrite <- !app_assoc, U1, U2. reflexivity.
Qed.

Lemma chunk_ascii (c : ascii) :
  (code c < 128)%N -> chunk [c] (Json.escape_ascii c).
Proof.
  destruct c as [[|] [|] [|] [|] [|] [|] [|] [|]];
    intros H; try (exfalso; vm_compute in H; discriminate H);
    split; intros; reflexivity.
Qed.

Lemma high_byte_in_string (c : ascii) (acc rest : bytes) :
  (128 <= code c)%N ->
  Json.lex (Json.LStr acc) (c :: rest) = Json.lex (Json.LStr (c :: acc)) rest.
Proof.
  destruct c as [[|] [|] [|] [|] [|] [|] [|] [|]];
    intros H; try (exfalso; vm_compute in H; apply H; reflexivity);
    reflexivity.
Qed.

Lemma high_byte_not_escape (c : ascii) :
  (128 <= code c)%N -> Ascii.eqb c backslash = false.
Proof.
  destruct c as [[|] [|] [|] [|] [|] [|] [|] [|]];
    intros H; try (exfalso; vm_compute in H; apply H; reflexivity);
    reflexivity.
Qed.

Lemma high_bytes_in_string (bs acc rest : bytes) :
  Forall (fun b => (128 <= code b)%N) bs ->
  Json.lex (Json.LStr acc) (bs ++ rest) = Json.lex (Json.LStr (rev bs ++ acc)) rest.
Proof.
  intros H. revert acc. induction H as [|b bs Hb _ IH]; intros acc.
  - reflexivity.
  - cbn [List.app]. rewrite high_byte_in_string by exact Hb.
    rewrite IH. simpl. rewrite <- app_assoc. reflexivity.
Qed.

Lemma skipn_app_exact {A} (l1 l2 : list A) (n : nat) :
  List.length l1 = n -> skipn n (l1 ++ l2) = l2.
Proof.
  intros <-. rewrite skipn_app, skipn_all, Nat.sub_diag. reflexivity.
Qed.

(** A well-formed sequence outside ASCII, copied as it is. *)
Lemma chunk_rune (s : bytes) (r : N) (n : nat) :
  s <> [] -> (128 <= code (hd "000"%char s))%N ->
  Utf8.DecodeRune s = (r, n) -> wellFormedAt s = true ->
  chunk (firstn n s) (firstn n s).
Proof.
  intros Hs Hc Hd Hw.
  destruct (EncodeRune_DecodeRune s r n Hs Hd Hw) as [He [Hl [Hn [HX Hhigh]]]].
  specialize (Hhigh Hc). split.
  - intros acc rest. apply high_bytes_in_string. exact Hhigh.
  - intros X. specialize (HX X).
    destruct (firstn n s) as [|b0 bs] eqn:Hf.
    { simpl in Hl. lia. }
    pose proof (Forall_inv Hhigh) as Hb0.
    cbn [List.app Json.unquote_from].
    change (b0 :: bs ++ X) with ((b0 :: bs) ++ X).
    unfold Json.unquote_step. cbn [List.app].
    rewrite (high_byte_not_escape b0 Hb0).
    replace (code b0 <? 128)%N with false by (symmetry; apply N.ltb_ge; exact Hb0).
    change (b0 :: bs ++ X) with ((b0 :: bs) ++ X). rewrite HX, He.
    rewrite unquote_from_skip.
    rewrite skipn_app_exact by (simpl in Hl; lia).
    reflexivity.
Qed.

Lemma chunk_separator (r : N) :
  r = 8232%N \/ r = 8233%N ->
  chunk (Utf8.EncodeRune r) (backslash :: B "u202" ++ [Json.hex_digit (r mod 16)]).
Proof. intros [-> | ->]; split; intros; reflexivity. Qed.

Lemma quote_step_chunk (s : bytes) :
  s <> [] -> wellFormedAt s = true ->
  chunk (firstn (snd (Json.quote_step s)) s) (fst (Json.quote_step s))
  /\ snd (Json.quote_step s) = snd (Utf8.DecodeRune s)
  /\ 1 <= snd (Json.quote_step s).
Proof.
  intros Hs Hw. destruct s as [|c t]; [contradiction|].
  unfold Json.quote_step.
  destruct (code c <? 128)%N eqn:E.
  - apply N.ltb_lt in E. simpl. split; [apply chunk_ascii; exact E|].
    unfold Utf8.DecodeRune. apply N.ltb_lt in E. rewrite E. auto.
  - apply N.ltb_ge in E.
    destruct (Utf8.DecodeRune (c :: t)) as [r n] eqn:Hd.
    pose proof Hw as Hw'. unfold wellFormedAt in Hw'. rewrite Hd in Hw'.
    apply negb_true_iff in Hw'. rewrite Hw'.
    destruct (EncodeRune_DecodeRune (c :: t) r n Hs Hd Hw) as [He [_ [Hn _]]].
    destruct ((r =? 8232) || (r =? 8233))%N eqn:Hsep; simpl.
    + split; [|auto]. rewrite <- He. apply chunk_separator.
      apply orb_prop in Hsep. destruct Hsep as [H|H]; apply N.eqb_eq in H; auto.
    + split; [|auto]. eapply chunk_rune; eauto.
Qed.

Lemma quote_from_chunk (s : bytes) :
  validUTF8 s -> chunk s (Json.quote_from 0 s).
Proof.
  unfold validUTF8.
  assert (H : forall m s, List.length s <= m ->
                          validFrom 0 s = true -> chunk s (Json.quote_from 0 s)).
  { induction m as [|m IH]; intros [|c t] Hlen Hv;
      try apply chunk_nil; simpl in Hlen; try lia.
    cbn [validFrom] in Hv. apply andb_prop in Hv. destruct Hv as [Hw Hv].
    destruct (quote_step_chunk (c :: t)) as [Hc [Hn H1]];
      [discriminate|exact Hw|].
    cbn [Json.quote_from].
    destruct (Json.quote_step (c :: t)) as [out n] eqn:Hq.
    cbn [fst snd] in Hc, Hn, H1. rewrite <- Hn in Hv.
    rewrite quote_from_skip. rewrite validFrom_skip in Hv.
    assert (Hsplit : c :: t = firstn n (c :: t) ++ skipn (n - 1) t).
    { destruct n as [|n]; [lia|]. simpl. rewrite Nat.sub_0_r.
      rewrite firstn_skipn. reflexivity. }
    rewrite Hsplit at 1. apply chunk_app; [exact Hc|].
    apply IH; [|exact Hv].
    rewrite length_skipn. lia. }
  apply (H (List.length s)). lia.
Qed.

Lemma emit_nil (r : option (list Json.token)) : Json.emit [] r = r.
Proof. destruct r; reflexivity. Qed.

Lemma emit_emit (a b : list Json.token) (r : option (list Json.token)) :
  Json.emit a (Json.emit b r) = Json.emit (a ++ b) r.
Proof. destruct r; simpl; [rewrite app_assoc|]; reflexivity. Qed.

(** The scanner reads the literal [quote s] as one string token. *)
Lemma lex_quote (s rest : bytes) :
  validUTF8 s ->
  Json.lex Json.LIdle (Json.quote s ++ rest)
  = Json.emit [Json.TStr (Json.quote_from 0 s)] (Json.lex Json.LIdle rest).
Proof.
  intros Hv. destruct (quote_from_chunk s Hv) as [HL _].
  unfold Json.quote. cbn [List.app Json.lex].
  change (Json.start dquote) with (Some (@nil Json.token, Json.LStr [])).
  cbv iota. rewrite emit_nil, <- app_assoc, HL.
  cbn [List.app Json.lex]. change (Ascii.eqb dquote dquote) with true. cbv iota.
  rewrite app_nil_r, rev_involutive. reflexivity.
Qed.

(** Unquoting gives the string back. *)
Lemma unquote_quote (s : bytes) :
  validUTF8 s -> Json.unquote (Json.quote_from 0 s) = s.
Proof.
  intros Hv. destruct (quote_from_chunk s Hv) as [_ HU].
  unfold Json.unquote. specialize (HU []).
  rewrite app_nil_r in HU. rewrite HU. apply app_nil_r.
Qed.

(** ** Numbers: scanning and parsing what [FormatInt] wrote *)

Lemma digit_char_spec (d : N) :
  (d < 10)%N ->
  Strconv.is_digit (Strconv.digit_char d) = true
  /\ (code (Strconv.digit_char d) - 48)%N = d
  /\ (d <> 0%N -> Strconv.digit_char d <> "0"%char).
Proof.
  intros H.
  assert (Hc : code (Strconv.digit_char d) = (48 + d)%N).
  { unfold Strconv.digit_char, code, byte_of. apply N_ascii_embedding. lia. }
  split; [|split].
  - apply in_range_spec. lia.
  - lia.
  - intros Hd Heq. rewrite Heq in Hc.
    change (code "0") with 48%N in Hc. lia.
Qed.

(** The digits [to_digits] writes, read back by [parse_digits]. *)
Lemma parse_to_digits (fuel : nat) (n : N) (acc : bytes) :
  (n < 10 ^ N.of_nat fuel)%N ->
  exists k : N, forall a : N,
    Strconv.parse_digits (Strconv.to_digits fuel n acc) a
    = Strconv.parse_digits acc (a * 10 ^ k + n)%N.
Proof.
  revert n acc. induction fuel as [|fuel IH]; intros n acc Hn.
  - exists 0%N. intros a. simpl in *.
    replace n with 0%N by lia. f_equal. lia.
  - cbn [Strconv.to_digits]. destruct (n <? 10)%N eqn:E.
    + apply N.ltb_lt in E. exists 1%N. intros a.
      rewrite N.mod_small by exact E.
      destruct (digit_char_spec n E) as [Hd [Hv _]].
      cbn [Strconv.parse_digits]. rewrite Hd, Hv. f_equal.
    + apply N.ltb_ge in E.
      assert (Hq : (n / 10 < 10 ^ N.of_nat fuel)%N).
      { apply N.Div0.div_lt_upper_bound.
        rewrite Nat2N.inj_succ, N.pow_succ_r' in Hn. exact Hn. }
      destruct (IH (n / 10)%N (Strconv.digit_char (n mod 10) :: acc) Hq) as [k Hk].
      exists (k + 1)%N. intros a. rewrite Hk.
      assert (Hm : (n mod 10 < 10)%N) by (apply N.mod_lt; lia).
      destruct (digit_char_spec (n mod 10) Hm) as [Hd [Hv _]].
      cbn [Strconv.parse_digits]. rewrite Hd, Hv. f_equal.
      rewrite N.pow_add_r, N.pow_1_r.
      pose proof (N.div_mod n 10 ltac:(lia)) as Hdm. lia.
Qed.

(** The digits [to_digits] writes: at least one, the first not a zero
    unless the number is zero. *)
Lemma to_digits_shape (fuel : nat) (n : N) (acc : bytes) :
  (n < 10 ^ N.of_nat fuel)%N -> (0 < n)%N ->
  exists (c : ascii) (ds : bytes),
    Strconv.to_digits fuel n acc = c :: ds ++ acc
    /\ Strconv.is_digit c = true /\ c <> "0"%char
    /\ Forall (fun d => Strconv.is_digit d = true) ds.
Proof.
  revert n acc. induction fuel as [|fuel IH]; intros n acc Hn Hpos.
  - simpl in Hn. lia.
  - cbn [Strconv.to_digits]. destruct (n <? 10)%N eqn:E.
    + apply N.ltb_lt in E. rewrite N.mod_small by exact E.
      destruct (digit_char_spec n E) as [Hd [_ Hz]].
      exists (Strconv.digit_char n), []. repeat split; auto.
      apply Hz. lia.
    + apply N.ltb_ge in E.
      assert (Hq : (n / 10 < 10 ^ N.of_nat fuel)%N).
      { apply N.Div0.div_lt_upper_bound.
        rewrite Nat2N.inj_succ, N.pow_succ_r' in Hn. exact Hn. }
      assert (Hq0 : (0 < n / 10)%N).
      { apply N.div_str_pos. lia. }
      destruct (IH (n / 10)%N (Strconv.digit_char (n mod 10) :: acc) Hq Hq0)
        as [c [ds [Heq [Hc [Hz Hds]]]]].
      exists c, (ds ++ [Strconv.digit_char (n mod 10)]).
      rewrite Heq, <- app_assoc. repeat split; auto.
      apply Forall_app. split; [exact Hds|]. constructor; [|constructor].
      apply digit_char_spec. apply N.mod_lt. lia.
Qed.

Lemma int64_digits (z : Z) :
  int64 z -> (Z.to_N (Z.abs z) < 10 ^ N.of_nat 20)%N.
Proof.
  unfold int64, Strconv.min_int64, Strconv.max_int64. intros H.
  change (10 ^ N.of_nat 20)%N with 100000000000000000000%N. lia.
Qed.

Lemma ParseInt_FormatInt (z : Z) :
  int64 z -> Strconv.ParseInt (Strconv.FormatInt z) = Some z.
Proof.
  intros Hz. pose proof (int64_digits z Hz) as Hn.
  unfold Strconv.FormatInt. destruct (z <? 0)%Z eqn:E.
  - apply Z.ltb_lt in E.
    replace (Z.abs z) with (- z)%Z in Hn by lia.
    destruct (parse_to_digits 20 (Z.to_N (- z)) [] Hn) as [k Hk].
    destruct (to_digits_shape 20 (Z.to_N (- z)) [] Hn ltac:(lia))
      as [c [ds [Heq _]]].
    unfold Strconv.ParseInt. cbn [Ascii.eqb Bool.eqb].
    change (Ascii.eqb "-" "-") with true. cbv iota.
    rewrite Hk. rewrite Heq. cbn [Strconv.parse_digits].
    replace (Z.of_N (0 * 10 ^ k + Z.to_N (- z)))%Z with (- z)%Z by lia.
    rewrite Z.opp_involutive.
    unfold int64 in Hz.
    replace ((Strconv.min_int64 <=? z)%Z && (z <=? Strconv.max_int64)%Z) with true;
      [reflexivity|].
    symmetry. apply andb_true_iff. split; apply Z.leb_le; lia.
  - apply Z.ltb_ge in E.
    replace (Z.abs z) with z in Hn by lia.
    destruct (parse_to_digits 20 (Z.to_N z) [] Hn) as [k Hk].
    assert (Hhead : exists c ds,
               Strconv.to_digits 20 (Z.to_N z) [] = c :: ds
               /\ Strconv.is_digit c = true).
    { destruct (Z.eq_dec z 0) as [->|Hne].
      - exists "0"%char, []. split; reflexivity.
      - destruct (to_digits_shape 20 (Z.to_N z) [] Hn ltac:(lia))
          as [c [ds [Heq [Hc _]]]].
        exists c, (ds ++ []). split; assumption. }
    destruct Hhead as [c [ds [Heq Hc]]].
    unfold Strconv.ParseInt. rewrite Heq.
    assert (Hm : Ascii.eqb c "-" = false).
    { destruct (Ascii.eqb c "-") eqn:X; [|reflexivity].
      apply Ascii.eqb_eq in X. subst c. discriminate Hc. }
    assert (Hp : Ascii.eqb c "+" = false).
    { destruct (Ascii.eqb c "+") eqn:X; [|reflexivity].
      apply Ascii.eqb_eq in X. subst c. discriminate Hc. }
    rewrite Hm, Hp. cbv beta iota zeta. rewrite <- Heq, Hk.
    cbn [Strconv.parse_digits].
    replace (Z.of_N (0 * 10 ^ k + Z.to_N z))%Z with z by lia.
    unfold int64 in Hz.
    replace ((Strconv.min_int64 <=? z)%Z && (z <=? Strconv.max_int64)%Z) with true;
      [reflexivity|].
    symmetry. apply andb_true_iff. split; apply Z.leb_le; lia.
Qed.

Lemma start_digit (c : ascii) :
  Strconv.is_digit c = true -> c <> "0"%char ->
  Json.start c = Some ([], Json.LNum [c] Json.N1)
  /\ Json.num_step Json.NNeg c = Some Json.N1.
Proof.
  destruct c as [[|] [|] [|] [|] [|] [|] [|] [|]];
    intros H Hz; try discriminate H; try (exfalso; apply Hz; reflexivity);
    split; reflexivity.
Qed.

Lemma digit_goes_on (c : ascii) :
  Strconv.is_digit c = true -> Json.num_step Json.N1 c = Some Json.N1.
Proof. intros H. unfold Json.num_step. rewrite H. reflexivity. Qed.

Lemma lex_digits (ds lacc rest : bytes) :
  Forall (fun d => Strconv.is_digit d = true) ds ->
  Json.lex (Json.LNum lacc Json.N1) (ds ++ ","%char :: rest)
  = Json.emit [Json.TNum (rev lacc ++ ds); Json.TComma] (Json.lex Json.LIdle rest).
Proof.
  intros H. revert lacc. induction H as [|d ds Hd _ IH]; intros lacc.
  - rewrite app_nil_r. reflexivity.
  - cbn [List.app Json.lex]. rewrite (digit_goes_on d Hd), IH.
    simpl. rewrite <- app_assoc. reflexivity.
Qed.

(** The scanner reads what [FormatInt] wrote, up to the comma after it,
    as one number token. *)
Lemma lex_number (z : Z) (rest : bytes) :
  int64 z ->
  Json.lex Json.LIdle (Strconv.FormatInt z ++ ","%char :: rest)
  = Json.emit [Json.TNum (Strconv.FormatInt z); Json.TComma]
              (Json.lex Json.LIdle rest).
Proof.
  intros Hz. pose proof (int64_digits z Hz) as Hn.
  unfold Strconv.FormatInt. destruct (z <? 0)%Z eqn:E.
  - apply Z.ltb_lt in E.
    replace (Z.abs z) with (- z)%Z in Hn by lia.
    destruct (to_digits_shape 20 (Z.to_N (- z)) [] Hn ltac:(lia))
      as [c [ds [Heq [Hc [Hnz Hds]]]]].
    rewrite Heq, app_nil_r.
    destruct (start_digit c Hc Hnz) as [_ Hstep].
    cbn [List.app Json.lex].
    change (Json.start "-") with (Some (@nil Json.token, Json.LNum ["-"%char] Json.NNeg)).
    cbv iota. rewrite Hstep, emit_nil, lex_digits by exact Hds. reflexivity.
  - apply Z.ltb_ge in E.
    replace (Z.abs z) with z in Hn by lia.
    destruct (Z.eq_dec z 0) as [->|Hne].
    { change (Strconv.to_digits 20 (Z.to_N 0) []) with ["0"%char].
      cbn [List.app Json.lex].
      change (Json.start "0")
        with (Some (@nil Json.token, Json.LNum ["0"%char] Json.N0)).
      cbv iota. rewrite emit_nil. reflexivity. }
    destruct (to_digits_shape 20 (Z.to_N z) [] Hn ltac:(lia))
      as [c [ds [Heq [Hc [Hnz Hds]]]]].
    rewrite Heq, app_nil_r.
    destruct (start_digit c Hc Hnz) as [Hstart _].
    cbn [List.app Json.lex]. rewrite Hstart, emit_nil, lex_digits by exact Hds.
    reflexivity.
Qed.

(** ** The file [savePosts] writes, read back *)

Lemma lex_blank (c : ascii) (rest : bytes) :
  Json.is_space c = true ->
  Json.lex Json.LIdle (c :: rest) = Json.lex Json.LIdle rest.
Proof.
  intros H. cbn [Json.lex]. unfold Json.start. rewrite H. apply emit_nil.
Qed.

Lemma lex_punct (c : ascii) (tok : Json.token) (rest : bytes) :
  Json.start c = Some ([tok], Json.LIdle) ->
  Json.lex Json.LIdle (c :: rest) = Json.emit [tok] (Json.lex Json.LIdle rest).
Proof. intros H. cbn [Json.lex]. rewrite H. reflexivity. Qed.

Lemma lex_string_member (key s rest : bytes) :
  validUTF8 key -> validUTF8 s ->
  Json.lex Json.LIdle (Json.indent_member (key, Json.quote s) ++ rest)
  = Json.emit (string_member key s) (Json.lex Json.LIdle rest).
Proof.
  intros Hk Hs. unfold Json.indent_member. cbn [fst snd].
  rewrite <- !app_assoc. cbn [B list_ascii_of_string List.app].
  rewrite !lex_blank by reflexivity.
  rewrite lex_quote by exact Hk.
  rewrite (lex_punct ":" Json.TColon) by reflexivity.
  rewrite lex_blank by reflexivity.
  rewrite lex_quote by exact Hs.
  rewrite !emit_emit. reflexivity.
Qed.

Lemma lex_number_member (key : bytes) (z : Z) (rest : bytes) :
  validUTF8 key -> int64 z ->
  Json.lex Json.LIdle
    (Json.indent_member (key, Strconv.FormatInt z) ++ ","%char :: rest)
  = Json.emit [Json.TStr (Json.quote_from 0 key); Json.TColon;
               Json.TNum (Strconv.FormatInt z); Json.TComma]
              (Json.lex Json.LIdle rest).
Proof.
  intros Hk Hz. unfold Json.indent_member. cbn [fst snd].
  rewrite <- !app_assoc. cbn [B list_ascii_of_string List.app].
  rewrite !lex_blank by reflexivity.
  rewrite lex_quote by exact Hk.
  rewrite (lex_punct ":" Json.TColon) by reflexivity.
  rewrite lex_blank by reflexivity.
  rewrite lex_number by exact Hz.
  rewrite !emit_emit. reflexivity.
Qed.

Lemma lex_comma_newline (rest : bytes) :
  Json.lex Json.LIdle (B "," ++ [newline] ++ rest)
  = Json.emit [Json.TComma] (Json.lex Json.LIdle rest).
Proof.
  change (B "," ++ [newline] ++ rest) with (","%char :: newline :: rest).
  rewrite (lex_punct "," Json.TComma) by reflexivity.
  rewrite lex_blank by reflexivity. reflexivity.
Qed.

Lemma lex_indent_post (post : Post) (rest : bytes) :
  validPost post ->
  Json.lex Json.LIdle (Json.indent_post post ++ rest)
  = Json.emit (post_tokens post) (Json.lex Json.LIdle rest).
Proof.
  intros [Ht [Hc [Hcr [Ha [Hv Hl]]]]].
  unfold Json.indent_post, Json.members.
  cbn [map Json.join].
  rewrite <- !app_assoc.
  change (B "  {" ++ [newline] ++ ?X) with (" "%char :: " "%char :: "{"%char :: newline :: X).
  rewrite !lex_blank by reflexivity.
  rewrite (lex_punct "{" Json.TLBrace) by reflexivity.
  rewrite lex_blank by reflexivity.
  rewrite lex_string_member by (try reflexivity; assumption).
  rewrite lex_comma_newline.
  rewrite lex_string_member by (try reflexivity; assumption).
  rewrite lex_comma_newline.
  rewrite lex_string_member by (try reflexivity; assumption).
  rewrite lex_comma_newline.
  rewrite lex_string_member by (try reflexivity; assumption).
  rewrite lex_comma_newline.
  change (B "," ++ [newline] ++ ?X) with (","%char :: newline :: X).
  rewrite lex_number_member by (try reflexivity; assumption).
  rewrite lex_blank by reflexivity.
  rewrite lex_string_member by (try reflexivity; assumption).
  change ([newline] ++ B "  }" ++ rest)
    with (newline :: " "%char :: " "%char :: "}"%char :: rest).
  rewrite !lex_blank by reflexivity.
  rewrite (lex_punct "}" Json.TRBrace) by reflexivity.
  rewrite !emit_emit. reflexivity.
Qed.

Lemma join_cons (sep x y : bytes) (t : list bytes) :
  Json.join sep (x :: y :: t) = x ++ sep ++ Json.join sep (y :: t).
Proof. reflexivity. Qed.

Lemma lex_posts (l : list Post) (post : Post) (rest : bytes) :
  Forall validPost (post :: l) ->
  Json.lex Json.LIdle
    (Json.join (B "," ++ [newline]) (map Json.indent_post (post :: l)) ++ rest)
  = Json.emit (post_tokens post ++ more_tokens l) (Json.lex Json.LIdle rest).
Proof.
  revert post. induction l as [|q l IH]; intros post H.
  - inversion H as [|? ? Hp _]; subst.
    cbn [map Json.join]. rewrite lex_indent_post by exact Hp.
    unfold more_tokens. cbn [map List.concat]. rewrite app_nil_r. reflexivity.
  - inversion H as [|? ? Hp Hl]; subst.
    rewrite !map_cons, join_cons, <- !app_assoc.
    rewrite lex_indent_post by exact Hp.
    rewrite lex_comma_newline.
    rewrite <- map_cons, IH by exact Hl.
    rewrite !emit_emit. unfold more_tokens. cbn [map List.concat].
    rewrite <- !app_assoc. reflexivity.
Qed.

Arguments Json.unquote : simpl never.
Arguments Json.quote_from : simpl never.
Arguments Strconv.FormatInt : simpl never.

Lemma prun_post (post : Post) (acc : list Json.value) (rest : list Json.token)
      (ps : Json.pstate) :
  validPost post ->
  ps = Json.PValue \/ ps = Json.PValueOrEnd ->
  Json.prun ps [Json.FArr acc] (post_tokens post ++ rest)
  = Json.prun Json.PEnd [Json.FArr (post_value post :: acc)] rest.
Proof.
  intros _ Hps.
  unfold post_tokens, string_member, post_value, string_value.
  destruct Hps as [-> | ->]; reflexivity.
Qed.

Lemma prun_more (l : list Post) (acc : list Json.value) :
  Forall validPost l ->
  Json.prun Json.PEnd [Json.FArr acc] (more_tokens l ++ [Json.TRBrack])
  = Some (Json.JArr (rev acc ++ map post_value l)).
Proof.
  intros H. revert acc. induction H as [|q l Hq _ IH]; intros acc.
  - cbn. rewrite app_nil_r. reflexivity.
  - unfold more_tokens. cbn [map List.concat]. fold (more_tokens l).
    rewrite <- !app_comm_cons, <- app_assoc.
    cbn [Json.prun Json.pstep].
    rewrite prun_post by (auto; exact Hq).
    rewrite IH. cbn [map rev]. rewrite <- app_assoc. reflexivity.
Qed.

Lemma decode_post_value (post : Post) :
  validPost post -> Json.decode_post (post_value post) zeroPost = (post, false).
Proof.
  intros [Ht [Hc [Hcr [Ha [Hv Hl]]]]].
  unfold post_value, string_value, Json.decode_post. cbn [fold_left].
  unfold Json.store_member. cbn [fst snd].
  change (Json.lookup_field (Json.unquote (Json.quote_from 0 (B "Title"))))
    with (Some Json.FTitle).
  change (Json.lookup_field (Json.unquote (Json.quote_from 0 (B "Content"))))
    with (Some Json.FContent).
  change (Json.lookup_field (Json.unquote (Json.quote_from 0 (B "CreatedAt"))))
    with (Some Json.FCreatedAt).
  change (Json.lookup_field (Json.unquote (Json.quote_from 0 (B "Author"))))
    with (Some Json.FAuthor).
  change (Json.lookup_field (Json.unquote (Json.quote_from 0 (B "ViewCount"))))
    with (Some Json.FViewCount).
  change (Json.lookup_field (Json.unquote (Json.quote_from 0 (B "LastViewed"))))
    with (Some Json.FLastViewed).
  cbn [Json.store_field Json.store_string Json.store_int
       Title Content CreatedAt Author ViewCount LastViewed zeroPost orb].
  rewrite (ParseInt_FormatInt (ViewCount post) Hv).
  rewrite (unquote_quote _ Ht), (unquote_quote _ Hc), (unquote_quote _ Hcr),
          (unquote_quote _ Ha), (unquote_quote _ Hl).
  destruct post; reflexivity.
Qed.

Lemma parse_saved (post : Post) (l : list Post) :
  Forall validPost (post :: l) ->
  Json.parse (Json.MarshalIndent (Some (post :: l)))
  = Some (Json.JArr (map post_value (post :: l))).
Proof.
  intros H. unfold Json.parse, Json.MarshalIndent.
  change (B "[" ++ [newline] ++ ?X) with ("["%char :: newline :: X).
  rewrite (lex_punct "[" Json.TLBrack) by reflexivity.
  rewrite lex_blank by reflexivity.
  rewrite lex_posts by exact H.
  change (Json.lex Json.LIdle ([newline] ++ B "]")) with (Some [Json.TRBrack]).
  cbn [Json.emit option_map List.app].
  cbn [Json.prun Json.pstep Json.begin_value].
  change (Json.open_frame (Json.FArr []) Json.PValueOrEnd [])
    with (Some (Json.PValueOrEnd, [Json.FArr []])).
  cbv iota.
  inversion H as [|? ? Hp Hl]; subst.
  rewrite <- !app_assoc.
  rewrite prun_post by (auto; exact Hp).
  rewrite prun_more by exact Hl. reflexivity.
Qed.

(** Loading what [savePosts] wrote for a non-nil Collection of
    well-formed records gives the Collection back, field for field, and
    [json.Unmarshal] reports no error. *)
Theorem load_after_save (l : list Post) :
  Forall validPost l ->
  Json.UnmarshalPosts (Json.MarshalIndent (Some l))
  = (Json.Ref (Some l), None).
Proof.
  intros H. destruct l as [|post l]; [reflexivity|].
  unfold Json.UnmarshalPosts. rewrite (parse_saved post l H).
  assert (Hd : map (fun v => Json.decode_post v zeroPost) (map post_value (post :: l))
               = map (fun p => (p, false)) (post :: l)).
  { rewrite map_map. apply map_ext_in. intros p Hin.
    apply decode_post_value. rewrite Forall_forall in H. apply H. exact Hin. }
  rewrite Hd, map_map. cbn [fst]. rewrite map_id.
  replace (existsb snd (map (fun p : Post => (p, false)) (post :: l))) with false.
  - reflexivity.
  - symmetry. generalize (post :: l). intros l'. induction l'; simpl; auto.
Qed.

(** ** What [unquote] gives is valid UTF-8 *)

Ltac Zify.zify_post_hook ::= Z.to_euclidean_division_equations.

Lemma code_byte_of (n : N) : (n < 256)%N -> code (byte_of n) = n.
Proof. apply N_ascii_embedding. Qed.

Lemma wellFormed_size (r : N) (n : nat) :
  n <> 1 -> negb ((r =? Utf8.RuneError)%N && Nat.eqb n 1) = true.
Proof.
  intros H. apply negb_true_iff, andb_false_iff. right.
  apply Nat.eqb_neq. exact H.
Qed.

Lemma EncodeRune_runeChunk (x : N) : runeChunk (Utf8.EncodeRune x).
Proof.
  unfold Utf8.EncodeRune.
  destruct (x <? 128)%N eqn:E1.
  { apply N.ltb_lt in E1. split; [discriminate|]. intros X.
    unfold wellFormedAt, Utf8.DecodeRune. cbn [List.app].
    rewrite code_byte_of by lia.
    replace (x <? 128)%N with true by (symmetry; apply N.ltb_lt; exact E1).
    cbn [snd List.length]. split; [|reflexivity].
    apply negb_true_iff, andb_false_iff. left.
    apply N.eqb_neq. unfold Utf8.RuneError. lia. }
  apply N.ltb_ge in E1.
  destruct (x <? 2048)%N eqn:E2.
  { apply N.ltb_lt in E2. split; [discriminate|]. intros X.
    unfold wellFormedAt, Utf8.DecodeRune. cbn [List.app].
    rewrite code_byte_of by lia.
    replace (192 + x / 64 <? 128)%N with false by (symmetry; apply N.ltb_ge; lia).
    replace (Utf8.in_range 194 223 (byte_of (192 + x / 64))) with true
      by (symmetry; apply in_range_spec; rewrite code_byte_of; lia).
    replace (Utf8.cont (byte_of (128 + x mod 64))) with true
      by (symmetry; apply in_range_spec; rewrite code_byte_of; lia).
    cbn [snd List.length]. split; [|reflexivity].
    apply wellFormed_size. discriminate. }
  apply N.ltb_ge in E2.
  destruct (Utf8.surrogate x || (Utf8.MaxRune <? x)%N) eqn:E3.
  { split; [discriminate|]. intros X. split; reflexivity. }
  apply orb_false_iff in E3. destruct E3 as [Hs Hm].
  apply N.ltb_ge in Hm. unfold Utf8.MaxRune in Hm.
  unfold Utf8.surrogate in Hs. apply andb_false_iff in Hs.
  assert (Hs' : (x < 55296 \/ 57343 < x)%N).
  { destruct Hs as [Hs|Hs]; apply N.leb_gt in Hs; lia. }
  clear Hs.
  destruct (x <? 65536)%N eqn:E4.
  { apply N.ltb_lt in E4. split; [discriminate|]. intros X.
    unfold wellFormedAt, Utf8.DecodeRune. cbn [List.app].
    rewrite code_byte_of by lia.
    replace (224 + x / 4096 <? 128)%N with false by (symmetry; apply N.ltb_ge; lia).
    replace (Utf8.in_range 194 223 (byte_of (224 + x / 4096))) with false
      by (symmetry; apply not_true_is_false; rewrite in_range_spec;
          rewrite code_byte_of; lia).
    replace (Utf8.in_range 224 239 (byte_of (224 + x / 4096))) with true
      by (symmetry; apply in_range_spec; rewrite code_byte_of; lia).
    assert (Hdd : ((x / 64) / 64 = x / 4096)%N) by (rewrite N.Div0.div_div; reflexivity).
    replace (Utf8.in_range (if (224 + x / 4096 =? 224)%N then 160%N else 128%N)
                           (if (224 + x / 4096 =? 237)%N then 159%N else 191%N)
                           (byte_of (128 + (x / 64) mod 64))) with true.
    2:{ symmetry. apply in_range_spec. rewrite code_byte_of by lia.
        destruct (N.eqb_spec (224 + x / 4096) 224),
                 (N.eqb_spec (224 + x / 4096) 237); lia. }
    replace (Utf8.cont (byte_of (128 + x mod 64))) with true
      by (symmetry; apply in_range_spec; rewrite code_byte_of; lia).
    cbn [andb snd List.length]. split; [|reflexivity].
    apply wellFormed_size. discriminate. }
  apply N.ltb_ge in E4. split; [discriminate|]. intros X.
  unfold wellFormedAt, Utf8.DecodeRune. cbn [List.app].
  rewrite code_byte_of by lia.
  replace (240 + x / 262144 <? 128)%N with false by (symmetry; apply N.ltb_ge; lia).
  replace (Utf8.in_range 194 223 (byte_of (240 + x / 262144))) with false
    by (symmetry; apply not_true_is_false; rewrite in_range_spec;
        rewrite code_byte_of; lia).
  replace (Utf8.in_range 224 239 (byte_of (240 + x / 262144))) with false
    by (symmetry; apply not_true_is_false; rewrite in_range_spec;
        rewrite code_byte_of; lia).
  replace (Utf8.in_range 240 244 (byte_of (240 + x / 262144))) with true
    by (symmetry; apply in_range_spec; rewrite code_byte_of; lia).
  assert (Hdd : ((x / 4096) / 64 = x / 262144)%N) by (rewrite N.Div0.div_div; reflexivity).
  replace (Utf8.in_range (if (240 + x / 262144 =? 240)%N then 144%N else 128%N)
                         (if (240 + x / 262144 =? 244)%N then 143%N else 191%N)
                         (byte_of (128 + (x / 4096) mod 64))) with true.
  2:{ symmetry. apply in_range_spec. rewrite code_byte_of by lia.
      destruct (N.eqb_spec (240 + x / 262144) 240),
               (N.eqb_spec (240 + x / 262144) 244); lia. }
  replace (Utf8.cont (byte_of (128 + (x / 64) mod 64))) with true
    by (symmetry; apply in_range_spec; rewrite code_byte_of; lia).
  replace (Utf8.cont (byte_of (128 + x mod 64))) with true
    by (symmetry; apply in_range_spec; rewrite code_byte_of; lia).
  cbn [andb snd List.length]. split; [|reflexivity].
  apply wellFormed_size. discriminate.
Qed.

Lemma runeChunk_valid (bs X : bytes) :
  runeChunk bs -> validFrom 0 (bs ++ X) = validFrom 0 X.
Proof.
  intros [Hne H]. destruct bs as [|b bs]; [contradiction|].
  destruct (H X) as [Hw Hn].
  cbn [List.app validFrom]. cbn [List.app] in Hw, Hn.
  rewrite Hw, Hn. cbn [List.length andb]. rewrite Nat.sub_succ, Nat.sub_0_r.
  rewrite validFrom_skip, skipn_app_exact by reflexivity. reflexivity.
Qed.

Lemma ascii_runeChunk (c : ascii) : (code c < 128)%N -> runeChunk [c].
Proof.
  intros H. split; [discriminate|]. intros X.
  unfold wellFormedAt, Utf8.DecodeRune. cbn [List.app].
  replace (code c <? 128)%N with true by (symmetry; apply N.ltb_lt; exact H).
  cbn [snd List.length]. split; [|reflexivity].
  apply negb_true_iff, andb_false_iff. left.
  apply N.eqb_neq. unfold Utf8.RuneError. lia.
Qed.

Lemma unescape_ascii (e : ascii) :
  Json.is_simple_escape e = true -> (code (Json.unescape e) < 128)%N.
Proof.
  destruct e as [[|] [|] [|] [|] [|] [|] [|] [|]];
    intros H; try discriminate H; reflexivity.
Qed.

Lemma DecodeRune_size (s : bytes) : s <> [] -> 1 <= snd (Utf8.DecodeRune s).
Proof.
  destruct s as [|b0 t]; [contradiction|]. intros _.
  unfold Utf8.DecodeRune.
  repeat match goal with
         | |- context [if ?b then _ else _] => destruct b
         | |- context [match ?l with [] => _ | _ :: _ => _ end] => destruct l
         end; cbn [snd]; lia.
Qed.

(** Each step of [unquote] gives no text or one well-formed sequence. *)
Lemma unquote_step_valid (s : bytes) :
  s <> [] ->
  (fst (Json.unquote_step s) = [] \/ runeChunk (fst (Json.unquote_step s)))
  /\ 1 <= snd (Json.unquote_step s).
Proof.
  destruct s as [|c t]; [contradiction|]. intros _.
  unfold Json.unquote_step.
  destruct (Ascii.eqb c backslash).
  - destruct t as [|e t']; [cbn; auto|].
    destruct (Ascii.eqb e "u").
    + destruct (Json.getu4 (c :: e :: t')) as [rr|]; [|cbn; auto].
      destruct (Utf8.surrogate rr).
      * destruct (Json.getu4 _) as [rr1|];
          [destruct (Json.utf16_pair rr rr1)|];
          cbn [fst snd]; (split; [right; apply EncodeRune_runeChunk|lia]).
      * cbn [fst snd]. split; [right; apply EncodeRune_runeChunk|lia].
    + destruct (Json.is_simple_escape e) eqn:E; cbn [fst snd].
      * split; [right; apply ascii_runeChunk, unescape_ascii; exact E|lia].
      * split; [left; reflexivity|lia].
  - destruct (code c <? 128)%N eqn:E; cbn [fst snd].
    + apply N.ltb_lt in E. split; [right; apply ascii_runeChunk; exact E|lia].
    + pose proof (DecodeRune_size (c :: t) ltac:(discriminate)) as Hn.
      destruct (Utf8.DecodeRune (c :: t)) as [rr size]. cbn [fst snd] in *.
      split; [right; apply EncodeRune_runeChunk|exact Hn].
Qed.

(** Whatever the literal, the string [unquote] gives is valid UTF-8. *)
Lemma unquote_valid (raw : bytes) : validUTF8 (Json.unquote raw).
Proof.
  unfold validUTF8, Json.unquote.
  assert (H : forall m s, List.length s <= m ->
                          validFrom 0 (Json.unquote_from 0 s) = true).
  { induction m as [|m IH]; intros [|c t] Hlen; try reflexivity;
      simpl in Hlen; try lia.
    cbn [Json.unquote_from].
    destruct (unquote_step_valid (c :: t) ltac:(discriminate)) as [Hout Hn].
    destruct (Json.unquote_step (c :: t)) as [out n]. cbn [fst snd] in *.
    rewrite unquote_from_skip.
    assert (Hrest : validFrom 0 (Json.unquote_from 0 (skipn (n - 1) t)) = true).
    { apply IH. rewrite length_skipn. lia. }
    destruct Hout as [-> | Hc]; [exact Hrest|].
    rewrite runeChunk_valid by exact Hc. exact Hrest. }
  apply (H (List.length raw)). lia.
Qed.

(** ** Records within the class that round-trips *)

Lemma wrap64_int64 (z : Z) : int64 (wrap64 z).
Proof.
  unfold int64, wrap64, Strconv.min_int64, Strconv.max_int64.
  pose proof (Z.mod_pos_bound (z + 2 ^ 63) (2 ^ 64) ltac:(lia)). lia.
Qed.

Lemma zeroPost_valid : validPost zeroPost.
Proof.
  unfold validPost.
  repeat match goal with |- _ /\ _ => split end;
    try reflexivity. apply zeroPost_int64.
Qed.

Lemma store_string_valid (v : Json.value) (old : bytes) :
  validUTF8 old -> validUTF8 (fst (Json.store_string v old)).
Proof. intros H. destruct v; simpl; try exact H. apply unquote_valid. Qed.

Lemma store_field_valid (f : Json.field) (v : Json.value) (post : Post) :
  validPost post -> validPost (fst (Json.store_field f v post)).
Proof.
  intros H. pose proof (store_field_int64 f v post) as Hint.
  destruct H as [Ht [Hc [Hcr [Ha [Hv Hl]]]]]. specialize (Hint Hv).
  pose proof (store_string_valid v (Title post) Ht) as St.
  pose proof (store_string_valid v (Content post) Hc) as Sc.
  pose proof (store_string_valid v (CreatedAt post) Hcr) as Scr.
  pose proof (store_string_valid v (Author post) Ha) as Sa.
  pose proof (store_string_valid v (LastViewed post) Hl) as Sl.
  unfold validPost.
  destruct f; cbn [Json.store_field] in *;
    repeat match goal with
           | |- context [let '(_, _) := ?x in _] => destruct x
           end;
    cbn [fst Title Content CreatedAt Author ViewCount LastViewed] in *;
    repeat match goal with |- _ /\ _ => split end; assumption.
Qed.

Lemma decode_post_valid (v : Json.value) (post : Post) :
  validPost post -> validPost (fst (Json.decode_post v post)).
Proof.
  intros H. destruct v; simpl; try exact H.
  change post with (fst (post, false)) in H.
  revert H. generalize (post, false). induction m as [|kv m IH]; intros acc H.
  - exact H.
  - simpl. apply IH. destruct acc as [p e]. unfold Json.store_member.
    destruct (Json.lookup_field (Json.unquote (fst kv))) as [f|]; [|exact H].
    pose proof (store_field_valid f (snd kv) p H) as H'.
    destruct (Json.store_field f (snd kv) p). exact H'.
Qed.

(** X4.  Every record [loadPost] decodes is well formed: its text is
    valid UTF-8 and its count fits an [int]. *)
Theorem UnmarshalPosts_valid (data : bytes) (posts : slice Post) :
  fst (Json.UnmarshalPosts data) = Json.Ref posts ->
  Forall validPost (elems posts).
Proof.
  unfold Json.UnmarshalPosts.
  destruct (Json.parse data) as [v|]; simpl.
  - destruct v; simpl; intros [= <-]; simpl; try constructor.
    rewrite map_map. apply Forall_forall. intros post Hin.
    apply in_map_iff in Hin. destruct Hin as [v [<- _]].
    apply decode_post_valid, zeroPost_valid.
  - intros [= <-]. constructor.
Qed.

Lemma UnmarshalPosts_valid_witness :
  Forall validPost
         (elems (Some [mkPost (B "A") [] [] [] 0 []; zeroPost])).
Proof.
  apply (UnmarshalPosts_valid
           (B "[" ++ illTypedPayload ++ B ", 1]")
           (Some [mkPost (B "A") [] [] [] 0 []; zeroPost])).
  vm_compute. reflexivity.
Defined.

Lemma UnmarshalPost_valid (data : bytes) (post : Post) :
  validPost post -> validPost (fst (Json.UnmarshalPost data post)).
Proof.
  intros H. unfold Json.UnmarshalPost.
  destruct (Json.parse data) as [v|]; [|exact H].
  pose proof (decode_post_valid v post H) as H'.
  destruct (Json.decode_post v post). exact H'.
Qed.

Lemma viewed_valid (d : bytes) (post : Post) :
  validUTF8 d -> validPost post -> validPost (viewed d post).
Proof.
  intros Hd [Ht [Hc [Hcr [Ha [_ _]]]]]. unfold viewed, validPost.
  cbn [Title Content CreatedAt Author ViewCount LastViewed].
  repeat match goal with |- _ /\ _ => split end;
    try assumption. apply wrap64_int64.
Qed.

Lemma viewedFrom_valid (ck : nat -> bytes) (l : list Post) (n : nat) :
  (forall i, validUTF8 (ck i)) -> Forall validPost l ->
  Forall validPost (viewedFrom ck n l).
Proof.
  intros Hck H. revert n. induction H as [|post l Hp _ IH]; intros n; simpl.
  - constructor.
  - constructor; [apply viewed_valid; auto|apply IH].
Qed.

Lemma candidate_valid (wd : World) (payload : bytes) :
  (forall i, validUTF8 (clock wd i)) -> validPost (candidate wd payload).
Proof.
  intros Hck.
  destruct (UnmarshalPost_valid payload zeroPost zeroPost_valid)
    as [Ht [Hc [_ [Ha _]]]].
  unfold candidate, validPost.
  cbn [Title Content CreatedAt Author ViewCount LastViewed].
  repeat match goal with |- _ /\ _ => split end;
    try assumption; try apply Hck.
  apply zeroPost_int64.
Qed.

(** * Properties of the handlers *)

(** ** How the pieces run *)

Lemma world_eta (wd : World) :
  mkWorld (file wd) (readable wd) (writable wd) (failsAfter wd) (clock wd)
          (ticks wd) (stdout wd) = wd.
Proof. destruct wd; reflexivity. Qed.

Lemma announce_run (l : list Post) (wd : World) (rw : ResponseWriter) :
  announce l (mkState wd rw) = (Returned tt, mkState (log (loading l) wd) rw).
Proof.
  revert wd. induction l as [|post t IH]; intros wd.
  - unfold log, loading. simpl. rewrite app_nil_r, world_eta. reflexivity.
  - simpl. unfold bind, print. simpl. rewrite IH.
    unfold log, loading. simpl. rewrite <- app_assoc. reflexivity.
Qed.

Lemma viewAll_run (l : list Post) (wd : World) (rw : ResponseWriter) :
  viewAll l (mkState wd rw)
  = (Returned (viewedFrom (clock wd) (ticks wd) l),
     mkState (tick (List.length l) wd) rw).
Proof.
  revert wd. induction l as [|post t IH]; intros wd.
  - unfold tick. simpl. rewrite world_eta. reflexivity.
  - simpl. unfold bind, setLastViewed, today, bind, ret. simpl.
    rewrite IH. unfold tick. simpl.
    rewrite Nat.add_succ_r. reflexivity.
Qed.

Lemma viewSlice_run (posts : slice Post) (wd : World) (rw : ResponseWriter) :
  viewSlice posts (mkState wd rw)
  = (Returned (viewedSlice (clock wd) (ticks wd) posts),
     mkState (tick (List.length (elems posts)) wd) rw).
Proof.
  destruct posts as [l|]; simpl.
  - unfold bind. rewrite viewAll_run. reflexivity.
  - unfold ret, tick. simpl. rewrite world_eta. reflexivity.
Qed.

Lemma httpError_fresh (msg : bytes) (code : Z) (wd : World) :
  httpError msg code (mkState wd newResponse)
  = (Returned tt, mkState wd (errorResponse msg code)).
Proof. reflexivity. Qed.

Lemma Write_run (data : bytes) (wd : World) (rw : ResponseWriter) :
  Write data (mkState wd rw) = (Returned tt, mkState wd (written data rw)).
Proof.
  unfold Write, WriteHeader, bind, on_resp, written.
  destruct rw as [h [c|] sh b]; reflexivity.
Qed.

Lemma loadPost_run (wd : World) :
  loadPost (mkState wd newResponse)
  = match decoded wd with
    | Json.NilPtr => (Panicked, mkState wd (afterRead wd))
    | Json.Ref posts =>
      (Returned posts, mkState (log (loading (elems posts)) wd) (afterRead wd))
    end.
Proof.
  unfold loadPost, decoded, afterRead, bind, ReadFile. simpl.
  destruct (read wd) as [data err]. simpl.
  destruct err.
  - rewrite httpError_fresh.
    destruct (fst (Json.UnmarshalPosts data)) as [|posts]; [reflexivity|].
    rewrite announce_run. reflexivity.
  - unfold ret.
    destruct (fst (Json.UnmarshalPosts data)) as [|posts]; [reflexivity|].
    rewrite announce_run. reflexivity.
Qed.

Lemma savePosts_run (posts : slice Post) (wd : World) (rw : ResponseWriter) :
  savePosts posts (mkState wd rw)
  = (Returned (negb (writable wd)),
     mkState (write_file (Json.MarshalIndent posts) wd) rw).
Proof.
  unfold savePosts, WriteFile, write_file. simpl.
  destruct (writable wd); [reflexivity|].
  destruct (failsAfter wd); reflexivity.
Qed.

Lemma index_run (r : Request) (wd : World) :
  handle index r wd
  = match decoded wd with
    | Json.NilPtr => (Panicked, mkState wd (afterRead wd))
    | Json.Ref posts => (Returned tt, indexed wd posts)
    end.
Proof.
  unfold handle, index. unfold bind at 1. rewrite loadPost_run.
  destruct (decoded wd) as [|posts]; [reflexivity|].
  unfold bind at 1. rewrite viewSlice_run.
  unfold bind at 1. rewrite savePosts_run.
  unfold bind, header_set, on_resp. simpl.
  rewrite Write_run. reflexivity.
Qed.

Lemma create_rejects (r : Request) (wd : World) :
  bytes_eqb (Method r) MethodPost = false ->
  handle create r wd
  = (Returned tt,
     mkState wd (errorResponse (B "Please submit a post request")
                               StatusMethodNotAllowed)).
Proof.
  intros Hm. unfold handle, create. rewrite Hm. simpl negb. cbv iota.
  apply httpError_fresh.
Qed.

Lemma create_run (r : Request) (wd : World) :
  bytes_eqb (Method r) MethodPost = true ->
  BodyErr r = false ->
  handle create r wd
  = match decoded wd with
    | Json.NilPtr => (Panicked, mkState (tick 2 wd) (afterRead wd))
    | Json.Ref posts => (Returned tt, created wd (Body r) posts)
    end.
Proof.
  intros Hm Hb. unfold handle, create, ReadAll. rewrite Hm, Hb. simpl negb. cbv iota.
  unfold bind at 1. unfold setCreatedAt, today, bind at 1, ret. simpl.
  unfold bind at 1. unfold setLastViewed, today, bind at 1, ret. simpl.
  unfold bind at 1.
  change (mkWorld (file wd) (readable wd) (writable wd) (failsAfter wd)
                  (clock wd) (S (S (ticks wd))) (stdout wd)) with (tick 2 wd).
  rewrite loadPost_run.
  change (decoded (tick 2 wd)) with (decoded wd).
  change (afterRead (tick 2 wd)) with (afterRead wd).
  destruct (decoded wd) as [|posts]; [reflexivity|].
  unfold bind at 1. rewrite savePosts_run.
  rewrite Write_run. reflexivity.
Qed.

(** ** The clock during one operation *)

Lemma viewedFrom_stable (ck : nat -> bytes) (d : bytes) (l : list Post) (n : nat) :
  (forall i, i < List.length l -> ck (i + n) = d) ->
  viewedFrom ck n l = map (viewed d) l.
Proof.
  revert n. induction l as [|post t IH]; intros n H; simpl.
  - reflexivity.
  - pose proof (H 0) as H0. simpl in H0. rewrite H0 by lia. f_equal.
    apply IH. intros i Hi. rewrite Nat.add_succ_r.
    apply (H (S i)). simpl. lia.
Qed.

Lemma viewedSlice_stable (wd : World) (d : bytes) (posts : slice Post) :
  stableClock wd (List.length (elems posts)) d ->
  viewedSlice (clock wd) (ticks wd) posts = option_map (map (viewed d)) posts.
Proof.
  intros H. destruct posts as [l|]; simpl; [|reflexivity].
  f_equal. apply viewedFrom_stable. exact H.
Qed.

Lemma decoded_of_file (wd : World) (data : bytes) :
  file wd = Some data -> readable wd = true ->
  read wd = (data, false).
Proof. unfold read. intros -> ->. reflexivity. Qed.

Lemma read_failed (wd : World) : snd (read wd) = true -> read wd = ([], true).
Proof.
  unfold read. destruct (file wd); [destruct (readable wd)|]; simpl;
    intros H; congruence.
Qed.

Lemma afterRead_ok (wd : World) (data : bytes) :
  read wd = (data, false) -> afterRead wd = newResponse.
Proof. unfold afterRead. intros ->. reflexivity. Qed.

Lemma decoded_ok (wd : World) (data : bytes) :
  read wd = (data, false) -> decoded wd = fst (Json.UnmarshalPosts data).
Proof. unfold decoded. intros ->. reflexivity. Qed.

Lemma viewed_count (d : bytes) (post : Post) :
  int64 (ViewCount post) ->
  (ViewCount post <> Strconv.max_int64 ->
   ViewCount (viewed d post) = (ViewCount post + 1)%Z)
  /\ (ViewCount post = Strconv.max_int64 ->
      ViewCount (viewed d post) = Strconv.min_int64).
Proof.
  intros H. simpl. split.
  - intros Hne. apply wrap64_succ; assumption.
  - intros ->. apply wrap64_max.
Qed.

(** ** Enumerate *)


Lemma viewedFrom_length (ck : nat -> bytes) (l : list Post) (n : nat) :
  List.length (viewedFrom ck n l) = List.length l.
Proof. revert n. induction l; intros n; simpl; [reflexivity|]. now rewrite IHl. Qed.

Lemma file_written (data : bytes) (wd : World) :
  writable wd = true -> file (write_file data wd) = Some data.
Proof. unfold write_file. intros ->. reflexivity. Qed.

Lemma viewedFrom_nth (ck : nat -> bytes) (l : list Post) (n i : nat) :
  nth_error (viewedFrom ck n l) i
  = option_map (viewed (ck (i + n))) (nth_error l i).
Proof.
  revert n i. induction l as [|post t IH]; intros n [|i]; try reflexivity.
  simpl. rewrite IH, Nat.add_succ_r. reflexivity.
Qed.

(** C1 (as amended).  For every stored Collection that [loadPost]
    returns, Enumerate replaces every record, in order, by the record
    with [lastViewed] set to the date the clock gives for it (one date,
    when the clock does not turn during the loop) and [viewCount]
    incremented in 64-bit arithmetic: by exactly 1 unless it is the
    largest [int], which wraps to the smallest.  The mutated Collection
    is saved to the file and is the response payload. *)
Theorem index_views_every_record
  (r : Request) (wd : World) (data : bytes) (posts : slice Post) :
  file wd = Some data -> readable wd = true -> writable wd = true ->
  fst (Json.UnmarshalPosts data) = Json.Ref posts ->
  exists (s' : State) (posts' : slice Post),
    handle index r wd = (Returned tt, s')
    /\ file (world s') = Some (Json.MarshalIndent posts')
    /\ status (resp s') = Some 200%Z
    /\ body (resp s') = Json.Encode posts'
    /\ List.length (elems posts') = List.length (elems posts)
    /\ (forall i post,
          nth_error (elems posts) i = Some post ->
          nth_error (elems posts') i
          = Some (viewed (clock wd (i + ticks wd)) post)
          /\ (ViewCount post <> Strconv.max_int64 ->
              ViewCount (viewed (clock wd (i + ticks wd)) post)
              = (ViewCount post + 1)%Z)
          /\ (ViewCount post = Strconv.max_int64 ->
              ViewCount (viewed (clock wd (i + ticks wd)) post)
              = Strconv.min_int64))
    /\ (forall d, stableClock wd (List.length (elems posts)) d ->
         posts' = option_map (map (viewed d)) posts).
Proof.
  intros Hf Hr Hw Hd.
  pose proof (decoded_of_file wd data Hf Hr) as Hread.
  rewrite index_run, (decoded_ok wd data Hread), Hd.
  exists (indexed wd posts), (viewedSlice (clock wd) (ticks wd) posts).
  split; [reflexivity|].
  unfold indexed. rewrite (afterRead_ok wd data Hread).
  split; [apply file_written; exact Hw|].
  split; [reflexivity|]. split; [reflexivity|].
  pose proof (UnmarshalPosts_int64 data posts Hd) as Hrange.
  split; [|split].
  - destruct posts as [l|]; [apply viewedFrom_length|reflexivity].
  - intros i post Hi.
    assert (Hp : int64 (ViewCount post)).
    { rewrite Forall_forall in Hrange. apply Hrange.
      eapply nth_error_In. exact Hi. }
    split; [|exact (viewed_count (clock wd (i + ticks wd)) post Hp)].
    destruct posts as [l|]; [|destruct i; discriminate Hi].
    cbn [viewedSlice option_map elems] in *.
    rewrite viewedFrom_nth, Hi. reflexivity.
  - intros d Hck. apply viewedSlice_stable. exact Hck.
Qed.

Lemma index_views_every_record_witness :
  exists (s' : State) (posts' : slice Post),
    handle index getIndex (sampleWorld (Json.MarshalIndent (Some [samplePost; wornPost])))
    = (Returned tt, s')
    /\ file (world s') = Some (Json.MarshalIndent posts')
    /\ posts' = Some [viewed (B "2025-05-01") samplePost;
                      viewed (B "2025-05-01") wornPost]
    /\ ViewCount (viewed (B "2025-05-01") samplePost) = 1%Z.
Proof.
  destruct (index_views_every_record getIndex
              (sampleWorld (Json.MarshalIndent (Some [samplePost; wornPost])))
              (Json.MarshalIndent (Some [samplePost; wornPost]))
              (Some [samplePost; wornPost]))
    as [s' [posts' [Hrun [Hfile [_ [_ [_ [_ Hstable]]]]]]]].
  - reflexivity.
  - reflexivity.
  - reflexivity.
  - vm_compute. reflexivity.
  - exists s', posts'. split; [exact Hrun|]. split; [exact Hfile|].
    split; [|reflexivity].
    apply (Hstable (B "2025-05-01")). intros i _. reflexivity.
Defined.

(** C1, as stated, fails on a record whose [viewCount] is the largest
    [int]: after Enumerate the stored count is not the old count plus 1. *)
Lemma index_view_count_wraps :
  let wd := sampleWorld (Json.MarshalIndent (Some [wornPost])) in
  decoded wd = Json.Ref (Some [wornPost])
  /\ exists s' post',
       handle index getIndex wd = (Returned tt, s')
       /\ file (world s') = Some (Json.MarshalIndent (Some [post']))
       /\ ViewCount post' = (- 2 ^ 63)%Z
       /\ ViewCount post' <> (ViewCount wornPost + 1)%Z.
Proof.
  split.
  - vm_compute. reflexivity.
  - exists (snd (handle index getIndex
                   (sampleWorld (Json.MarshalIndent (Some [wornPost]))))).
    exists (viewed (B "2025-05-01") wornPost).
    split; [vm_compute; reflexivity|].
    split; [vm_compute; reflexivity|].
    split; [reflexivity|].
    vm_compute. discriminate.
Qed.



Lemma serve_index (r : Request) :
  Path r = B "/index" -> serve r = index r.
Proof.
  intros H. unfold serve, routes. rewrite H. cbn [find fst snd].
  rewrite bytes_eqb_refl. reflexivity.
Qed.

(** C10.  The enumerate handler checks no method: a request to its
    path ends exactly as a GET does, whatever its method and body; it
    runs the whole load, mutate, save cycle (one reading of the clock
    per record) and gets the mutated Collection back. *)
Theorem index_whatever_the_method (r : Request) (wd : World) :
  Path r = B "/index" ->
  handle serve r wd = handle index getIndex wd
  /\ forall (data : bytes) (posts : slice Post),
       file wd = Some data -> readable wd = true -> writable wd = true ->
       fst (Json.UnmarshalPosts data) = Json.Ref posts ->
       exists s' : State,
         handle serve r wd = (Returned tt, s')
         /\ file (world s')
            = Some (Json.MarshalIndent (viewedSlice (clock wd) (ticks wd) posts))
         /\ body (resp s') = Json.Encode (viewedSlice (clock wd) (ticks wd) posts)
         /\ ticks (world s') = List.length (elems posts) + ticks wd.
Proof.
  intros Hp.
  assert (Hsame : handle serve r wd = handle index getIndex wd).
  { unfold handle. rewrite (serve_index r Hp). reflexivity. }
  split; [exact Hsame|].
  intros data posts Hf Hr Hw Hd.
  pose proof (decoded_of_file wd data Hf Hr) as Hread.
  rewrite Hsame, index_run, (decoded_ok wd data Hread), Hd.
  eexists. split; [reflexivity|].
  unfold indexed. rewrite (afterRead_ok wd data Hread).
  split; [apply file_written; exact Hw|].
  split; [reflexivity|].
  simpl. unfold write_file. simpl. rewrite Hw. reflexivity.
Qed.

Lemma index_whatever_the_method_witness :
  handle serve (mkRequest (B "DELETE") (B "/index") (B "x") false)
         (sampleWorld (Json.MarshalIndent (Some [samplePost])))
  = handle index getIndex (sampleWorld (Json.MarshalIndent (Some [samplePost])))
  /\ exists s' : State,
       handle serve (mkRequest (B "DELETE") (B "/index") (B "x") false)
              (sampleWorld (Json.MarshalIndent (Some [samplePost])))
       = (Returned tt, s')
       /\ file (world s')
          = Some (Json.MarshalIndent (Some [viewed (B "2025-05-01") samplePost])).
Proof.
  destruct (index_whatever_the_method
              (mkRequest (B "DELETE") (B "/index") (B "x") false)
              (sampleWorld (Json.MarshalIndent (Some [samplePost]))))
    as [Hsame Hcycle].
  - reflexivity.
  - split; [exact Hsame|].
    destruct (Hcycle (Json.MarshalIndent (Some [samplePost])) (Some [samplePost]))
      as [s' [Hrun [Hfile _]]].
    + reflexivity.
    + reflexivity.
    + reflexivity.
    + vm_compute. reflexivity.
    + exists s'. split; [exact Hrun|exact Hfile].
Defined.

(** ** Create *)

Lemma bytes_eqb_neq (a b : bytes) : a <> b -> bytes_eqb a b = false.
Proof.
  intros H. destruct (bytes_eqb a b) eqn:E; [|reflexivity].
  apply bytes_eqb_eq in E. contradiction.
Qed.

(** C2.  The record Create persists has [createdAt] and [lastViewed]
    equal to the date the clock gives as each is set (the current date,
    one and the same when the clock does not turn in between) and
    [viewCount] 0, whatever the payload gives for those fields (the
    other fields are the payload's); it is appended at the end of the
    loaded Collection, and the result is what is saved. *)
Theorem create_stamps_the_record
  (r : Request) (wd : World) (posts : slice Post) :
  Method r = MethodPost -> BodyErr r = false ->
  decoded wd = Json.Ref posts -> writable wd = true ->
  exists (s' : State) (newPost : Post),
    handle create r wd = (Returned tt, s')
    /\ file (world s')
       = Some (Json.MarshalIndent (Some (elems posts ++ [newPost])))
    /\ CreatedAt newPost = clock wd (ticks wd)
    /\ LastViewed newPost = clock wd (S (ticks wd))
    /\ ViewCount newPost = 0%Z
    /\ (forall d, stableClock wd 2 d ->
         CreatedAt newPost = d /\ LastViewed newPost = d)
    /\ Title newPost = Title (fst (Json.UnmarshalPost (Body r) zeroPost))
    /\ Content newPost = Content (fst (Json.UnmarshalPost (Body r) zeroPost))
    /\ Author newPost = Author (fst (Json.UnmarshalPost (Body r) zeroPost)).
Proof.
  intros Hm Hb Hd Hw.
  rewrite create_run by (try apply bytes_eqb_eq; assumption).
  rewrite Hd.
  exists (created wd (Body r) posts), (candidate wd (Body r)).
  split; [reflexivity|].
  split; [apply file_written; exact Hw|].
  unfold candidate. simpl.
  split; [reflexivity|]. split; [reflexivity|]. split; [reflexivity|].
  split; [|repeat split].
  intros d Hck. split; [apply (Hck 0); lia|apply (Hck 1); lia].
Qed.

Lemma create_stamps_the_record_witness :
  exists (s' : State) (newPost : Post),
    handle create (postCreate samplePayload)
           (sampleWorld (Json.MarshalIndent (Some [samplePost])))
    = (Returned tt, s')
    /\ file (world s') = Some (Json.MarshalIndent (Some [samplePost; newPost]))
    /\ CreatedAt newPost = B "2025-05-01"
    /\ LastViewed newPost = B "2025-05-01"
    /\ ViewCount newPost = 0%Z
    /\ Title newPost = B "A".
Proof.
  destruct (create_stamps_the_record (postCreate samplePayload)
              (sampleWorld (Json.MarshalIndent (Some [samplePost])))
              (Some [samplePost]))
    as [s' [newPost [Hrun [Hfile [Hc [Hl [Hv [_ [Ht _]]]]]]]]].
  - reflexivity.
  - reflexivity.
  - vm_compute. reflexivity.
  - reflexivity.
  - exists s', newPost. repeat split; assumption.
Defined.

(** C5.  A Create request whose method is not POST gets
    MethodNotAllowed and nothing else happens: the file, the clock and
    the log are as before, so nothing was loaded, stamped or saved. *)
Theorem create_refuses_other_methods (r : Request) (wd : World) :
  Method r <> MethodPost ->
  exists s' : State,
    handle create r wd = (Returned tt, s')
    /\ world s' = wd
    /\ status (resp s') = Some StatusMethodNotAllowed
    /\ body (resp s') = B "Please submit a post request" ++ [newline].
Proof.
  intros Hm. rewrite create_rejects by (apply bytes_eqb_neq; exact Hm).
  eexists. repeat split.
Qed.

Lemma create_refuses_other_methods_witness :
  exists s' : State,
    handle create (mkRequest (B "GET") (B "/create") samplePayload false)
           (sampleWorld (Json.MarshalIndent (Some [samplePost])))
    = (Returned tt, s')
    /\ world s' = sampleWorld (Json.MarshalIndent (Some [samplePost]))
    /\ status (resp s') = Some 405%Z
    /\ body (resp s') = B "Please submit a post request" ++ [newline].
Proof.
  apply (create_refuses_other_methods
           (mkRequest (B "GET") (B "/create") samplePayload false)
           (sampleWorld (Json.MarshalIndent (Some [samplePost])))).
  vm_compute. discriminate.
Defined.

(** ** Failure to read the file *)

Lemma decoded_unread (wd : World) :
  snd (read wd) = true -> decoded wd = Json.Ref None.
Proof.
  intros H. unfold decoded. rewrite (read_failed wd H). reflexivity.
Qed.

Lemma afterRead_failed (wd : World) :
  snd (read wd) = true ->
  afterRead wd
  = errorResponse (B "Error reading request body") StatusInternalServerError.
Proof. unfold afterRead. intros ->. reflexivity. Qed.


(** C3 (as amended).  When the file cannot be read, Enumerate and
    Create send the read error first, as plain text under status 500,
    and then go on with the empty (nil) Collection: Enumerate adds its
    JSON, [null], to the response, Create its confirmation.  What
    becomes of the file is up to the save alone: it holds a whole
    Collection when the save succeeds, it is as it was when the file
    could not be opened for writing, and it holds only what was written
    before the error when the write fails later. *)
Theorem read_failure_is_reported (r : Request) (wd : World) :
  snd (read wd) = true ->
  (exists s' : State,
      handle index r wd = (Returned tt, s')
      /\ status (resp s') = Some StatusInternalServerError
      /\ sent (resp s')
         = [ (B "Content-Type", B "text/plain; charset=utf-8");
             (B "X-Content-Type-Options", B "nosniff") ]
      /\ body (resp s')
         = B "Error reading request body" ++ [newline] ++ Json.Encode None
      /\ (writable wd = true ->
          file (world s') = Some (Json.MarshalIndent None))
      /\ (writable wd = false -> failsAfter wd = None ->
          file (world s') = file wd)
      /\ (forall n, writable wd = false -> failsAfter wd = Some n ->
          file (world s') = Some (firstn n (Json.MarshalIndent None)))
      /\ (writable wd = true \/ failsAfter wd = None ->
          wholeOrUntouched wd s'))
  /\ (Method r = MethodPost -> BodyErr r = false ->
      exists s' : State,
        handle create r wd = (Returned tt, s')
        /\ status (resp s') = Some StatusInternalServerError
        /\ sent (resp s')
           = [ (B "Content-Type", B "text/plain; charset=utf-8");
               (B "X-Content-Type-Options", B "nosniff") ]
        /\ body (resp s')
           = B "Error reading request body" ++ [newline]
             ++ B "Post successfully created"
        /\ (writable wd = true ->
            file (world s')
            = Some (Json.MarshalIndent (Some [candidate wd (Body r)])))
        /\ (writable wd = false -> failsAfter wd = None ->
            file (world s') = file wd)
        /\ (forall n, writable wd = false -> failsAfter wd = Some n ->
            file (world s')
            = Some (firstn n
                      (Json.MarshalIndent (Some [candidate wd (Body r)]))))
        /\ (writable wd = true \/ failsAfter wd = None ->
            wholeOrUntouched wd s')).
Proof.
  intros H. split.
  - rewrite index_run, (decoded_unread wd H).
    eexists. split; [reflexivity|].
    unfold indexed, wholeOrUntouched.
    rewrite (afterRead_failed wd H).
    cbn [world resp viewedSlice option_map elems].
    split; [reflexivity|]. split; [reflexivity|]. split; [reflexivity|].
    unfold write_file. cbn [writable failsAfter tick log].
    split; [intros ->; reflexivity|].
    split; [intros -> ->; reflexivity|].
    split; [intros n -> ->; reflexivity|].
    intros [-> | ->].
    + right. exists None. reflexivity.
    + destruct (writable wd); [right; exists None|left]; reflexivity.
  - intros Hm Hb.
    rewrite create_run by (try apply bytes_eqb_eq; assumption).
    rewrite (decoded_unread wd H).
    eexists. split; [reflexivity|].
    unfold created, wholeOrUntouched.
    rewrite (afterRead_failed wd H).
    cbn [world resp elems append List.app].
    split; [reflexivity|]. split; [reflexivity|]. split; [reflexivity|].
    unfold write_file. cbn [writable failsAfter tick log].
    split; [intros ->; reflexivity|].
    split; [intros -> ->; reflexivity|].
    split; [intros n -> ->; reflexivity|].
    intros [-> | ->].
    + right. eexists. reflexivity.
    + destruct (writable wd); [right; eexists|left]; reflexivity.
Qed.

Lemma read_failure_is_reported_witness :
  exists s' : State,
    handle index getIndex emptyWorld = (Returned tt, s')
    /\ status (resp s') = Some 500%Z
    /\ body (resp s')
       = B "Error reading request body" ++ [newline] ++ B "null" ++ [newline]
    /\ file (world s') = Some (B "null").
Proof.
  destruct (read_failure_is_reported getIndex emptyWorld eq_refl)
    as [[s' [Hrun [Hs [_ [Hb [Hf _]]]]]] _].
  exists s'. split; [exact Hrun|]. split; [exact Hs|].
  split; [exact Hb|exact (Hf eq_refl)].
Defined.

(** C3, as stated, fails when the save fails once the file is open.
    Without a file, Enumerate sends the read error and goes on: the
    response carries [null] after the error, the file is created, and
    when the write then stops before the first byte the file is left
    empty, which is neither the state it was in nor a whole
    Collection. *)
Lemma failed_write_leaves_a_part :
  let wd := mkWorld None true false (Some 0) sampleClock 0 [] in
  exists s' : State,
    handle index getIndex wd = (Returned tt, s')
    /\ body (resp s')
       = B "Error reading request body" ++ [newline] ++ B "null" ++ [newline]
    /\ file wd = None
    /\ file (world s') = Some []
    /\ ~ wholeOrUntouched wd s'.
Proof.
  eexists. split; [vm_compute; reflexivity|].
  split; [reflexivity|]. split; [reflexivity|]. split; [reflexivity|].
  unfold wholeOrUntouched. cbn. intros [H | [posts H]]; [discriminate|].
  destruct posts as [[|post l]|]; discriminate.
Qed.

(** ** Malformed data in the file *)

(** C6 (as amended).  When the file holds malformed data, that is,
    [json.Unmarshal] reports an error, nothing panics and the operation
    goes on with what was decoded, the error dropped: an empty (nil)
    Collection when the data is not well-formed JSON or is a value other
    than an array; one record per element, each decoded as far as its
    members allow, when it is an array. *)
Theorem load_swallows_decoding_errors
  (r : Request) (wd : World) (data : bytes) (e : Json.error) :
  file wd = Some data -> readable wd = true ->
  snd (Json.UnmarshalPosts data) = Some e ->
  exists posts : slice Post,
    fst (loadPost (mkState wd newResponse)) = Returned posts
    /\ handle index r wd = (Returned tt, indexed wd posts)
    /\ status (resp (indexed wd posts)) = Some 200%Z
    /\ (e = Json.SyntaxError -> posts = None)
    /\ (forall v, Json.parse data = Some v ->
        (forall l, v <> Json.JArr l) -> posts = None)
    /\ (forall l, Json.parse data = Some (Json.JArr l) ->
        posts = Some (map (fun v => fst (Json.decode_post v zeroPost)) l)).
Proof.
  intros Hf Hr He.
  pose proof (decoded_of_file wd data Hf Hr) as Hread.
  assert (Hd : exists posts,
             fst (Json.UnmarshalPosts data) = Json.Ref posts
             /\ (e = Json.SyntaxError -> posts = None)
             /\ (forall v, Json.parse data = Some v ->
                 (forall l, v <> Json.JArr l) -> posts = None)
             /\ (forall l, Json.parse data = Some (Json.JArr l) ->
                 posts = Some (map (fun v => fst (Json.decode_post v zeroPost)) l))).
  { revert He. unfold Json.UnmarshalPosts.
    destruct (Json.parse data) as [v|].
    - destruct v; simpl; intros He; try discriminate;
        try (exists None; split; [reflexivity|];
             split; [reflexivity|]; split; [reflexivity|];
             intros l' [= Hv]; discriminate Hv).
      eexists. split; [reflexivity|].
      split; [intros ->|split].
      + destruct (existsb _ _); discriminate.
      + intros v [= <-] Hn. exfalso. apply (Hn l). reflexivity.
      + intros l' [= <-]. rewrite map_map. reflexivity.
    - simpl. intros _. exists None. repeat split; intros; discriminate. }
  destruct Hd as [posts [Hd Hrest]].
  exists posts.
  rewrite loadPost_run, index_run, (decoded_ok wd data Hread), Hd.
  split; [reflexivity|]. split; [reflexivity|].
  split; [|exact Hrest].
  unfold indexed. rewrite (afterRead_ok wd data Hread). reflexivity.
Qed.

Lemma load_swallows_decoding_errors_witness :
  exists posts : slice Post,
    fst (loadPost (mkState (sampleWorld (B "{posts}")) newResponse))
    = Returned posts
    /\ handle index getIndex (sampleWorld (B "{posts}"))
       = (Returned tt, indexed (sampleWorld (B "{posts}")) posts)
    /\ posts = None.
Proof.
  destruct (load_swallows_decoding_errors getIndex (sampleWorld (B "{posts}"))
              (B "{posts}") Json.SyntaxError)
    as [posts [Hl [Hi [_ [Hs _]]]]].
  - reflexivity.
  - reflexivity.
  - vm_compute. reflexivity.
  - exists posts. split; [exact Hl|]. split; [exact Hi|]. apply Hs. reflexivity.
Defined.

(** C6, as stated, fails on a file holding an array whose element is not
    an object: [json.Unmarshal] reports a type error, and Enumerate goes
    on with one zero record, which it views and saves. *)
Lemma index_on_ill_typed_array :
  let wd := sampleWorld (B "[1]") in
  Json.UnmarshalPosts (B "[1]")
  = (Json.Ref (Some [zeroPost]), Some Json.UnmarshalTypeError)
  /\ exists s' : State,
       handle index getIndex wd = (Returned tt, s')
       /\ file (world s')
          = Some (Json.MarshalIndent (Some [viewed (B "2025-05-01") zeroPost]))
       /\ body (resp s') = Json.Encode (Some [viewed (B "2025-05-01") zeroPost])
       /\ ViewCount (viewed (B "2025-05-01") zeroPost) = 1%Z.
Proof.
  split.
  - vm_compute. reflexivity.
  - eexists. split; [vm_compute; reflexivity|].
    split; [vm_compute; reflexivity|].
    split; [vm_compute; reflexivity|reflexivity].
Qed.

(** ** A payload that does not decode *)

(** C7 (as amended).  A Create request whose body is readable but does
    not decode as a record is not rejected: the operation goes on,
    stamps the candidate and appends it.  The candidate is the zero
    record when the body is not well-formed JSON or is a value other
    than an object; otherwise it holds the members that did decode. *)
Theorem create_swallows_decoding_errors
  (r : Request) (wd : World) (posts : slice Post) (e : Json.error) :
  Method r = MethodPost -> BodyErr r = false ->
  snd (Json.UnmarshalPost (Body r) zeroPost) = Some e ->
  decoded wd = Json.Ref posts -> writable wd = true ->
  exists s' : State,
    handle create r wd = (Returned tt, s')
    /\ file (world s')
       = Some (Json.MarshalIndent
                 (Some (elems posts ++ [candidate wd (Body r)])))
    /\ (exists pre, body (resp s') = pre ++ B "Post successfully created")
    /\ (e = Json.SyntaxError -> candidate wd (Body r) = stampedZero wd)
    /\ (forall v, Json.parse (Body r) = Some v ->
        (forall m, v <> Json.JObj m) -> candidate wd (Body r) = stampedZero wd)
    /\ (forall m, Json.parse (Body r) = Some (Json.JObj m) ->
        fst (Json.UnmarshalPost (Body r) zeroPost)
        = fst (fold_left Json.store_member m (zeroPost, false))).
Proof.
  intros Hm Hb He Hd Hw.
  rewrite create_run by (try apply bytes_eqb_eq; assumption).
  rewrite Hd.
  exists (created wd (Body r) posts).
  split; [reflexivity|].
  split; [apply file_written; exact Hw|].
  split.
  { unfold created. simpl. unfold written.
    destruct (status (afterRead wd)); simpl; eexists; reflexivity. }
  revert He. unfold candidate, stampedZero, Json.UnmarshalPost.
  destruct (Json.parse (Body r)) as [v|].
  - destruct (Json.decode_post v zeroPost) as [p' e'] eqn:Hdec. simpl.
    intros He. split; [|split].
    + intros ->. destruct e'; discriminate.
    + intros v' [= <-] Hn.
      destruct v; simpl in Hdec; try (injection Hdec as <- _; reflexivity).
      exfalso. apply (Hn m). reflexivity.
    + intros m [= ->]. simpl in Hdec. rewrite Hdec. reflexivity.
  - simpl. intros _. repeat split; intros; discriminate.
Qed.

Lemma create_swallows_decoding_errors_witness :
  exists s' : State,
    handle create (postCreate (B "{title}")) (sampleWorld (B "[]"))
    = (Returned tt, s')
    /\ file (world s')
       = Some (Json.MarshalIndent (Some [stampedZero (sampleWorld (B "[]"))])).
Proof.
  destruct (create_swallows_decoding_errors (postCreate (B "{title}"))
              (sampleWorld (B "[]")) (Some []) Json.SyntaxError)
    as [s' [Hrun [Hfile [_ [Hz _]]]]].
  - reflexivity.
  - reflexivity.
  - vm_compute. reflexivity.
  - vm_compute. reflexivity.
  - reflexivity.
  - exists s'. split; [exact Hrun|].
    rewrite Hfile. rewrite (Hz eq_refl). reflexivity.
Defined.

(** C7, as stated, fails on a body whose [ViewCount] is a string:
    [json.Unmarshal] reports a type error, yet the candidate carries the
    title that did decode, and that is the record appended. *)
Lemma create_on_ill_typed_payload :
  let wd := sampleWorld (B "[]") in
  Json.UnmarshalPost illTypedPayload zeroPost
  = (mkPost (B "A") [] [] [] 0 [], Some Json.UnmarshalTypeError)
  /\ exists s' : State,
       handle create (postCreate illTypedPayload) wd = (Returned tt, s')
       /\ file (world s')
          = Some (Json.MarshalIndent
                    (Some [mkPost (B "A") [] (B "2025-05-01") [] 0 (B "2025-05-01")]))
       /\ mkPost (B "A") [] (B "2025-05-01") [] 0 (B "2025-05-01")
          <> stampedZero wd.
Proof.
  split.
  - vm_compute. reflexivity.
  - eexists. split; [vm_compute; reflexivity|].
    split; [vm_compute; reflexivity|].
    vm_compute. discriminate.
Qed.

(** ** The response of Enumerate *)

Lemma MarshalIndent_last (posts : slice Post) :
  last (Json.MarshalIndent posts) newline <> newline.
Proof.
  unfold Json.MarshalIndent. destruct posts as [[|post l]|].
  - vm_compute. discriminate.
  - change (B "]") with ["]"%char]. rewrite !app_assoc.
    rewrite last_last. vm_compute. discriminate.
  - vm_compute. discriminate.
Qed.

(** The indented layout is never what [Encode] writes. *)
Lemma Encode_not_indented (posts posts' : slice Post) :
  Json.Encode posts <> Json.MarshalIndent posts'.
Proof.
  intros H. apply (MarshalIndent_last posts'). rewrite <- H.
  unfold Json.Encode. apply last_last.
Qed.

(** C8 (as amended).  The response body of Enumerate is the mutated
    record sequence in the compact JSON encoding, without indentation,
    followed by a newline, sent as [application/json]; the two-space
    layout is that of the file only. *)
Theorem index_response_is_compact
  (r : Request) (wd : World) (data : bytes) (posts : slice Post) :
  file wd = Some data -> readable wd = true -> writable wd = true ->
  fst (Json.UnmarshalPosts data) = Json.Ref posts ->
  exists (s' : State) (posts' : slice Post),
    handle index r wd = (Returned tt, s')
    /\ posts' = viewedSlice (clock wd) (ticks wd) posts
    /\ body (resp s') = Json.Marshal posts' ++ [newline]
    /\ sent (resp s') = [(B "Content-Type", B "application/json")]
    /\ file (world s') = Some (Json.MarshalIndent posts')
    /\ body (resp s') <> Json.MarshalIndent posts'.
Proof.
  intros Hf Hr Hw Hd.
  pose proof (decoded_of_file wd data Hf Hr) as Hread.
  rewrite index_run, (decoded_ok wd data Hread), Hd.
  exists (indexed wd posts), (viewedSlice (clock wd) (ticks wd) posts).
  split; [reflexivity|]. split; [reflexivity|].
  unfold indexed. rewrite (afterRead_ok wd data Hread).
  split; [reflexivity|]. split; [reflexivity|].
  split; [apply file_written; exact Hw|].
  apply Encode_not_indented.
Qed.

Lemma index_response_is_compact_witness :
  exists (s' : State) (posts' : slice Post),
    handle index getIndex (sampleWorld (Json.MarshalIndent (Some [samplePost])))
    = (Returned tt, s')
    /\ posts' = Some [viewed (B "2025-05-01") samplePost]
    /\ body (resp s') = Json.Marshal posts' ++ [newline].
Proof.
  destruct (index_response_is_compact getIndex
              (sampleWorld (Json.MarshalIndent (Some [samplePost])))
              (Json.MarshalIndent (Some [samplePost]))
              (Some [samplePost]))
    as [s' [posts' [Hrun [Hp [Hb _]]]]].
  - reflexivity.
  - reflexivity.
  - reflexivity.
  - vm_compute. reflexivity.
  - exists s', posts'. split; [exact Hrun|]. split; [exact Hp|exact Hb].
Defined.

(** C8, as stated, fails twice over: a request for [/posts/index] is
    answered by the mux with 404 and the file is not touched, and the
    body [index] writes is not the indented encoding. *)
Lemma index_path_and_layout :
  let wd := sampleWorld (Json.MarshalIndent (Some [samplePost])) in
  handle serve (mkRequest (B "GET") (B "/posts/index") [] false) wd
  = (Returned tt, mkState wd (errorResponse (B "404 page not found") StatusNotFound))
  /\ exists s' : State,
       handle index getIndex wd = (Returned tt, s')
       /\ body (resp s')
          = Json.Marshal (Some [viewed (B "2025-05-01") samplePost]) ++ [newline]
       /\ body (resp s')
          <> Json.MarshalIndent (Some [viewed (B "2025-05-01") samplePost]).
Proof.
  split.
  - vm_compute. reflexivity.
  - eexists. split; [vm_compute; reflexivity|].
    split; [vm_compute; reflexivity|].
    vm_compute. discriminate.
Qed.

(** ** Saving and loading again *)

(** C4 fails on the nil Collection.  [savePosts] writes it as [null] (it
    is what Enumerate saves when the file is missing); [loadPost] then
    sets its pointer to nil and panics on ranging over it, so Enumerate
    and Create abort on that file and nothing is saved again. *)
Theorem saved_nil_collection_does_not_load :
  file (world (snd (savePosts None (mkState emptyWorld newResponse))))
  = Some (B "null")
  /\ file (world (snd (handle index getIndex emptyWorld))) = Some (B "null")
  /\ loadPost (mkState (sampleWorld (B "null")) newResponse)
     = (Panicked, mkState (sampleWorld (B "null")) newResponse)
  /\ handle index getIndex (sampleWorld (B "null"))
     = (Panicked, mkState (sampleWorld (B "null")) newResponse)
  /\ fst (handle create (postCreate samplePayload) (sampleWorld (B "null")))
     = Panicked
  /\ file (world (snd (handle create (postCreate samplePayload)
                              (sampleWorld (B "null")))))
     = Some (B "null").
Proof. repeat split; vm_compute; reflexivity. Qed.

(** X1.  Saving a non-nil Collection, loading it and saving it again:
    the load gives the Collection back field for field, and the second
    save writes the bytes of the first. *)
Theorem save_load_save (l : list Post) (wd : World) :
  Forall validPost l -> readable wd = true -> writable wd = true ->
  exists s1 s2 s3 : State,
    savePosts (Some l) (mkState wd newResponse) = (Returned false, s1)
    /\ loadPost (mkState (world s1) newResponse) = (Returned (Some l), s2)
    /\ savePosts (Some l) s2 = (Returned false, s3)
    /\ file (world s1) = Some (Json.MarshalIndent (Some l))
    /\ file (world s3) = file (world s1).
Proof.
  intros Hv Hr Hw.
  rewrite savePosts_run, Hw.
  eexists. eexists. eexists. split; [reflexivity|].
  cbn [world]. rewrite loadPost_run.
  assert (Hread : read (write_file (Json.MarshalIndent (Some l)) wd)
                  = (Json.MarshalIndent (Some l), false)).
  { unfold write_file. rewrite Hw. unfold read. simpl. rewrite Hr. reflexivity. }
  rewrite (decoded_ok _ _ Hread), (load_after_save l Hv). cbn [fst].
  split; [reflexivity|].
  rewrite savePosts_run.
  assert (Hw' : writable (log (loading (elems (Some l)))
                              (write_file (Json.MarshalIndent (Some l)) wd)) = true).
  { unfold write_file. rewrite Hw. exact Hw. }
  rewrite Hw'. split; [reflexivity|].
  cbn [world]. split.
  - apply file_written. exact Hw.
  - rewrite !file_written by assumption. reflexivity.
Qed.

Lemma samplePost_valid : validPost samplePost.
Proof. repeat split; vm_compute; try reflexivity; discriminate. Qed.

Lemma save_load_save_witness :
  exists s1 s2 s3 : State,
    savePosts (Some [samplePost]) (mkState emptyWorld newResponse)
    = (Returned false, s1)
    /\ loadPost (mkState (world s1) newResponse) = (Returned (Some [samplePost]), s2)
    /\ savePosts (Some [samplePost]) s2 = (Returned false, s3)
    /\ file (world s1) = Some (Json.MarshalIndent (Some [samplePost]))
    /\ file (world s3) = file (world s1).
Proof.
  apply (save_load_save [samplePost] emptyWorld).
  - constructor; [exact samplePost_valid|constructor].
  - reflexivity.
  - reflexivity.
Defined.

(** ** Operations on a file that [savePosts] wrote *)

Lemma decoded_holds (wd : World) (l : list Post) :
  holds wd l -> read wd = (Json.MarshalIndent (Some l), false)
                /\ decoded wd = Json.Ref (Some l).
Proof.
  intros [Hf [Hv [Hr Hw]]].
  pose proof (decoded_of_file wd _ Hf Hr) as Hread.
  split; [exact Hread|].
  rewrite (decoded_ok wd _ Hread), (load_after_save l Hv). reflexivity.
Qed.

(** X2.  Enumerate on a saved Collection returns, and the file then
    holds the viewed Collection, again as [savePosts] lays it out. *)
Theorem index_on_saved_collection (r : Request) (wd : World) (l : list Post) :
  holds wd l -> clockValid wd ->
  exists s' : State,
    handle index r wd = (Returned tt, s')
    /\ holds (world s') (viewedFrom (clock wd) (ticks wd) l)
    /\ clock (world s') = clock wd
    /\ status (resp s') = Some 200%Z
    /\ body (resp s') = Json.Encode (Some (viewedFrom (clock wd) (ticks wd) l)).
Proof.
  intros H Hck. destruct (decoded_holds wd l H) as [Hread Hd].
  destruct H as [Hf [Hv [Hr Hw]]].
  rewrite index_run, Hd. eexists. split; [reflexivity|].
  unfold indexed. rewrite (afterRead_ok wd _ Hread).
  cbn [world resp viewedSlice option_map elems].
  split; [|split; [|split; reflexivity]].
  - unfold holds. split; [apply file_written; exact Hw|].
    split; [apply viewedFrom_valid; assumption|].
    unfold write_file. cbn [writable tick log]. rewrite Hw.
    split; assumption.
  - unfold write_file. cbn [writable tick log]. rewrite Hw. reflexivity.
Qed.

Lemma index_on_saved_collection_witness :
  exists s' : State,
    handle index getIndex (sampleWorld (Json.MarshalIndent (Some [samplePost])))
    = (Returned tt, s')
    /\ holds (world s') [viewed (B "2025-05-01") samplePost].
Proof.
  destruct (index_on_saved_collection getIndex
              (sampleWorld (Json.MarshalIndent (Some [samplePost])))
              [samplePost])
    as [s' [Hrun [Hh _]]].
  - split; [reflexivity|].
    split; [constructor; [exact samplePost_valid|constructor]|].
    split; reflexivity.
  - intros i. reflexivity.
  - exists s'. split; [exact Hrun|exact Hh].
Defined.

(** X3.  Create on a saved Collection returns, and the file then holds
    the Collection with the stamped candidate appended: the records that
    were there are as they were. *)
Theorem create_on_saved_collection (r : Request) (wd : World) (l : list Post) :
  Method r = MethodPost -> BodyErr r = false ->
  holds wd l -> clockValid wd ->
  exists s' : State,
    handle create r wd = (Returned tt, s')
    /\ holds (world s') (l ++ [candidate wd (Body r)])
    /\ clock (world s') = clock wd
    /\ status (resp s') = Some 200%Z
    /\ body (resp s') = B "Post successfully created".
Proof.
  intros Hm Hb H Hck. destruct (decoded_holds wd l H) as [Hread Hd].
  destruct H as [Hf [Hv [Hr Hw]]].
  rewrite create_run by (try apply bytes_eqb_eq; assumption).
  rewrite Hd. eexists. split; [reflexivity|].
  unfold created. rewrite (afterRead_ok wd _ Hread).
  cbn [world resp elems append].
  split; [|split; [|split; reflexivity]].
  - unfold holds. split; [apply file_written; exact Hw|].
    split.
    + apply Forall_app. split; [exact Hv|].
      constructor; [apply candidate_valid; exact Hck|constructor].
    + unfold write_file. cbn [writable tick log]. rewrite Hw.
      split; assumption.
  - unfold write_file. cbn [writable tick log]. rewrite Hw. reflexivity.
Qed.

Lemma create_on_saved_collection_witness :
  exists s' : State,
    handle create (postCreate samplePayload)
           (sampleWorld (Json.MarshalIndent (Some [samplePost])))
    = (Returned tt, s')
    /\ holds (world s')
             [samplePost;
              mkPost (B "A") (B "B") (B "2025-05-01") (B "C") 0 (B "2025-05-01")].
Proof.
  destruct (create_on_saved_collection (postCreate samplePayload)
              (sampleWorld (Json.MarshalIndent (Some [samplePost])))
              [samplePost])
    as [s' [Hrun [Hh _]]].
  - reflexivity.
  - reflexivity.
  - split; [reflexivity|].
    split; [constructor; [exact samplePost_valid|constructor]|].
    split; reflexivity.
  - intros i. reflexivity.
  - exists s'. split; [exact Hrun|exact Hh].
Defined.

(** * Further properties of the handlers *)

(** ** Requests that are turned away, and errors that are dropped *)

(** X5.  A POST to Create whose body cannot be read is answered with
    BadRequest and the handler returns at once: the clock was not read,
    nothing was loaded, logged or saved. *)
Theorem create_rejects_unread_body (r : Request) (wd : World) :
  Method r = MethodPost -> BodyErr r = true ->
  exists s' : State,
    handle create r wd = (Returned tt, s')
    /\ world s' = wd
    /\ status (resp s') = Some StatusBadRequest
    /\ body (resp s') = B "Error reading request body" ++ [newline].
Proof.
  intros Hm Hb. unfold handle, create, ReadAll.
  rewrite Hm, Hb, bytes_eqb_refl. cbn [negb]. cbv iota.
  rewrite httpError_fresh. eexists. repeat split.
Qed.

Lemma create_rejects_unread_body_witness :
  exists s' : State,
    handle create (mkRequest (B "POST") (B "/create") samplePayload true)
           (sampleWorld (B "[]"))
    = (Returned tt, s')
    /\ world s' = sampleWorld (B "[]")
    /\ status (resp s') = Some 400%Z.
Proof.
  destruct (create_rejects_unread_body
              (mkRequest (B "POST") (B "/create") samplePayload true)
              (sampleWorld (B "[]")))
    as [s' [Hrun [Hw [Hs _]]]].
  - reflexivity.
  - reflexivity.
  - exists s'. split; [exact Hrun|]. split; [exact Hw|exact Hs].
Defined.

Lemma refused (data : bytes) (wd : World) :
  writable wd = false -> failsAfter wd = None -> write_file data wd = wd.
Proof. unfold write_file. intros -> ->. reflexivity. Qed.

Lemma cut_short (data : bytes) (wd : World) (n : nat) :
  writable wd = false -> failsAfter wd = Some n ->
  write_file data wd = set_file wd (firstn n data).
Proof. unfold write_file. intros -> ->. reflexivity. Qed.

(** X6.  When the write of the file fails, [savePosts] returns the
    error and Enumerate drops it: the caller gets status 200 and the
    incremented counts all the same.  If the file could not be opened
    for writing, it is as it was, and the next Enumerate starts from
    the same records again.  If the write failed once the file was
    open, the file holds only what was written of the new Collection
    before the error. *)
Theorem index_drops_the_save_error
  (r r2 : Request) (wd : World) (data : bytes) (posts : slice Post) :
  file wd = Some data -> readable wd = true -> writable wd = false ->
  fst (Json.UnmarshalPosts data) = Json.Ref posts ->
  exists s' : State,
    handle index r wd = (Returned tt, s')
    /\ (forall p rw, fst (savePosts p (mkState wd rw)) = Returned true)
    /\ status (resp s') = Some 200%Z
    /\ body (resp s') = Json.Encode (viewedSlice (clock wd) (ticks wd) posts)
    /\ (failsAfter wd = None ->
        file (world s') = Some data
        /\ exists s2 : State,
             handle index r2 (world s') = (Returned tt, s2)
             /\ body (resp s2)
                = Json.Encode (viewedSlice (clock wd)
                                 (List.length (elems posts) + ticks wd) posts)
             /\ file (world s2) = Some data)
    /\ (forall n, failsAfter wd = Some n ->
        file (world s')
        = Some (firstn n (Json.MarshalIndent
                            (viewedSlice (clock wd) (ticks wd) posts)))).
Proof.
  intros Hf Hr Hw Hd.
  pose proof (decoded_of_file wd _ Hf Hr) as Hread.
  assert (Hdec : decoded wd = Json.Ref posts)
    by (rewrite (decoded_ok wd _ Hread); exact Hd).
  set (wd1 := tick (List.length (elems posts)) (log (loading (elems posts)) wd)).
  exists (indexed wd posts).
  split; [rewrite index_run, Hdec; reflexivity|].
  split; [intros p rw; rewrite savePosts_run, Hw; reflexivity|].
  split; [unfold indexed; rewrite (afterRead_ok wd _ Hread); reflexivity|].
  split; [unfold indexed; rewrite (afterRead_ok wd _ Hread); reflexivity|].
  split.
  - intros Hn.
    assert (Hread1 : read wd1 = (data, false)).
    { apply decoded_of_file; [exact Hf|exact Hr]. }
    assert (Hdec1 : decoded wd1 = Json.Ref posts)
      by (rewrite (decoded_ok wd1 _ Hread1); exact Hd).
    assert (Hw1 : world (indexed wd posts) = wd1).
    { unfold indexed. cbn [world]. apply refused; assumption. }
    split; [rewrite Hw1; exact Hf|].
    exists (indexed wd1 posts).
    split; [rewrite Hw1, index_run, Hdec1; reflexivity|].
    split; [unfold indexed; rewrite (afterRead_ok wd1 _ Hread1); reflexivity|].
    unfold indexed. cbn [world]. rewrite refused by assumption. exact Hf.
  - intros n Hn. unfold indexed. cbn [world].
    rewrite (cut_short _ _ n) by assumption. reflexivity.
Qed.

Lemma index_drops_the_save_error_witness :
  (exists s' : State,
      handle index getIndex
             (mkWorld (Some (Json.MarshalIndent (Some [samplePost])))
                      true false None sampleClock 0 [])
      = (Returned tt, s')
      /\ status (resp s') = Some 200%Z
      /\ body (resp s') = Json.Encode (Some [viewed (B "2025-05-01") samplePost])
      /\ file (world s') = Some (Json.MarshalIndent (Some [samplePost])))
  /\ (exists s' : State,
        handle index getIndex
               (mkWorld (Some (Json.MarshalIndent (Some [samplePost])))
                        true false (Some 0) sampleClock 0 [])
        = (Returned tt, s')
        /\ status (resp s') = Some 200%Z
        /\ file (world s') = Some []).
Proof.
  split.
  - destruct (index_drops_the_save_error getIndex getIndex
                (mkWorld (Some (Json.MarshalIndent (Some [samplePost])))
                         true false None sampleClock 0 [])
                (Json.MarshalIndent (Some [samplePost]))
                (Some [samplePost]) eq_refl eq_refl eq_refl)
      as [s' [Hrun [_ [Hs [Hb [Hf _]]]]]].
    + vm_compute. reflexivity.
    + exists s'. split; [exact Hrun|]. split; [exact Hs|].
      split; [exact Hb|]. exact (proj1 (Hf eq_refl)).
  - destruct (index_drops_the_save_error getIndex getIndex
                (mkWorld (Some (Json.MarshalIndent (Some [samplePost])))
                         true false (Some 0) sampleClock 0 [])
                (Json.MarshalIndent (Some [samplePost]))
                (Some [samplePost]) eq_refl eq_refl eq_refl)
      as [s' [Hrun [_ [Hs [_ [_ Hf]]]]]].
    + vm_compute. reflexivity.
    + exists s'. split; [exact Hrun|]. split; [exact Hs|].
      exact (Hf 0 eq_refl).
Defined.

(** X7.  When the write of the file fails, Create answers with status
    200 and its confirmation all the same, and the record is not
    stored: the file is as it was if it could not be opened for
    writing, and holds only what was written of the new Collection
    before the error if the write failed once the file was open. *)
Theorem create_drops_the_save_error
  (r : Request) (wd : World) (data : bytes) (posts : slice Post) :
  Method r = MethodPost -> BodyErr r = false ->
  file wd = Some data -> readable wd = true -> writable wd = false ->
  fst (Json.UnmarshalPosts data) = Json.Ref posts ->
  exists s' : State,
    handle create r wd = (Returned tt, s')
    /\ status (resp s') = Some 200%Z
    /\ body (resp s') = B "Post successfully created"
    /\ (failsAfter wd = None -> file (world s') = Some data)
    /\ (forall n, failsAfter wd = Some n ->
        file (world s')
        = Some (firstn n (Json.MarshalIndent
                            (append posts (candidate wd (Body r)))))).
Proof.
  intros Hm Hb Hf Hr Hw Hd.
  pose proof (decoded_of_file wd _ Hf Hr) as Hread.
  assert (Hdec : decoded wd = Json.Ref posts)
    by (rewrite (decoded_ok wd _ Hread); exact Hd).
  rewrite create_run by (try apply bytes_eqb_eq; assumption).
  rewrite Hdec. eexists. split; [reflexivity|].
  unfold created. rewrite (afterRead_ok wd _ Hread). cbn [world resp].
  split; [reflexivity|]. split; [reflexivity|].
  split.
  - intros Hn. rewrite refused by assumption. exact Hf.
  - intros n Hn. rewrite (cut_short _ _ n) by assumption. reflexivity.
Qed.

Lemma create_drops_the_save_error_witness :
  (exists s' : State,
      handle create (postCreate samplePayload)
             (mkWorld (Some (B "[]")) true false None sampleClock 0 [])
      = (Returned tt, s')
      /\ body (resp s') = B "Post successfully created"
      /\ file (world s') = Some (B "[]"))
  /\ (exists s' : State,
        handle create (postCreate samplePayload)
               (mkWorld (Some (B "[]")) true false (Some 0) sampleClock 0 [])
        = (Returned tt, s')
        /\ body (resp s') = B "Post successfully created"
        /\ file (world s') = Some []).
Proof.
  split.
  - destruct (create_drops_the_save_error (postCreate samplePayload)
                (mkWorld (Some (B "[]")) true false None sampleClock 0 [])
                (B "[]") (Some []) eq_refl eq_refl eq_refl eq_refl eq_refl eq_refl)
      as [s' [Hrun [_ [Hb [Hf _]]]]].
    exists s'. split; [exact Hrun|]. split; [exact Hb|exact (Hf eq_refl)].
  - destruct (create_drops_the_save_error (postCreate samplePayload)
                (mkWorld (Some (B "[]")) true false (Some 0) sampleClock 0 [])
                (B "[]") (Some []) eq_refl eq_refl eq_refl eq_refl eq_refl eq_refl)
      as [s' [Hrun [_ [Hb [_ Hf]]]]].
    exists s'. split; [exact Hrun|]. split; [exact Hb|exact (Hf 0 eq_refl)].
Defined.

(** ** What is printed *)

(** X8.  Loading prints one line per record, in the order of the file,
    naming its title, and the handlers print nothing else: after
    Enumerate, and after a Create that was not turned away, the standard
    output has grown by exactly those lines. *)
Theorem loaded_titles_are_logged (r : Request) (wd : World) (posts : slice Post) :
  decoded wd = Json.Ref posts ->
  stdout (world (snd (handle index r wd)))
  = stdout wd
    ++ List.concat
         (map (fun post => B "Loading Post '" ++ Title post
                           ++ B "' in memory" ++ [newline]) (elems posts))
  /\ (Method r = MethodPost -> BodyErr r = false ->
      stdout (world (snd (handle create r wd)))
      = stdout wd
        ++ List.concat
             (map (fun post => B "Loading Post '" ++ Title post
                               ++ B "' in memory" ++ [newline]) (elems posts))).
Proof.
  intros Hd. split.
  - rewrite index_run, Hd. unfold indexed, write_file. cbn [snd world].
    destruct (writable _); [reflexivity|].
    destruct (failsAfter _); reflexivity.
  - intros Hm Hb.
    rewrite create_run by (try apply bytes_eqb_eq; assumption).
    rewrite Hd. unfold created, write_file. cbn [snd world].
    destruct (writable _); [reflexivity|].
    destruct (failsAfter _); reflexivity.
Qed.

Lemma loaded_titles_are_logged_witness :
  stdout (world (snd (handle index getIndex
                        (sampleWorld (Json.MarshalIndent (Some [samplePost]))))))
  = B "Loading Post 'A' in memory" ++ [newline].
Proof.
  destruct (loaded_titles_are_logged getIndex
              (sampleWorld (Json.MarshalIndent (Some [samplePost])))
              (Some [samplePost])) as [H _].
  - vm_compute. reflexivity.
  - exact H.
Defined.

(** ** A file that is missing *)

(** X9.  Create on a store whose file does not exist yet answers with
    the read error first (status 500) and the confirmation after it, and
    creates the file: it then holds the stamped candidate alone. *)
Theorem create_starts_the_store (r : Request) (wd : World) :
  Method r = MethodPost -> BodyErr r = false ->
  file wd = None -> readable wd = true -> writable wd = true ->
  clockValid wd ->
  exists s' : State,
    handle create r wd = (Returned tt, s')
    /\ status (resp s') = Some StatusInternalServerError
    /\ body (resp s')
       = B "Error reading request body" ++ [newline]
         ++ B "Post successfully created"
    /\ holds (world s') [candidate wd (Body r)].
Proof.
  intros Hm Hb Hf Hr Hw Hck.
  assert (Hread : read wd = ([], true)) by (unfold read; rewrite Hf; reflexivity).
  assert (Hdec : decoded wd = Json.Ref None)
    by (unfold decoded; rewrite Hread; reflexivity).
  assert (Haft : afterRead wd
                 = errorResponse (B "Error reading request body")
                                 StatusInternalServerError)
    by (unfold afterRead; rewrite Hread; reflexivity).
  rewrite create_run by (try apply bytes_eqb_eq; assumption).
  rewrite Hdec. eexists. split; [reflexivity|].
  unfold created. rewrite Haft. cbn [world resp elems append List.app].
  split; [reflexivity|]. split; [reflexivity|].
  unfold holds. split; [apply file_written; exact Hw|].
  split; [constructor; [apply candidate_valid; exact Hck|constructor]|].
  unfold write_file. cbn [writable tick log]. rewrite Hw.
  split; assumption.
Qed.

Lemma create_starts_the_store_witness :
  exists s' : State,
    handle create (postCreate samplePayload) emptyWorld = (Returned tt, s')
    /\ status (resp s') = Some 500%Z
    /\ holds (world s')
             [mkPost (B "A") (B "B") (B "2025-05-01") (B "C") 0 (B "2025-05-01")].
Proof.
  destruct (create_starts_the_store (postCreate samplePayload) emptyWorld)
    as [s' [Hrun [Hs [_ Hh]]]]; try reflexivity.
  - intros i. reflexivity.
  - exists s'. split; [exact Hrun|]. split; [exact Hs|exact Hh].
Defined.

(** X10.  Enumerate on a store whose file cannot be read answers with
    the read error as plain text under status 500, the JSON of the nil
    Collection after it, and, when the file can be written, leaves it
    holding [null]. *)
Theorem index_without_a_file_saves_null (r : Request) (wd : World) :
  snd (read wd) = true -> writable wd = true ->
  exists s' : State,
    handle index r wd = (Returned tt, s')
    /\ file (world s') = Some (B "null")
    /\ status (resp s') = Some StatusInternalServerError
    /\ sent (resp s')
       = [ (B "Content-Type", B "text/plain; charset=utf-8");
           (B "X-Content-Type-Options", B "nosniff") ]
    /\ body (resp s')
       = B "Error reading request body" ++ [newline] ++ B "null" ++ [newline].
Proof.
  intros Hread Hw.
  rewrite index_run, (decoded_unread wd Hread). eexists. split; [reflexivity|].
  unfold indexed. rewrite (afterRead_failed wd Hread).
  cbn [world resp viewedSlice option_map elems].
  split; [apply file_written; exact Hw|].
  repeat split.
Qed.

Lemma index_without_a_file_saves_null_witness :
  exists s' : State,
    handle index getIndex emptyWorld = (Returned tt, s')
    /\ file (world s') = Some (B "null")
    /\ status (resp s') = Some 500%Z.
Proof.
  destruct (index_without_a_file_saves_null getIndex emptyWorld)
    as [s' [Hrun [Hf [Hs _]]]]; try reflexivity.
  exists s'. split; [exact Hrun|]. split; [exact Hf|exact Hs].
Defined.

(** ** The one document on which loading panics *)

Lemma emit_some (toks ts : list Json.token) (r : option (list Json.token)) :
  Json.emit toks r = Some ts -> exists tl, r = Some tl /\ ts = toks ++ tl.
Proof.
  destruct r as [tl|]; simpl; intros H; [|discriminate].
  exists tl. split; [reflexivity|congruence].
Qed.

Lemma lex_blanks (a rest : bytes) :
  blank a -> Json.lex Json.LIdle (a ++ rest) = Json.lex Json.LIdle rest.
Proof.
  intros H. induction H as [|c a Hc _ IH]; [reflexivity|].
  cbn [List.app]. rewrite lex_blank by exact Hc. exact IH.
Qed.

Lemma lex_null (a b : bytes) :
  blank a -> blank b ->
  Json.lex Json.LIdle (a ++ B "null" ++ b) = Some [Json.TNull].
Proof.
  intros Ha Hb. rewrite lex_blanks by exact Ha.
  cbn. rewrite emit_nil.
  rewrite <- (app_nil_r b), lex_blanks by exact Hb. reflexivity.
Qed.

(** A token under way is the first token of what the scanner gives. *)
Lemma lex_first (s : bytes) (st : Json.lstate) (ts : list Json.token) :
  Json.lex st s = Some ts ->
  match st with
  | Json.LIdle => True
  | Json.LStr _ | Json.LStrEsc _ | Json.LStrU _ _ =>
    exists raw tl, ts = Json.TStr raw :: tl
  | Json.LNum _ _ => exists lit tl, ts = Json.TNum lit :: tl
  | Json.LWord tok _ => exists tl, ts = tok :: tl
  end.
Proof.
  revert st ts. induction s as [|c t IH]; intros st ts H.
  - destruct st; simpl in H; try discriminate; [exact I|].
    destruct (Json.num_accepting ns); [|discriminate].
    injection H as <-. eauto.
  - destruct st; cbn [Json.lex] in H.
    + exact I.
    + destruct (Ascii.eqb c dquote).
      { apply emit_some in H. destruct H as [tl [_ ->]]. simpl. eauto. }
      destruct (Ascii.eqb c backslash); [exact (IH _ _ H)|].
      destruct (code c <? 32)%N; [discriminate|exact (IH _ _ H)].
    + destruct (Json.is_simple_escape c); [exact (IH _ _ H)|].
      destruct (Ascii.eqb c "u"); [exact (IH _ _ H)|discriminate].
    + destruct (Json.is_hex c); [|discriminate].
      destruct k as [|[|k]]; exact (IH _ _ H).
    + destruct (Json.num_step ns c); [exact (IH _ _ H)|].
      destruct (Json.num_accepting ns); [|discriminate].
      destruct (Json.start c) as [[toks st']|]; [|discriminate].
      apply emit_some in H. destruct H as [tl [_ ->]]. simpl. eauto.
    + destruct rest as [|r rest']; [discriminate|].
      destruct (Ascii.eqb c r); [|discriminate].
      destruct rest'.
      * apply emit_some in H. destruct H as [tl [_ ->]]. simpl. eauto.
      * exact (IH _ _ H).
Qed.

(** What a byte between tokens can be. *)
Lemma start_cases (c : ascii) (toks : list Json.token) (st : Json.lstate) :
  Json.start c = Some (toks, st) ->
  (Json.is_space c = true /\ toks = [] /\ st = Json.LIdle)
  \/ (exists tok, toks = [tok] /\ tok <> Json.TNull)
  \/ (toks = []
      /\ match st with
         | Json.LIdle => False
         | Json.LWord Json.TNull rest => c = "n"%char /\ rest = B "ull"
         | _ => True
         end).
Proof.
  unfold Json.start.
  destruct (Json.is_space c);
    [intros H; injection H as <- <-; left; auto|].
  repeat match goal with
  | |- (if Ascii.eqb c ?x then _ else _) = _ -> _ =>
    destruct (Ascii.eqb_spec c x)
  | |- (if ?b then _ else _) = _ -> _ => destruct b
  end;
  intros H; try discriminate; injection H as <- <-;
  try (right; left; eexists; split; [reflexivity|discriminate]);
  right; right; split; auto.
Qed.

Lemma lex_nil_blank (s : bytes) : Json.lex Json.LIdle s = Some [] -> blank s.
Proof.
  induction s as [|c t IH]; intros H; [constructor|].
  cbn [Json.lex] in H.
  destruct (Json.start c) as [[toks st]|] eqn:Hs; [|discriminate].
  apply emit_some in H. destruct H as [tl [Hl Hnil]].
  symmetry in Hnil. apply app_eq_nil in Hnil. destruct Hnil as [-> ->].
  apply start_cases in Hs.
  destruct Hs as [[Hsp [_ ->]] | [[tok [Hx _]] | [_ Hst]]].
  - constructor; [exact Hsp|exact (IH Hl)].
  - discriminate.
  - pose proof (lex_first _ _ _ Hl) as Hf.
    destruct st; try contradiction;
      try (destruct Hf as [? [? Hf]]; discriminate);
      destruct Hf as [? Hf]; discriminate.
Qed.

Lemma lex_only_null (s : bytes) :
  Json.lex Json.LIdle s = Some [Json.TNull] ->
  exists a b, s = a ++ B "null" ++ b /\ blank a /\ blank b.
Proof.
  induction s as [|c t IH]; intros H; [discriminate|].
  cbn [Json.lex] in H.
  destruct (Json.start c) as [[toks st]|] eqn:Hs; [|discriminate].
  apply emit_some in H. destruct H as [tl [Hl Heq]].
  apply start_cases in Hs.
  destruct Hs as [[Hsp [-> ->]] | [[tok [-> Hx]] | [-> Hst]]].
  - simpl in Heq. subst tl. destruct (IH Hl) as [a [b [-> [Ha Hb]]]].
    exists (c :: a), b. split; [reflexivity|]. split; [constructor|]; assumption.
  - simpl in Heq. congruence.
  - simpl in Heq. subst tl.
    pose proof (lex_first _ _ _ Hl) as Hf.
    destruct st; try contradiction;
      try (destruct Hf as [? [? Hf]]; discriminate).
    destruct Hf as [tl Hf]. injection Hf as <- <-.
    destruct Hst as [-> ->].
    destruct t as [|c1 [|c2 [|c3 t]]]; try discriminate Hl.
    + cbn in Hl. destruct (Ascii.eqb c1 "u"); discriminate.
    + cbn in Hl. destruct (Ascii.eqb c1 "u"); [|discriminate].
      destruct (Ascii.eqb c2 "l"); discriminate.
    + cbn [Json.lex B list_ascii_of_string] in Hl.
      destruct (Ascii.eqb_spec c1 "u"); [subst|discriminate].
      destruct (Ascii.eqb_spec c2 "l"); [subst|discriminate].
      destruct (Ascii.eqb_spec c3 "l"); [subst|discriminate].
      apply emit_some in Hl. destruct Hl as [tl [Hl Hnil]].
      destruct tl; [|discriminate].
      exists [], t. split; [reflexivity|].
      split; [constructor|apply lex_nil_blank; exact Hl].
Qed.

(** Once a bracket or brace is open, the document is an array or an
    object: the parser cannot end on [null]. *)
Lemma pstep_not_null (ps ps' : Json.pstate) (stack stack' : list Json.frame)
      (t : Json.token) :
  match ps with Json.PDone v => v <> Json.JNull | _ => stack <> [] end ->
  Json.pstep ps stack t = Some (ps', stack') ->
  match ps' with Json.PDone v => v <> Json.JNull | _ => stack' <> [] end.
Proof.
  intros Hinv H.
  destruct ps; try discriminate H;
    destruct stack as [|[acc|acc [k|]] st]; try congruence;
    destruct t; cbn in H; unfold Json.open_frame in H;
    repeat match type of H with
    | context [if ?b then _ else _] => destruct b
    end;
    try discriminate H;
    try (destruct st as [|[acc'|acc' [k'|]] st']; cbn in H; try discriminate H);
    injection H as <- <-; cbn; congruence.
Qed.

Lemma prun_not_null (ts : list Json.token) (ps : Json.pstate)
      (stack : list Json.frame) :
  match ps with Json.PDone v => v <> Json.JNull | _ => stack <> [] end ->
  Json.prun ps stack ts <> Some Json.JNull.
Proof.
  revert ps stack. induction ts as [|t ts IH]; intros ps stack Hinv.
  - destruct ps; simpl; congruence.
  - cbn [Json.prun].
    destruct (Json.pstep ps stack t) as [[ps' stack']|] eqn:Hp; [|discriminate].
    apply IH. exact (pstep_not_null _ _ _ _ _ Hinv Hp).
Qed.

Lemma prun_only_null (ts : list Json.token) :
  Json.prun Json.PValue [] ts = Some Json.JNull -> ts = [Json.TNull].
Proof.
  destruct ts as [|t ts]; [discriminate|].
  cbn [Json.prun]. intros H.
  destruct (Json.pstep Json.PValue [] t) as [[ps' stack']|] eqn:Hp; [|discriminate].
  destruct t; cbn in Hp; try discriminate Hp;
    try (injection Hp as <- <-;
         destruct ts; [discriminate H|discriminate H]).
  - exfalso. revert H. apply prun_not_null.
    injection Hp as <- <-. discriminate.
  - exfalso. revert H. apply prun_not_null.
    injection Hp as <- <-. discriminate.
  - injection Hp as <- <-. destruct ts; [reflexivity|discriminate H].
Qed.

(** The documents that are [null]: the word, with white space around
    it. *)
Lemma parse_null (data : bytes) :
  Json.parse data = Some Json.JNull
  <-> exists a b, data = a ++ B "null" ++ b /\ blank a /\ blank b.
Proof.
  unfold Json.parse. split.
  - destruct (Json.lex Json.LIdle data) as [ts|] eqn:Hl; [|discriminate].
    intros H. apply prun_only_null in H. subst ts.
    apply lex_only_null. exact Hl.
  - intros [a [b [-> [Ha Hb]]]]. rewrite lex_null by assumption. reflexivity.
Qed.

Lemma UnmarshalPosts_nil (data : bytes) :
  fst (Json.UnmarshalPosts data) = Json.NilPtr
  <-> Json.parse data = Some Json.JNull.
Proof.
  unfold Json.UnmarshalPosts.
  destruct (Json.parse data) as [[| | | | |]|]; simpl; split; congruence.
Qed.

Lemma httpError_returns (msg : bytes) (code : Z) (s : State) :
  exists rw, httpError msg code s = (Returned tt, mkState (world s) rw).
Proof. eexists. reflexivity. Qed.

Lemma loadPost_panics (s : State) :
  fst (loadPost s) = Panicked <-> decoded (world s) = Json.NilPtr.
Proof.
  unfold loadPost, decoded, bind, ReadFile.
  destruct (read (world s)) as [data err]. cbn [fst snd].
  assert (H : exists s1, (if err
                          then httpError (B "Error reading request body")
                                         StatusInternalServerError
                          else ret tt) s = (Returned tt, s1)).
  { destruct err; [|eexists; reflexivity].
    destruct (httpError_returns (B "Error reading request body")
                                StatusInternalServerError s) as [rw Hrw].
    eexists. exact Hrw. }
  destruct H as [[wd1 rw1] ->].
  destruct (fst (Json.UnmarshalPosts data)) as [|posts].
  - split; reflexivity.
  - rewrite announce_run. cbn. split; discriminate.
Qed.

(** X11.  [loadPost] panics on one kind of file only: one that can be
    read and holds the word [null], with nothing but white space around
    it. On every other file, and when the file cannot be read, it
    returns. *)
Theorem loadPost_panics_on_null_only (s : State) :
  fst (loadPost s) = Panicked
  <-> exists a b : bytes,
        file (world s) = Some (a ++ B "null" ++ b)
        /\ readable (world s) = true /\ blank a /\ blank b.
Proof.
  rewrite loadPost_panics. unfold decoded.
  rewrite UnmarshalPosts_nil, parse_null. unfold read.
  split.
  - intros [a [b [H [Ha Hb]]]].
    destruct (file (world s)) as [data|].
    + destruct (readable (world s)).
      * simpl in H. subst data. exists a, b. auto.
      * simpl in H. destruct a; discriminate.
    + simpl in H. destruct a; discriminate.
  - intros [a [b [-> [-> [Ha Hb]]]]]. exists a, b. auto.
Qed.

(** ** The server over a sequence of requests *)

Lemma create_unread (r : Request) (wd : World) :
  bytes_eqb (Method r) MethodPost = true -> BodyErr r = true ->
  handle create r wd
  = (Returned tt,
     mkState wd (errorResponse (B "Error reading request body") StatusBadRequest)).
Proof.
  intros Hm Hb. unfold handle, create, ReadAll.
  rewrite Hm, Hb. cbn [negb]. cbv iota. apply httpError_fresh.
Qed.

Lemma viewing_path (r : Request) : viewing r = true <-> Path r = B "/index".
Proof. apply bytes_eqb_eq. Qed.

Lemma serve_create (r : Request) : Path r = B "/create" -> serve r = create r.
Proof. intros H. unfold serve, routes. rewrite H. reflexivity. Qed.

Lemma serve_other (r : Request) :
  Path r <> B "/index" -> Path r <> B "/create" -> serve r = NotFound.
Proof.
  intros Hi Hc. unfold serve, routes. cbn [find fst snd].
  rewrite !bytes_eqb_neq by congruence. reflexivity.
Qed.

Lemma viewing_not_creating (r : Request) : viewing r = true -> creating r = false.
Proof.
  intros H. apply viewing_path in H. unfold creating. rewrite H. reflexivity.
Qed.

(** A request that neither views nor creates is answered without the
    world being touched. *)
Lemma serve_turned_away (r : Request) (wd : World) :
  viewing r = false -> creating r = false ->
  exists rw, handle serve r wd = (Returned tt, mkState wd rw).
Proof.
  intros Hv Hc. unfold handle.
  destruct (bytes_eqb (Path r) (B "/create")) eqn:Hp.
  - apply bytes_eqb_eq in Hp. rewrite (serve_create r Hp).
    unfold creating in Hc. rewrite Hp, bytes_eqb_refl in Hc. cbn [andb] in Hc.
    destruct (bytes_eqb (Method r) MethodPost) eqn:Hm.
    + cbn [andb] in Hc. apply negb_false_iff in Hc.
      eexists. exact (create_unread r wd Hm Hc).
    + eexists. exact (create_rejects r wd Hm).
  - rewrite serve_other.
    + eexists. apply httpError_fresh.
    + intros H. apply viewing_path in H. congruence.
    + intros H. rewrite H, bytes_eqb_refl in Hp. discriminate.
Qed.

Lemma serve_viewing (r : Request) (wd : World) :
  viewing r = true -> handle serve r wd = handle index r wd.
Proof.
  intros H. apply viewing_path in H. unfold handle. rewrite (serve_index r H).
  reflexivity.
Qed.

Lemma serve_creating (r : Request) (wd : World) :
  creating r = true ->
  handle serve r wd = handle create r wd
  /\ bytes_eqb (Method r) MethodPost = true /\ BodyErr r = false.
Proof.
  unfold creating. intros H.
  apply andb_true_iff in H. destruct H as [H Hb].
  apply andb_true_iff in H. destruct H as [Hp Hm].
  apply bytes_eqb_eq in Hp. apply negb_true_iff in Hb.
  unfold handle. rewrite (serve_create r Hp). auto.
Qed.

Lemma main_run (rs : list Request) (wd : World) :
  main rs wd
  = ListenAndServe rs
      (log (B "Server running on http://localhost:3000" ++ [newline]) wd).
Proof. reflexivity. Qed.

Lemma ListenAndServe_cons (r : Request) (rs : list Request) (wd : World) :
  ListenAndServe (r :: rs) wd
  = (fst (handle serve r wd)
       :: fst (ListenAndServe rs (world (snd (handle serve r wd)))),
     snd (ListenAndServe rs (world (snd (handle serve r wd))))).
Proof.
  cbn [ListenAndServe].
  destruct (handle serve r wd) as [o s]. cbn [fst snd].
  destruct (ListenAndServe rs (world s)) as [os wd']. reflexivity.
Qed.

Lemma views_cons (r : Request) (rs : list Request) :
  views (r :: rs) = (if viewing r then 1 else 0) + views rs.
Proof. unfold views. cbn [filter]. destruct (viewing r); reflexivity. Qed.

Lemma creations_cons (r : Request) (rs : list Request) :
  creations (r :: rs) = (if creating r then 1 else 0) + creations rs.
Proof. unfold creations. cbn [filter]. destruct (creating r); reflexivity. Qed.

(** *** On a file holding [null] *)

Lemma serve_on_null (r : Request) (wd : World) :
  decoded wd = Json.NilPtr ->
  fst (handle serve r wd)
  = (if viewing r || creating r then Panicked else Returned tt)
  /\ file (world (snd (handle serve r wd))) = file wd
  /\ readable (world (snd (handle serve r wd))) = readable wd.
Proof.
  intros Hd. destruct (viewing r) eqn:Hv.
  - rewrite (serve_viewing r wd Hv), index_run, Hd. auto.
  - destruct (creating r) eqn:Hc.
    + destruct (serve_creating r wd Hc) as [-> [Hm Hb]].
      rewrite (create_run r wd Hm Hb), Hd. auto.
    + destruct (serve_turned_away r wd Hv Hc) as [rw ->]. auto.
Qed.

Lemma ListenAndServe_on_null (rs : list Request) (wd : World) :
  decoded wd = Json.NilPtr ->
  fst (ListenAndServe rs wd)
  = map (fun r => if viewing r || creating r then Panicked else Returned tt) rs
  /\ file (snd (ListenAndServe rs wd)) = file wd.
Proof.
  revert wd. induction rs as [|r rs IH]; intros wd Hd; [auto|].
  destruct (serve_on_null r wd Hd) as [Ho [Hf Hr]].
  rewrite ListenAndServe_cons. cbn [fst snd map].
  destruct (IH (world (snd (handle serve r wd)))) as [IHo IHf].
  { unfold decoded, read. rewrite Hf, Hr. exact Hd. }
  rewrite Ho, IHo, IHf, Hf. auto.
Qed.

(** X12.  A file that holds [null] is never repaired: whatever requests
    follow, each Enumerate and each Create that gets as far as loading
    panics, the others are answered as usual, and the file is the same
    at the end. *)
Theorem null_file_is_never_repaired
  (rs : list Request) (wd : World) (a b : bytes) :
  file wd = Some (a ++ B "null" ++ b) -> readable wd = true ->
  blank a -> blank b ->
  fst (main rs wd)
  = map (fun r => if viewing r || creating r then Panicked else Returned tt) rs
  /\ file (snd (main rs wd)) = file wd.
Proof.
  intros Hf Hr Ha Hb. rewrite main_run.
  apply (ListenAndServe_on_null rs
           (log (B "Server running on http://localhost:3000" ++ [newline]) wd)).
  apply UnmarshalPosts_nil, parse_null.
  exists a, b. unfold read, log. cbn [file readable]. rewrite Hf, Hr. auto.
Qed.

Lemma null_file_is_never_repaired_witness :
  fst (main [getIndex; postCreate samplePayload;
             mkRequest (B "GET") (B "/create") [] false]
            (sampleWorld (B "null")))
  = [Panicked; Panicked; Returned tt]
  /\ file (snd (main [getIndex; postCreate samplePayload;
                      mkRequest (B "GET") (B "/create") [] false]
                     (sampleWorld (B "null"))))
     = Some (B "null").
Proof.
  apply (null_file_is_never_repaired
           [getIndex; postCreate samplePayload;
            mkRequest (B "GET") (B "/create") [] false]
           (sampleWorld (B "null")) [] []);
    try reflexivity; constructor.
Defined.

(** *** On a saved Collection *)

Lemma wrap64_small (z : Z) : int64 z -> wrap64 z = z.
Proof.
  unfold int64, wrap64, Strconv.min_int64, Strconv.max_int64. intros H.
  rewrite Z.mod_small; lia.
Qed.

Lemma wrap64_add (a b : Z) : wrap64 (wrap64 a + b) = wrap64 (a + b).
Proof.
  unfold wrap64.
  replace ((a + 2 ^ 63) mod 2 ^ 64 - 2 ^ 63 + b + 2 ^ 63)%Z
    with ((a + 2 ^ 63) mod 2 ^ 64 + b)%Z by ring.
  rewrite Zplus_mod_idemp_l. do 2 f_equal. ring.
Qed.

Lemma sameContent_refl (post : Post) : sameContent post post.
Proof. repeat split. Qed.

Lemma sameContent_trans (p q r : Post) :
  sameContent p q -> sameContent q r -> sameContent p r.
Proof.
  unfold sameContent. intros [H1 [H2 [H3 H4]]] [K1 [K2 [K3 K4]]].
  repeat split; congruence.
Qed.

Lemma index_saved (r : Request) (wd : World) (l : list Post) :
  holds wd l -> clockValid wd ->
  exists s' : State,
    handle index r wd = (Returned tt, s')
    /\ holds (world s') (viewedFrom (clock wd) (ticks wd) l)
    /\ clock (world s') = clock wd
    /\ resp s'
       = written (Json.Encode (Some (viewedFrom (clock wd) (ticks wd) l)))
           (withHeader (B "Content-Type") (B "application/json") newResponse).
Proof.
  intros H Hck. destruct (decoded_holds wd l H) as [Hread Hd].
  destruct H as [Hf [Hv [Hr Hw]]].
  rewrite index_run, Hd. eexists. split; [reflexivity|].
  unfold indexed. rewrite (afterRead_ok wd _ Hread).
  cbn [world resp viewedSlice option_map elems].
  split; [|split; [|reflexivity]].
  - unfold holds. split; [apply file_written; exact Hw|].
    split; [apply viewedFrom_valid; assumption|].
    unfold write_file. cbn [writable tick log]. rewrite Hw.
    split; assumption.
  - unfold write_file. cbn [writable tick log]. rewrite Hw. reflexivity.
Qed.

Lemma create_saved (r : Request) (wd : World) (l : list Post) :
  bytes_eqb (Method r) MethodPost = true -> BodyErr r = false ->
  holds wd l -> clockValid wd ->
  exists s' : State,
    handle create r wd = (Returned tt, s')
    /\ holds (world s') (l ++ [candidate wd (Body r)])
    /\ clock (world s') = clock wd
    /\ ticks (world s') = 2 + ticks wd.
Proof.
  intros Hm Hb H Hck. destruct (decoded_holds wd l H) as [Hread Hd].
  destruct H as [Hf [Hv [Hr Hw]]].
  rewrite create_run by assumption.
  rewrite Hd. eexists. split; [reflexivity|].
  unfold created. cbn [world resp elems append].
  split; [|split].
  - unfold holds. split; [apply file_written; exact Hw|].
    split.
    + apply Forall_app. split; [exact Hv|].
      constructor; [apply candidate_valid; exact Hck|constructor].
    + unfold write_file. cbn [writable tick log]. rewrite Hw.
      split; assumption.
  - unfold write_file. cbn [writable tick log]. rewrite Hw. reflexivity.
  - unfold write_file. cbn [writable tick log]. rewrite Hw. reflexivity.
Qed.

(** One request on a saved Collection: what the file holds next. *)
Lemma serve_saved (r : Request) (wd : World) (l : list Post) :
  holds wd l -> clockValid wd ->
  exists s' : State,
    handle serve r wd = (Returned tt, s')
    /\ clock (world s') = clock wd
    /\ holds (world s')
         (if viewing r then viewedFrom (clock wd) (ticks wd) l
          else if creating r then l ++ [candidate wd (Body r)]
          else l).
Proof.
  intros H Hck. destruct (viewing r) eqn:Hv.
  - rewrite (serve_viewing r wd Hv).
    destruct (index_saved r wd l H Hck) as [s' [Hrun [Hh [Hc _]]]].
    exists s'. auto.
  - destruct (creating r) eqn:Hc.
    + destruct (serve_creating r wd Hc) as [-> [Hm Hb]].
      destruct (create_saved r wd l Hm Hb H Hck) as [s' [Hrun [Hh [Hcl _]]]].
      exists s'. auto.
    + destruct (serve_turned_away r wd Hv Hc) as [rw ->].
      eexists. split; [reflexivity|]. split; [reflexivity|exact H].
Qed.

Lemma ListenAndServe_saved (rs : list Request) :
  forall (wd : World) (l : list Post),
    holds wd l -> clockValid wd ->
    exists l' : list Post,
      fst (ListenAndServe rs wd) = map (fun _ => Returned tt) rs
      /\ holds (snd (ListenAndServe rs wd)) l'
      /\ List.length l' = List.length l + creations rs
      /\ forall i post,
           nth_error l i = Some post ->
           exists post',
             nth_error l' i = Some post'
             /\ sameContent post post'
             /\ ViewCount post'
                = wrap64 (ViewCount post + Z.of_nat (views rs)).
Proof.
  induction rs as [|r rs IH]; intros wd l H Hck.
  - exists l. split; [reflexivity|]. split; [exact H|].
    split; [cbn; lia|].
    intros i post Hi. exists post. split; [exact Hi|].
    split; [apply sameContent_refl|].
    rewrite Z.add_0_r. symmetry. apply wrap64_small.
    destruct H as [_ [Hv _]]. rewrite Forall_forall in Hv.
    apply (Hv post). eapply nth_error_In. exact Hi.
  - destruct (serve_saved r wd l H Hck) as [s' [Hrun [Hcl Hh]]].
    assert (Hck' : clockValid (world s')).
    { unfold clockValid. rewrite Hcl. exact Hck. }
    destruct (IH _ _ Hh Hck') as [l' [Ho [Hh' [Hlen Hnth]]]].
    exists l'. rewrite ListenAndServe_cons, Hrun. cbn [fst snd map].
    split; [rewrite Ho; reflexivity|].
    split; [exact Hh'|].
    rewrite views_cons, creations_cons.
    destruct (viewing r) eqn:Hv.
    + rewrite (viewing_not_creating r Hv).
      split; [rewrite Hlen, viewedFrom_length; lia|].
      intros i post Hi.
      destruct (Hnth i (viewed (clock wd (i + ticks wd)) post))
        as [post' [Hi' [Hs Hc]]].
      { rewrite viewedFrom_nth, Hi. reflexivity. }
      exists post'. split; [exact Hi'|].
      split; [eapply sameContent_trans; [|exact Hs]; repeat split|].
      rewrite Hc. cbn [viewed ViewCount].
      rewrite wrap64_add. f_equal. lia.
    + destruct (creating r) eqn:Hc.
      * split; [rewrite Hlen, length_app; cbn; lia|].
        intros i post Hi.
        destruct (Hnth i post) as [post' [Hi' [Hs Hcnt]]].
        { rewrite nth_error_app1; [exact Hi|].
          apply nth_error_Some. congruence. }
        exists post'. auto.
      * split; [rewrite Hlen; lia|].
        intros i post Hi. exact (Hnth i post Hi).
Qed.

(** X13.  Started on a file that holds a saved Collection of well-formed
    records, the server gets through any sequence of requests: none
    panics, after the last the file again holds a saved Collection of
    well-formed records, which counts one record more for each Create
    that was not turned away, and the records that were there at the
    start are still there, first and in order, with their title,
    content, author and date of creation. *)
Theorem saved_collection_survives
  (rs : list Request) (wd : World) (l : list Post) :
  holds wd l -> clockValid wd ->
  exists l' : list Post,
    fst (main rs wd) = map (fun _ => Returned tt) rs
    /\ holds (snd (main rs wd)) l'
    /\ List.length l' = List.length l + creations rs
    /\ Forall2 sameContent l (firstn (List.length l) l').
Proof.
  intros H Hck. rewrite main_run.
  destruct (ListenAndServe_saved rs
              (log (B "Server running on http://localhost:3000" ++ [newline]) wd)
              l H Hck)
    as [l' [Ho [Hh [Hlen Hnth]]]].
  exists l'. split; [exact Ho|]. split; [exact Hh|]. split; [exact Hlen|].
  clear Ho Hh H. revert l' Hlen Hnth.
  generalize (creations rs). intros n.
  induction l as [|post l IH]; intros l' Hlen Hnth; [constructor|].
  destruct l' as [|post' l']; [discriminate|].
  cbn [List.length firstn]. constructor.
  - destruct (Hnth 0 post eq_refl) as [q [Hq [Hs _]]].
    injection Hq as <-. exact Hs.
  - apply IH; [cbn in Hlen; lia|].
    intros i p Hi. exact (Hnth (S i) p Hi).
Qed.

Lemma saved_collection_survives_witness :
  exists l' : list Post,
    fst (main [getIndex; postCreate samplePayload; getIndex]
              (sampleWorld (Json.MarshalIndent (Some [samplePost]))))
    = [Returned tt; Returned tt; Returned tt]
    /\ List.length l' = 2.
Proof.
  destruct (saved_collection_survives
              [getIndex; postCreate samplePayload; getIndex]
              (sampleWorld (Json.MarshalIndent (Some [samplePost])))
              [samplePost])
    as [l' [Ho [_ [Hlen _]]]].
  - split; [reflexivity|].
    split; [constructor; [exact samplePost_valid|constructor]|].
    split; reflexivity.
  - intros i. reflexivity.
  - exists l'. split; [exact Ho|exact Hlen].
Defined.

(** X14.  Over any sequence of requests on a saved Collection, the
    [ViewCount] of a record that was there at the start has grown by the
    number of Enumerate requests among them, counted in 64-bit
    arithmetic, whatever Create requests came in between. *)
Theorem view_counts_count_the_views
  (rs : list Request) (wd : World) (l : list Post) :
  holds wd l -> clockValid wd ->
  exists l' : list Post,
    holds (snd (main rs wd)) l'
    /\ forall i post,
         nth_error l i = Some post ->
         exists post',
           nth_error l' i = Some post'
           /\ ViewCount post' = wrap64 (ViewCount post + Z.of_nat (views rs)).
Proof.
  intros H Hck. rewrite main_run.
  destruct (ListenAndServe_saved rs
              (log (B "Server running on http://localhost:3000" ++ [newline]) wd)
              l H Hck)
    as [l' [_ [Hh [_ Hnth]]]].
  exists l'. split; [exact Hh|].
  intros i post Hi. destruct (Hnth i post Hi) as [post' [Hi' [_ Hc]]].
  exists post'. auto.
Qed.

Lemma view_counts_count_the_views_witness :
  exists l' : list Post,
    holds (snd (main [getIndex; postCreate samplePayload; getIndex]
                     (sampleWorld (Json.MarshalIndent (Some [samplePost])))))
          l'
    /\ exists post', nth_error l' 0 = Some post' /\ ViewCount post' = 2%Z.
Proof.
  destruct (view_counts_count_the_views
              [getIndex; postCreate samplePayload; getIndex]
              (sampleWorld (Json.MarshalIndent (Some [samplePost])))
              [samplePost])
    as [l' [Hh Hnth]].
  - split; [reflexivity|].
    split; [constructor; [exact samplePost_valid|constructor]|].
    split; reflexivity.
  - intros i. reflexivity.
  - exists l'. split; [exact Hh|]. exact (Hnth 0 samplePost eq_refl).
Defined.

(** ** The response of Enumerate, decoded *)

Lemma lex_compact_string (key s rest : bytes) :
  validUTF8 key -> validUTF8 s ->
  Json.lex Json.LIdle (Json.compact_member (key, Json.quote s) ++ rest)
  = Json.emit (string_member key s) (Json.lex Json.LIdle rest).
Proof.
  intros Hk Hs. unfold Json.compact_member. cbn [fst snd].
  rewrite <- !app_assoc. rewrite lex_quote by exact Hk.
  cbn [B list_ascii_of_string List.app].
  rewrite (lex_punct ":" Json.TColon) by reflexivity.
  rewrite lex_quote by exact Hs.
  rewrite !emit_emit. reflexivity.
Qed.

Lemma lex_compact_number (key : bytes) (z : Z) (rest : bytes) :
  validUTF8 key -> int64 z ->
  Json.lex Json.LIdle
    (Json.compact_member (key, Strconv.FormatInt z) ++ ","%char :: rest)
  = Json.emit [Json.TStr (Json.quote_from 0 key); Json.TColon;
               Json.TNum (Strconv.FormatInt z); Json.TComma]
              (Json.lex Json.LIdle rest).
Proof.
  intros Hk Hz. unfold Json.compact_member. cbn [fst snd].
  rewrite <- !app_assoc. rewrite lex_quote by exact Hk.
  cbn [B list_ascii_of_string List.app].
  rewrite (lex_punct ":" Json.TColon) by reflexivity.
  rewrite lex_number by exact Hz.
  rewrite !emit_emit. reflexivity.
Qed.

Lemma lex_comma (rest : bytes) :
  Json.lex Json.LIdle (B "," ++ rest)
  = Json.emit [Json.TComma] (Json.lex Json.LIdle rest).
Proof. apply (lex_punct "," Json.TComma). reflexivity. Qed.

Lemma lex_compact_post (post : Post) (rest : bytes) :
  validPost post ->
  Json.lex Json.LIdle (Json.compact_post post ++ rest)
  = Json.emit (post_tokens post) (Json.lex Json.LIdle rest).
Proof.
  intros [Ht [Hc [Hcr [Ha [Hv Hl]]]]].
  unfold Json.compact_post, Json.members.
  cbn [map Json.join].
  rewrite <- !app_assoc.
  change (B "{" ++ ?X) with ("{"%char :: X).
  rewrite (lex_punct "{" Json.TLBrace) by reflexivity.
  rewrite lex_compact_string by (try reflexivity; assumption).
  rewrite lex_comma.
  rewrite lex_compact_string by (try reflexivity; assumption).
  rewrite lex_comma.
  rewrite lex_compact_string by (try reflexivity; assumption).
  rewrite lex_comma.
  rewrite lex_compact_string by (try reflexivity; assumption).
  rewrite lex_comma.
  change (B "," ++ ?X) with (","%char :: X).
  rewrite lex_compact_number by (try reflexivity; assumption).
  rewrite lex_compact_string by (try reflexivity; assumption).
  change (B "}" ++ rest) with ("}"%char :: rest).
  rewrite (lex_punct "}" Json.TRBrace) by reflexivity.
  rewrite !emit_emit. reflexivity.
Qed.

Lemma lex_compact_posts (l : list Post) (post : Post) (rest : bytes) :
  Forall validPost (post :: l) ->
  Json.lex Json.LIdle
    (Json.join (B ",") (map Json.compact_post (post :: l)) ++ rest)
  = Json.emit (post_tokens post ++ more_tokens l) (Json.lex Json.LIdle rest).
Proof.
  revert post. induction l as [|q l IH]; intros post H.
  - inversion H as [|? ? Hp _]; subst.
    cbn [map Json.join]. rewrite lex_compact_post by exact Hp.
    unfold more_tokens. cbn [map List.concat]. rewrite app_nil_r. reflexivity.
  - inversion H as [|? ? Hp Hl]; subst.
    rewrite !map_cons, join_cons, <- !app_assoc.
    rewrite lex_compact_post by exact Hp.
    rewrite lex_comma.
    rewrite <- map_cons, IH by exact Hl.
    rewrite !emit_emit. unfold more_tokens. cbn [map List.concat].
    rewrite <- !app_assoc. reflexivity.
Qed.

Lemma parse_encoded (post : Post) (l : list Post) :
  Forall validPost (post :: l) ->
  Json.parse (Json.Encode (Some (post :: l)))
  = Some (Json.JArr (map post_value (post :: l))).
Proof.
  intros H. unfold Json.parse, Json.Encode, Json.Marshal.
  rewrite <- !app_assoc.
  change (B "[" ++ ?X) with ("["%char :: X).
  rewrite (lex_punct "[" Json.TLBrack) by reflexivity.
  rewrite lex_compact_posts by exact H.
  change (Json.lex Json.LIdle (B "]" ++ [newline])) with (Some [Json.TRBrack]).
  cbn [Json.emit option_map List.app].
  cbn [Json.prun Json.pstep Json.begin_value].
  change (Json.open_frame (Json.FArr []) Json.PValueOrEnd [])
    with (Some (Json.PValueOrEnd, [Json.FArr []])).
  cbv iota.
  inversion H as [|? ? Hp Hl]; subst.
  rewrite <- !app_assoc.
  rewrite prun_post by (auto; exact Hp).
  rewrite prun_more by exact Hl. reflexivity.
Qed.

(** Decoding a document made of the documents of well-formed records
    gives the records, and no error. *)
Lemma UnmarshalPosts_document (data : bytes) (l : list Post) :
  Forall validPost l ->
  Json.parse data = Some (Json.JArr (map post_value l)) ->
  Json.UnmarshalPosts data = (Json.Ref (Some l), None).
Proof.
  intros H Hp. unfold Json.UnmarshalPosts. rewrite Hp.
  assert (Hd : map (fun v => Json.decode_post v zeroPost) (map post_value l)
               = map (fun p => (p, false)) l).
  { rewrite map_map. apply map_ext_in. intros p Hin.
    apply decode_post_value. rewrite Forall_forall in H. apply H. exact Hin. }
  rewrite Hd, map_map. cbn [fst]. rewrite map_id.
  replace (existsb snd (map (fun p : Post => (p, false)) l)) with false.
  - reflexivity.
  - symmetry. clear. induction l; simpl; auto.
Qed.

Lemma decode_after_encode (l : list Post) :
  Forall validPost l ->
  Json.UnmarshalPosts (Json.Encode (Some l)) = (Json.Ref (Some l), None).
Proof.
  intros H. destruct l as [|post l]; [reflexivity|].
  apply UnmarshalPosts_document; [exact H|]. apply parse_encoded. exact H.
Qed.

(** X15.  What Enumerate answers on a saved Collection decodes, the way
    the program itself decodes a Collection, without error and to the
    very records it has just written to the file: the compact response
    and the indented file are two layouts of the same data. *)
Theorem index_response_decodes_to_the_file
  (r : Request) (wd : World) (l : list Post) :
  holds wd l -> clockValid wd ->
  exists (s' : State) (data : bytes) (l' : list Post),
    handle index r wd = (Returned tt, s')
    /\ file (world s') = Some data
    /\ body (resp s') <> data
    /\ Json.UnmarshalPosts (body (resp s')) = (Json.Ref (Some l'), None)
    /\ Json.UnmarshalPosts data = (Json.Ref (Some l'), None)
    /\ l' = viewedFrom (clock wd) (ticks wd) l.
Proof.
  intros H Hck.
  destruct (index_saved r wd l H Hck) as [s' [Hrun [[Hf [Hv _]] [_ Hresp]]]].
  exists s', (Json.MarshalIndent (Some (viewedFrom (clock wd) (ticks wd) l))),
         (viewedFrom (clock wd) (ticks wd) l).
  split; [exact Hrun|]. split; [exact Hf|].
  rewrite Hresp. cbn [body written withHeader newResponse status List.app].
  split; [apply Encode_not_indented|].
  split; [apply decode_after_encode; exact Hv|].
  split; [apply load_after_save; exact Hv|reflexivity].
Qed.

Lemma index_response_decodes_to_the_file_witness :
  exists s' : State,
    handle index getIndex (sampleWorld (Json.MarshalIndent (Some [samplePost])))
    = (Returned tt, s')
    /\ Json.UnmarshalPosts (body (resp s'))
       = (Json.Ref (Some [viewed (B "2025-05-01") samplePost]), None).
Proof.
  destruct (index_response_decodes_to_the_file getIndex
              (sampleWorld (Json.MarshalIndent (Some [samplePost])))
              [samplePost])
    as [s' [data [l' [Hrun [_ [_ [Hb [_ Hl]]]]]]]].
  - split; [reflexivity|].
    split; [constructor; [exact samplePost_valid|constructor]|].
    split; reflexivity.
  - intros i. reflexivity.
  - exists s'. split; [exact Hrun|]. rewrite Hb, Hl. reflexivity.
Defined.

(** ** What Create takes from the payload *)

Lemma parse_compact_post (post : Post) :
  validPost post -> Json.parse (Json.compact_post post) = Some (post_value post).
Proof.
  intros H. unfold Json.parse.
  rewrite <- (app_nil_r (Json.compact_post post)).
  rewrite lex_compact_post by exact H.
  cbn [Json.lex Json.emit option_map]. rewrite app_nil_r.
  unfold post_tokens, string_member, post_value, string_value. reflexivity.
Qed.

Lemma UnmarshalPost_compact (post : Post) :
  validPost post ->
  Json.UnmarshalPost (Json.compact_post post) zeroPost = (post, None).
Proof.
  intros H. unfold Json.UnmarshalPost.
  rewrite (parse_compact_post post H), (decode_post_value post H). reflexivity.
Qed.

(** X16.  A record taken as it is from the response of Enumerate and
    sent to Create decodes without error to the record it encodes, and
    is stored after the records of the file with its title, content and
    author; its dates and its count are those Create gives. *)
Theorem create_takes_a_record_of_the_response
  (r : Request) (wd : World) (l : list Post) (post : Post) :
  validPost post ->
  Method r = MethodPost -> BodyErr r = false ->
  Body r = Json.compact_post post ->
  holds wd l -> clockValid wd ->
  Json.UnmarshalPost (Body r) zeroPost = (post, None)
  /\ exists s' : State,
       handle create r wd = (Returned tt, s')
       /\ holds (world s')
            (l ++ [mkPost (Title post) (Content post) (clock wd (ticks wd))
                          (Author post) 0 (clock wd (S (ticks wd)))]).
Proof.
  intros Hp Hm Hb Hbody H Hck.
  pose proof (UnmarshalPost_compact post Hp) as Hu. rewrite <- Hbody in Hu.
  split; [exact Hu|].
  apply bytes_eqb_eq in Hm.
  destruct (create_saved r wd l Hm Hb H Hck) as [s' [Hrun [Hh _]]].
  exists s'. split; [exact Hrun|].
  unfold candidate in Hh. rewrite Hu in Hh. exact Hh.
Qed.

Lemma create_takes_a_record_of_the_response_witness :
  exists s' : State,
    handle create (postCreate (Json.compact_post wornPost))
           (sampleWorld (Json.MarshalIndent (Some [samplePost])))
    = (Returned tt, s')
    /\ holds (world s')
             [samplePost;
              mkPost (B "A") (B "B") (B "2025-05-01") (B "C") 0 (B "2025-05-01")].
Proof.
  destruct (create_takes_a_record_of_the_response
              (postCreate (Json.compact_post wornPost))
              (sampleWorld (Json.MarshalIndent (Some [samplePost])))
              [samplePost] wornPost)
    as [_ [s' [Hrun Hh]]].
  - repeat split; vm_compute; try reflexivity; discriminate.
  - reflexivity.
  - reflexivity.
  - reflexivity.
  - split; [reflexivity|].
    split; [constructor; [exact samplePost_valid|constructor]|].
    split; reflexivity.
  - intros i. reflexivity.
  - exists s'. split; [exact Hrun|exact Hh].
Defined.

Lemma lex_compact_last (key s rest : bytes) :
  validUTF8 key -> validUTF8 s ->
  Json.lex Json.LIdle
    (B "    " ++ Json.quote key ++ B ": " ++ Json.quote s ++ rest)
  = Json.emit (string_member key s) (Json.lex Json.LIdle rest).
Proof.
  intros Hk Hs.
  pose proof (lex_string_member key s rest Hk Hs) as H.
  unfold Json.indent_member in H. cbn [fst snd] in H.
  rewrite <- !app_assoc in H. exact H.
Qed.

Lemma parse_readmePayload (t c d a : bytes) :
  validUTF8 t -> validUTF8 c -> validUTF8 d -> validUTF8 a ->
  Json.parse (readmePayload t c d a)
  = Some (Json.JObj
            [ (Json.quote_from 0 (B "title"), string_value t);
              (Json.quote_from 0 (B "content"), string_value c);
              (Json.quote_from 0 (B "created_at"), string_value d);
              (Json.quote_from 0 (B "author"), string_value a) ]).
Proof.
  intros Ht Hc Hd Ha. unfold Json.parse, readmePayload.
  change (B "{" ++ [newline] ++ ?X) with ("{"%char :: newline :: X).
  rewrite (lex_punct "{" Json.TLBrace) by reflexivity.
  rewrite lex_blank by reflexivity.
  rewrite lex_compact_last by (try reflexivity; assumption).
  rewrite lex_comma_newline.
  rewrite lex_compact_last by (try reflexivity; assumption).
  rewrite lex_comma_newline.
  rewrite lex_compact_last by (try reflexivity; assumption).
  rewrite lex_comma_newline.
  rewrite lex_compact_last by (try reflexivity; assumption).
  change (Json.lex Json.LIdle ([newline] ++ B "  }")) with (Some [Json.TRBrace]).
  rewrite !emit_emit.
  unfold string_member, string_value. reflexivity.
Qed.

(** X17.  The body of the README's request, sent to Create, does what it
    is meant to although its keys are in lower case: keys match the
    field names whatever the case of their letters, so the title, the
    content and the author are stored. The key [created_at] names no
    field; the date sent under it is not even decoded. *)
Theorem create_takes_the_payload_of_the_README
  (r : Request) (wd : World) (l : list Post) (t c d a : bytes) :
  validUTF8 t -> validUTF8 c -> validUTF8 d -> validUTF8 a ->
  Method r = MethodPost -> BodyErr r = false ->
  Body r = readmePayload t c d a ->
  holds wd l -> clockValid wd ->
  Json.UnmarshalPost (Body r) zeroPost = (mkPost t c [] a 0 [], None)
  /\ exists s' : State,
       handle create r wd = (Returned tt, s')
       /\ holds (world s')
            (l ++ [mkPost t c (clock wd (ticks wd)) a 0 (clock wd (S (ticks wd)))]).
Proof.
  intros Ht Hc Hd Ha Hm Hb Hbody H Hck.
  assert (Hu : Json.UnmarshalPost (Body r) zeroPost = (mkPost t c [] a 0 [], None)).
  { rewrite Hbody. unfold Json.UnmarshalPost.
    rewrite (parse_readmePayload t c d a Ht Hc Hd Ha).
    unfold string_value, Json.decode_post. cbn [fold_left].
    unfold Json.store_member. cbn [fst snd].
    change (Json.lookup_field (Json.unquote (Json.quote_from 0 (B "title"))))
      with (Some Json.FTitle).
    change (Json.lookup_field (Json.unquote (Json.quote_from 0 (B "content"))))
      with (Some Json.FContent).
    change (Json.lookup_field (Json.unquote (Json.quote_from 0 (B "created_at"))))
      with (@None Json.field).
    change (Json.lookup_field (Json.unquote (Json.quote_from 0 (B "author"))))
      with (Some Json.FAuthor).
    cbn [Json.store_field Json.store_string
         Title Content CreatedAt Author ViewCount LastViewed zeroPost orb].
    rewrite (unquote_quote _ Ht), (unquote_quote _ Hc), (unquote_quote _ Ha).
    reflexivity. }
  split; [exact Hu|].
  apply bytes_eqb_eq in Hm.
  destruct (create_saved r wd l Hm Hb H Hck) as [s' [Hrun [Hh _]]].
  exists s'. split; [exact Hrun|].
  unfold candidate in Hh. rewrite Hu in Hh. exact Hh.
Qed.

Lemma create_takes_the_payload_of_the_README_witness :
  exists s' : State,
    handle create
      (postCreate (readmePayload (B "My First Post")
                     (B "This is the content of the post.")
                     (B "2025-04-30T12:00:00Z") (B "Jane Doe")))
      (sampleWorld (B "[]"))
    = (Returned tt, s')
    /\ holds (world s')
         [mkPost (B "My First Post") (B "This is the content of the post.")
                 (B "2025-05-01") (B "Jane Doe") 0 (B "2025-05-01")].
Proof.
  destruct (create_takes_the_payload_of_the_README
              (postCreate (readmePayload (B "My First Post")
                             (B "This is the content of the post.")
                             (B "2025-04-30T12:00:00Z") (B "Jane Doe")))
              (sampleWorld (B "[]")) []
              (B "My First Post") (B "This is the content of the post.")
              (B "2025-04-30T12:00:00Z") (B "Jane Doe"))
    as [_ [s' [Hrun Hh]]]; try reflexivity.
  - split; [reflexivity|]. split; [constructor|]. split; reflexivity.
  - intros i. reflexivity.
  - exists s'. split; [exact Hrun|exact Hh].
Defined.

(** ** Files that were not written by [savePosts] *)

Lemma decoded_valid (wd : World) (posts : slice Post) :
  decoded wd = Json.Ref posts -> Forall validPost (elems posts).
Proof.
  unfold decoded, Json.UnmarshalPosts.
  destruct (Json.parse (fst (read wd))) as [v|]; simpl.
  - destruct v; simpl; intros [= <-]; simpl; try constructor.
    rewrite map_map. apply Forall_forall. intros post Hin.
    apply in_map_iff in Hin. destruct Hin as [v [<- _]].
    apply decode_post_valid, zeroPost_valid.
  - intros [= <-]. constructor.
Qed.

Lemma decoded_array (wd : World) (data : bytes) (vs : list Json.value) :
  file wd = Some data -> readable wd = true ->
  Json.parse data = Some (Json.JArr vs) ->
  decoded wd
  = Json.Ref (Some (map (fun v => fst (Json.decode_post v zeroPost)) vs)).
Proof.
  intros Hf Hr Hp.
  rewrite (decoded_ok wd data (decoded_of_file wd data Hf Hr)).
  unfold Json.UnmarshalPosts. rewrite Hp. cbn [fst]. rewrite map_map. reflexivity.
Qed.

Lemma decoded_other (wd : World) (data : bytes) :
  file wd = Some data -> readable wd = true ->
  (forall vs, Json.parse data <> Some (Json.JArr vs)) ->
  Json.parse data <> Some Json.JNull ->
  decoded wd = Json.Ref None.
Proof.
  intros Hf Hr Ha Hn.
  rewrite (decoded_ok wd data (decoded_of_file wd data Hf Hr)).
  unfold Json.UnmarshalPosts.
  destruct (Json.parse data) as [[| | | |vs|]|]; try reflexivity.
  - contradiction.
  - exfalso. exact (Ha vs eq_refl).
Qed.

(** X18.  Whatever JSON array the file holds, with members missing,
    unknown or of the wrong type, elements that are no objects, any
    layout, Enumerate returns and leaves the file as [savePosts] lays
    out a Collection of well-formed records, one per element of the
    array: from then on the file is one the service wrote. *)
Theorem index_leaves_a_saved_collection
  (r : Request) (wd : World) (data : bytes) (vs : list Json.value) :
  file wd = Some data -> readable wd = true -> writable wd = true ->
  clockValid wd ->
  Json.parse data = Some (Json.JArr vs) ->
  exists (s' : State) (l' : list Post),
    handle index r wd = (Returned tt, s')
    /\ holds (world s') l'
    /\ List.length l' = List.length vs
    /\ body (resp s') = Json.Encode (Some l').
Proof.
  intros Hf Hr Hw Hck Hp.
  pose proof (decoded_array wd data vs Hf Hr Hp) as Hd.
  pose proof (decoded_valid wd _ Hd) as Hv. cbn [elems] in Hv.
  set (l := map (fun v => fst (Json.decode_post v zeroPost)) vs) in *.
  exists (indexed wd (Some l)), (viewedFrom (clock wd) (ticks wd) l).
  split; [rewrite index_run, Hd; reflexivity|].
  unfold indexed.
  rewrite (afterRead_ok wd _ (decoded_of_file wd data Hf Hr)).
  cbn [world resp viewedSlice option_map elems].
  split; [|split].
  - unfold holds. split; [apply file_written; exact Hw|].
    split; [apply viewedFrom_valid; assumption|].
    unfold write_file. cbn [writable tick log]. rewrite Hw.
    split; assumption.
  - rewrite viewedFrom_length. unfold l. apply length_map.
  - reflexivity.
Qed.

Lemma index_leaves_a_saved_collection_witness :
  exists (s' : State) (l' : list Post),
    handle index getIndex
           (sampleWorld (B "[1, {" ++ Json.quote (B "title") ++ B ": null}]"))
    = (Returned tt, s')
    /\ holds (world s') l'
    /\ List.length l' = 2.
Proof.
  destruct (index_leaves_a_saved_collection getIndex
              (sampleWorld (B "[1, {" ++ Json.quote (B "title") ++ B ": null}]"))
              (B "[1, {" ++ Json.quote (B "title") ++ B ": null}]")
              [Json.JNum (B "1");
               Json.JObj [(Json.quote_from 0 (B "title"), Json.JNull)]])
    as [s' [l' [Hrun [Hh [Hlen _]]]]]; try reflexivity.
  - intros i. reflexivity.
  - exists s', l'. split; [exact Hrun|]. split; [exact Hh|exact Hlen].
Defined.

(** X19.  A file that can be read but holds no JSON array, whether
    malformed text or another JSON value, does not survive Enumerate:
    the caller gets status 200 and [null], the file is overwritten with
    [null], and from then on Enumerate panics. *)
Theorem index_overwrites_what_it_cannot_decode
  (r r2 : Request) (wd : World) (data : bytes) :
  file wd = Some data -> readable wd = true -> writable wd = true ->
  (forall vs, Json.parse data <> Some (Json.JArr vs)) ->
  Json.parse data <> Some Json.JNull ->
  exists s' : State,
    handle index r wd = (Returned tt, s')
    /\ status (resp s') = Some 200%Z
    /\ body (resp s') = B "null" ++ [newline]
    /\ file (world s') = Some (B "null")
    /\ fst (handle index r2 (world s')) = Panicked.
Proof.
  intros Hf Hr Hw Ha Hn.
  pose proof (decoded_other wd data Hf Hr Ha Hn) as Hd.
  exists (indexed wd None).
  split; [rewrite index_run, Hd; reflexivity|].
  unfold indexed.
  rewrite (afterRead_ok wd _ (decoded_of_file wd data Hf Hr)).
  cbn [world resp viewedSlice option_map elems].
  split; [reflexivity|]. split; [reflexivity|].
  split; [apply file_written; exact Hw|].
  rewrite index_run.
  replace (decoded _) with (@Json.NilPtr (slice Post)); [reflexivity|].
  unfold decoded, read, write_file. cbn [writable tick log]. rewrite Hw.
  cbn [file readable set_file tick log]. rewrite Hr. reflexivity.
Qed.

Lemma index_overwrites_what_it_cannot_decode_witness :
  exists s' : State,
    handle index getIndex (sampleWorld (B "{posts}")) = (Returned tt, s')
    /\ file (world s') = Some (B "null")
    /\ fst (handle index getIndex (world s')) = Panicked.
Proof.
  destruct (index_overwrites_what_it_cannot_decode getIndex getIndex
              (sampleWorld (B "{posts}")) (B "{posts}"))
    as [s' [Hrun [_ [_ [Hf Hp]]]]]; try reflexivity.
  - intros vs. discriminate.
  - discriminate.
  - exists s'. split; [exact Hrun|]. split; [exact Hf|exact Hp].
Defined.

(** X20.  Create on a file that can be read but holds no JSON array, and
    is not [null], goes through: what the file held is replaced by a
    saved Collection of one record, the stamped candidate. *)
Theorem create_replaces_what_it_cannot_decode
  (r : Request) (wd : World) (data : bytes) :
  Method r = MethodPost -> BodyErr r = false ->
  file wd = Some data -> readable wd = true -> writable wd = true ->
  clockValid wd ->
  (forall vs, Json.parse data <> Some (Json.JArr vs)) ->
  Json.parse data <> Some Json.JNull ->
  exists s' : State,
    handle create r wd = (Returned tt, s')
    /\ status (resp s') = Some 200%Z
    /\ body (resp s') = B "Post successfully created"
    /\ holds (world s') [candidate wd (Body r)].
Proof.
  intros Hm Hb Hf Hr Hw Hck Ha Hn.
  pose proof (decoded_other wd data Hf Hr Ha Hn) as Hd.
  rewrite create_run by (try apply bytes_eqb_eq; assumption).
  rewrite Hd. eexists. split; [reflexivity|].
  unfold created.
  rewrite (afterRead_ok wd _ (decoded_of_file wd data Hf Hr)).
  cbn [world resp elems append List.app].
  split; [reflexivity|]. split; [reflexivity|].
  unfold holds. split; [apply file_written; exact Hw|].
  split; [constructor; [apply candidate_valid; exact Hck|constructor]|].
  unfold write_file. cbn [writable tick log]. rewrite Hw.
  split; assumption.
Qed.

Lemma create_replaces_what_it_cannot_decode_witness :
  exists s' : State,
    handle create (postCreate samplePayload) (sampleWorld (B "{posts}"))
    = (Returned tt, s')
    /\ holds (world s')
             [mkPost (B "A") (B "B") (B "2025-05-01") (B "C") 0 (B "2025-05-01")].
Proof.
  destruct (create_replaces_what_it_cannot_decode (postCreate samplePayload)
              (sampleWorld (B "{posts}")) (B "{posts}"))
    as [s' [Hrun [_ [_ Hh]]]]; try reflexivity.
  - intros i. reflexivity.
  - intros vs. discriminate.
  - discriminate.
  - exists s'. split; [exact Hrun|exact Hh].
Defined.

(** ** Requests that change nothing, and a record from Create to Enumerate *)

(** X21.  Only a request to [/index] and a POST to [/create] whose body
    can be read touch anything: every other request is answered and
    leaves the file, the clock and the log as they were. *)
Theorem other_requests_change_nothing (r : Request) (wd : World) :
  Path r <> B "/index" ->
  Path r <> B "/create" \/ Method r <> MethodPost \/ BodyErr r = true ->
  fst (handle serve r wd) = Returned tt
  /\ world (snd (handle serve r wd)) = wd.
Proof.
  intros Hi Hc.
  destruct (serve_turned_away r wd) as [rw ->]; [| |auto].
  - apply bytes_eqb_neq. exact Hi.
  - unfold creating. destruct Hc as [Hc | [Hc | Hc]].
    + rewrite (bytes_eqb_neq _ _ Hc). reflexivity.
    + rewrite (bytes_eqb_neq _ _ Hc), andb_false_r. reflexivity.
    + rewrite Hc, andb_false_r. reflexivity.
Qed.

Lemma other_requests_change_nothing_witness :
  world (snd (handle serve (mkRequest (B "DELETE") (B "/create") [] false)
                     (sampleWorld (B "[]"))))
  = sampleWorld (B "[]").
Proof.
  apply (other_requests_change_nothing
           (mkRequest (B "DELETE") (B "/create") [] false)
           (sampleWorld (B "[]"))).
  - discriminate.
  - right. left. discriminate.
Defined.

(** X22.  A record stored by Create is the last of those the next
    Enumerate returns, with the title, content and author of the
    payload, the date of its creation, a [ViewCount] of 1 and, as the
    date it was last viewed, the date of that Enumerate. *)
Theorem created_record_is_enumerated
  (r r2 : Request) (wd : World) (l : list Post) :
  Method r = MethodPost -> BodyErr r = false ->
  holds wd l -> clockValid wd ->
  exists (s1 s2 : State) (l' : list Post),
    handle create r wd = (Returned tt, s1)
    /\ handle index r2 (world s1) = (Returned tt, s2)
    /\ body (resp s2) = Json.Encode (Some l')
    /\ List.length l' = S (List.length l)
    /\ nth_error l' (List.length l)
       = Some (let p := fst (Json.UnmarshalPost (Body r) zeroPost) in
               mkPost (Title p) (Content p) (clock wd (ticks wd)) (Author p)
                      1 (clock wd (List.length l + (2 + ticks wd)))).
Proof.
  intros Hm Hb H Hck. apply bytes_eqb_eq in Hm.
  destruct (create_saved r wd l Hm Hb H Hck) as [s1 [Hrun1 [Hh1 [Hcl1 Htk1]]]].
  assert (Hck1 : clockValid (world s1)).
  { unfold clockValid. rewrite Hcl1. exact Hck. }
  destruct (index_saved r2 (world s1) _ Hh1 Hck1) as [s2 [Hrun2 [_ [_ Hresp]]]].
  exists s1, s2,
    (viewedFrom (clock (world s1)) (ticks (world s1)) (l ++ [candidate wd (Body r)])).
  split; [exact Hrun1|]. split; [exact Hrun2|].
  split; [rewrite Hresp; reflexivity|].
  split; [rewrite viewedFrom_length, length_app; cbn; lia|].
  rewrite viewedFrom_nth, nth_error_app2, Nat.sub_diag by lia.
  rewrite Hcl1, Htk1. reflexivity.
Qed.

Lemma created_record_is_enumerated_witness :
  exists (s2 : State) (l' : list Post),
    body (resp s2) = Json.Encode (Some l')
    /\ nth_error l' 1
       = Some (mkPost (B "A") (B "B") (B "2025-05-01") (B "C") 1 (B "2025-05-01")).
Proof.
  destruct (created_record_is_enumerated (postCreate samplePayload) getIndex
              (sampleWorld (Json.MarshalIndent (Some [samplePost])))
              [samplePost])
    as [s1 [s2 [l' [_ [_ [Hb [_ Hn]]]]]]]; try reflexivity.
  - split; [reflexivity|].
    split; [constructor; [exact samplePost_valid|constructor]|].
    split; reflexivity.
  - intros i. reflexivity.
  - exists s2, l'. split; [exact Hb|exact Hn].
Defined.

(** ** A store without a file *)

Lemma create_on_no_file (r : Request) (wd : World) :
  creating r = true ->
  file wd = None -> readable wd = true -> writable wd = true ->
  clockValid wd ->
  exists s' : State,
    handle serve r wd = (Returned tt, s')
    /\ clock (world s') = clock wd
    /\ holds (world s') [candidate wd (Body r)].
Proof.
  intros Hc Hf Hr Hw Hck.
  destruct (serve_creating r wd Hc) as [-> [Hm Hb]].
  assert (Hread : read wd = ([], true)) by (unfold read; rewrite Hf; reflexivity).
  assert (Hdec : decoded wd = Json.Ref None)
    by (unfold decoded; rewrite Hread; reflexivity).
  rewrite (create_run r wd Hm Hb), Hdec. eexists. split; [reflexivity|].
  unfold created. cbn [world resp elems append List.app].
  unfold write_file. cbn [writable tick log]. rewrite Hw.
  split; [reflexivity|].
  unfold holds. cbn [file readable writable set_file tick log].
  split; [reflexivity|].
  split; [constructor; [apply candidate_valid; exact Hck|constructor]|].
  split; assumption.
Qed.

Lemma index_on_no_file (r : Request) (wd : World) :
  viewing r = true ->
  file wd = None -> readable wd = true -> writable wd = true ->
  exists s' : State,
    handle serve r wd = (Returned tt, s')
    /\ file (world s') = Some (B "null")
    /\ decoded (world s') = Json.NilPtr.
Proof.
  intros Hv Hf Hr Hw.
  assert (Hread : snd (read wd) = true) by (unfold read; rewrite Hf; reflexivity).
  rewrite (serve_viewing r wd Hv), index_run, (decoded_unread wd Hread).
  eexists. split; [reflexivity|].
  unfold indexed. cbn [world viewedSlice option_map elems].
  unfold write_file. cbn [writable tick log]. rewrite Hw.
  split; [reflexivity|].
  unfold decoded, read. cbn [file readable set_file tick log]. rewrite Hr.
  reflexivity.
Qed.

(** X23.  When the service starts without its file, the first request
    that gets as far as loading decides what becomes of the store. If it
    is a Create, the file is created with that record and the server
    gets through every request that follows. If it is an Enumerate, the
    file is created holding [null], and every Enumerate and every Create
    that follows panics on loading it. *)
Theorem first_request_on_no_file
  (r : Request) (rs : list Request) (wd : World) :
  file wd = None -> readable wd = true -> writable wd = true ->
  clockValid wd ->
  (creating r = true ->
   fst (main (r :: rs) wd) = map (fun _ => Returned tt) (r :: rs)
   /\ exists l' : list Post,
        holds (snd (main (r :: rs) wd)) l'
        /\ List.length l' = 1 + creations rs)
  /\ (viewing r = true ->
      fst (main (r :: rs) wd)
      = Returned tt
          :: map (fun r' => if viewing r' || creating r'
                            then Panicked else Returned tt) rs
      /\ file (snd (main (r :: rs) wd)) = Some (B "null")).
Proof.
  intros Hf Hr Hw Hck. rewrite main_run.
  set (wd0 := log (B "Server running on http://localhost:3000" ++ [newline]) wd).
  rewrite ListenAndServe_cons. cbn [fst snd map]. split.
  - intros Hc.
    destruct (create_on_no_file r wd0 Hc Hf Hr Hw Hck) as [s' [-> [Hcl Hh]]].
    assert (Hck' : clockValid (world s')).
    { unfold clockValid. rewrite Hcl. exact Hck. }
    destruct (ListenAndServe_saved rs _ _ Hh Hck') as [l' [Ho [Hh' [Hlen _]]]].
    cbn [fst snd]. rewrite Ho. split; [reflexivity|].
    exists l'. split; [exact Hh'|exact Hlen].
  - intros Hv.
    destruct (index_on_no_file r wd0 Hv Hf Hr Hw) as [s' [-> [Hf' Hd]]].
    destruct (ListenAndServe_on_null rs _ Hd) as [Ho Hfile].
    cbn [fst snd]. rewrite Ho, Hfile. split; [reflexivity|exact Hf'].
Qed.

Lemma first_request_on_no_file_witness :
  fst (main [postCreate samplePayload; getIndex] emptyWorld)
  = [Returned tt; Returned tt]
  /\ fst (main [getIndex; postCreate samplePayload] emptyWorld)
     = [Returned tt; Panicked].
Proof.
  assert (Hck : clockValid emptyWorld) by (intros i; reflexivity).
  split.
  - destruct (first_request_on_no_file (postCreate samplePayload) [getIndex]
                emptyWorld eq_refl eq_refl eq_refl Hck) as [Hc _].
    destruct (Hc eq_refl) as [H _]. exact H.
  - destruct (first_request_on_no_file getIndex [postCreate samplePayload]
                emptyWorld eq_refl eq_refl eq_refl Hck) as [_ Hv].
    destruct (Hv eq_refl) as [H _]. exact H.
Defined.
